(** * TraceAce: ingest / parse / filter pipeline

    A shallow embedding of the Go sources of TraceAce (circular line
    store, log parser, filter engine with its advanced query parser, file
    rotation check and the coordinator of the terminal UI), followed by the
    properties of the specification that were checked against it.

    Conventions.
    - A Go [string] is a sequence of bytes: [gostring := list ascii].
    - A Go [int] / [int64] is a [Z]; positions inside a query string are
      [nat] (they start at 0 and are only ever incremented).
    - A [time.Time] is the instant it denotes, counted in nanoseconds from
      Go's zero time (January 1, year 1, 00:00:00 UTC), so that
      [IsZero t] is [t = 0] and [Before]/[After] compare instants.
    - A pointer [*LogLine] is an [option LogLine] where the code stores or
      returns [nil]; lines are never mutated once they sit in a buffer, so
      a buffer of pointers is modelled as a buffer of values.
    - A Go function returning [(T, error)] returns an [outcome T]:
      [Ok], [Err msg], or [Panic] when the Go runtime would panic (index
      or slice bounds out of range, division by zero).  The recursive
      descent parser is driven by a fuel counter; [OutOfFuel] is shown
      unreachable from the entry point ([ParseAdvancedQuery_returns]).
    - Functions of Go's standard library and of third-party packages
      (regexp, encoding/json, yaml, strconv, time, fmt, unicode-aware
      functions of strings) are not part of the repository: they are the
      fields of the class [GoRuntime]. *)

From Stdlib Require Import ZArith Lia List Ascii String Bool.
From stdpp Require Import base tactics option list gmap strings.

Set Warnings "-register-all".

Local Open Scope Z_scope.
Local Open Scope list_scope.

(** ** Go strings *)

Definition gostring : Type := list ascii.

Definition lit (s : string) : gostring := list_ascii_of_string s.

Definition byte_val (c : ascii) : Z := Z.of_nat (nat_of_ascii c).

(** [s[a:b]] for [a <= b <= len(s)]. *)
Definition slice (s : gostring) (a b : nat) : gostring := take (b - a) (drop a s).

Fixpoint HasPrefix (s p : gostring) : bool :=
  match p, s with
  | [], _ => true
  | c :: p', d :: s' => if decide (c = d) then HasPrefix s' p' else false
  | _ :: _, [] => false
  end.

Definition HasSuffix (s p : gostring) : bool := HasPrefix (reverse s) (reverse p).

(** [strings.Index]: position of the first occurrence, [None] for -1. *)
Fixpoint Index (s sub : gostring) : option nat :=
  if HasPrefix s sub then Some 0%nat
  else match s with
       | [] => None
       | _ :: s' => S <$> Index s' sub
       end.

Definition Contains (s sub : gostring) : bool :=
  match Index s sub with Some _ => true | None => false end.

Definition ContainsAny (s chars : gostring) : bool :=
  existsb (fun c => bool_decide (c ∈ chars)) s.

(** [strings.Count] for a non-empty [sub]: non-overlapping occurrences. *)
Fixpoint Count_aux (fuel : nat) (s sub : gostring) : Z :=
  match fuel with
  | O => 0
  | S fuel =>
      match Index s sub with
      | None => 0
      | Some i => 1 + Count_aux fuel (drop (i + length sub) s) sub
      end
  end.

Definition Count (s sub : gostring) : Z := Count_aux (S (length s)) s sub.

(** [strings.Split] for a non-empty separator. *)
Fixpoint Split_aux (fuel : nat) (s sep : gostring) : list gostring :=
  match fuel with
  | O => [s]
  | S fuel =>
      match Index s sep with
      | None => [s]
      | Some i => take i s :: Split_aux fuel (drop (i + length sep) s) sep
      end
  end.

Definition Split (s sep : gostring) : list gostring := Split_aux (S (length s)) s sep.

(** Byte-wise lexicographic order, Go's [<] on strings. *)
Fixpoint str_ltb (a b : gostring) : bool :=
  match a, b with
  | _, [] => false
  | [], _ :: _ => true
  | c :: a', d :: b' =>
      if byte_val c <? byte_val d then true
      else if byte_val d <? byte_val c then false
      else str_ltb a' b'
  end.

Definition str_leb (a b : gostring) : bool := negb (str_ltb b a).
Definition str_gtb (a b : gostring) : bool := str_ltb b a.
Definition str_geb (a b : gostring) : bool := negb (str_ltb a b).

Definition str_eqb (a b : gostring) : bool := bool_decide (a = b).

(** ASCII letters. *)
Definition ascii_upper (c : ascii) : ascii :=
  let n := byte_val c in
  if (97 <=? n) && (n <=? 122) then ascii_of_nat (Z.to_nat (n - 32)) else c.

Definition ascii_lower (c : ascii) : ascii :=
  let n := byte_val c in
  if (65 <=? n) && (n <=? 90) then ascii_of_nat (Z.to_nat (n + 32)) else c.

Definition quote : ascii := ascii_of_nat 34.

(** ** Outcomes of Go calls *)

Definition error : Type := gostring.

Inductive outcome (A : Type) : Type :=
  | Ok (a : A)
  | Err (e : error)
  | Panic
  | OutOfFuel.
Arguments Ok {A} a.
Arguments Err {A} e.
Arguments Panic {A}.
Arguments OutOfFuel {A}.

Definition obind {A B} (x : outcome A) (f : A -> outcome B) : outcome B :=
  match x with
  | Ok a => f a
  | Err e => Err e
  | Panic => Panic
  | OutOfFuel => OutOfFuel
  end.

Notation "'let*' x ':=' c 'in' k" := (obind c (fun x => k))
  (at level 10, x pattern, c at level 100, k at level 200).

(** [fmt.Errorf("prefix: %w", err)]. *)
Definition wrap_error (prefix : string) (e : error) : error := lit prefix ++ e.

(** ** Time *)

Definition Time : Type := Z.
Definition Duration : Type := Z.

Definition zeroTime : Time := 0.
Definition IsZero (t : Time) : bool := t =? 0.
Definition Before (t u : Time) : bool := t <? u.
Definition After (t u : Time) : bool := u <? t.
Definition TimeAdd (t : Time) (d : Duration) : Time := t + d.
Definition Millisecond : Duration := 1000000.
Definition Second : Duration := 1000000000.
Definition Minute : Duration := 60 * Second.
Definition Hour : Duration := 60 * Minute.

(** ** Values held by [map[string]interface{}] *)

Inductive Value (F : Type) : Type :=
  | VNil
  | VBool (b : bool)
  | VString (s : gostring)
  | VInt (n : Z)
  | VInt64 (n : Z)
  | VFloat (f : F)
  | VTime (t : Time)
  | VList (l : list (Value F))
  | VMap (m : gmap gostring (Value F)).
Arguments VNil {F}.
Arguments VBool {F} b.
Arguments VString {F} s.
Arguments VInt {F} n.
Arguments VInt64 {F} n.
Arguments VFloat {F} f.
Arguments VTime {F} t.
Arguments VList {F} l.
Arguments VMap {F} m.

(** ** The Go runtime and libraries the repository calls into *)

Class GoRuntime : Type := {
  (** [float64], [strconv.ParseFloat(s, 64)] ([None] on error), the
      comparisons of the language and the conversion [int64(v)]. *)
  float64 : Type;
  ParseFloat : gostring -> option float64;
  float_ltb : float64 -> float64 -> bool;
  float_leb : float64 -> float64 -> bool;
  float_gtb : float64 -> float64 -> bool;
  float_geb : float64 -> float64 -> bool;
  float_to_int64 : float64 -> Z;
  (** Package regexp: [Compile], [MatchString], the text of the leftmost
      match ([FindStringSubmatch(text)[0]]) and [String]. *)
  Regexp : Type;
  regexp_Compile : gostring -> outcome Regexp;
  MatchString : Regexp -> gostring -> bool;
  FindString : Regexp -> gostring -> option gostring;
  regexp_String : Regexp -> gostring;
  (** [json.Unmarshal] and [yaml.Unmarshal] into a
      [map[string]interface{}]; [None] on error. *)
  json_Unmarshal : gostring -> option (gmap gostring (Value float64));
  yaml_Unmarshal : gostring -> option (gmap gostring (Value float64));
  (** Package time: [Parse(layout, s)], [Unix(sec, 0)], [t.Format(layout)]
      and, for a clock-only layout, the date of [now] with the clock of the
      parsed value ([time.Date(now.Year(), ..., t.Second(), 0, loc)]). *)
  time_Parse : gostring -> gostring -> option Time;
  time_Unix : Z -> Time;
  time_Format : Time -> gostring -> gostring;
  time_today_at : Time -> Time -> Time;
  (** [fmt.Sprintf("%v", v)], [strconv.Itoa] / [FormatInt(_, 10)]. *)
  Sprintf_v : Value float64 -> gostring;
  Itoa : Z -> gostring;
  (** Unicode-aware functions of package strings. *)
  ToLower : gostring -> gostring;
  ToUpper : gostring -> gostring;
  EqualFold : gostring -> gostring -> bool;
  TrimSpace : gostring -> gostring;
  (** What the sources rely on.  [TrimSpace] removes white space at either
      end and nothing else: what it cuts off holds no graphic ASCII byte,
      and a string that begins and ends with a graphic ASCII byte is
      returned as it is.  [ToUpper] maps an ASCII string byte by byte, and
      [ToLower] does not empty a string. *)
  TrimSpace_sub : forall s : gostring,
    exists a b, s = a ++ TrimSpace s ++ b /\
      Forall (fun c => ~ (33 <= byte_val c <= 126)) a /\
      Forall (fun c => ~ (33 <= byte_val c <= 126)) b;
  TrimSpace_graphic : forall s : gostring,
    (forall c, head s = Some c -> 33 <= byte_val c <= 126) ->
    (forall c, last s = Some c -> 33 <= byte_val c <= 126) ->
    TrimSpace s = s;
  ToUpper_ascii : forall s : gostring,
    Forall (fun c => byte_val c < 128) s -> ToUpper s = map ascii_upper s;
  ToLower_nonempty : forall s : gostring, s <> [] -> ToLower s <> [];
  (** [regexp.Compile] returns: a regexp or an error. *)
  regexp_Compile_returns : forall s : gostring,
    (exists re, regexp_Compile s = Ok re) \/ (exists err, regexp_Compile s = Err err)
}.

(** Layouts of package time used by the sources. *)
Definition RFC3339 : gostring := lit "2006-01-02T15:04:05Z07:00".
Definition RFC3339Nano : gostring := lit "2006-01-02T15:04:05.999999999Z07:00".

(** ** pkg/models *)

Section Models.
Context `{GoRuntime}.

Record Token : Type := mkToken {
  tok_Text : gostring;
  tok_TokenType : gostring;
  tok_Start : Z;
  tok_End : Z
}.

Record LogLine : Type := mkLogLine {
  ID : gostring;
  Source : gostring;
  Raw : gostring;
  Timestamp : Time;
  Parsed : option (gmap gostring (Value float64));
  Level : gostring;
  Tokens : list Token;
  Offset : Z;
  LineNum : Z
}.

(** Assignments to the fields the parser writes. *)
Definition set_Timestamp (line : LogLine) (t : Time) : LogLine :=
  mkLogLine (ID line) (Source line) (Raw line) t (Parsed line)
            (Level line) (Tokens line) (Offset line) (LineNum line).

Definition set_Parsed (line : LogLine) (parsed : gmap gostring (Value float64)) : LogLine :=
  mkLogLine (ID line) (Source line) (Raw line) (Timestamp line) (Some parsed)
            (Level line) (Tokens line) (Offset line) (LineNum line).

Definition set_Level (line : LogLine) (level : gostring) : LogLine :=
  mkLogLine (ID line) (Source line) (Raw line) (Timestamp line) (Parsed line)
            level (Tokens line) (Offset line) (LineNum line).

Record TimeRange : Type := mkTimeRange {
  tr_Start : Time;
  tr_End : Time
}.

Record FilterOptions : Type := mkFilterOptions {
  fo_Query : gostring;
  fo_IsRegex : bool;
  fo_CaseSensitive : bool;
  fo_LogLevels : list gostring;
  fo_Sources : list gostring;
  fo_TimeRange : option TimeRange
}.

Definition emptyFilterOptions : FilterOptions :=
  mkFilterOptions [] false false [] [] None.

Inductive TailerEventType : Type :=
  | EventNewLine
  | EventFileRotated
  | EventFileError
  | EventEOF.

Record TailerEvent : Type := mkTailerEvent {
  ev_Type : TailerEventType;
  ev_Source : gostring;
  ev_Line : option LogLine;
  ev_Error : option error;
  ev_Message : gostring
}.

End Models.

(** ** CircularBuffer (package ui) *)

Section CircularBuffer.
Context `{GoRuntime}.

Record CircularBuffer : Type := mkCircularBuffer {
  cb_data : list (option LogLine);
  cb_head : Z;
  cb_tail : Z;
  cb_size : Z;
  cb_capacity : Z
}.

(** [make([]*models.LogLine, capacity)] panics for a negative length. *)
Definition NewCircularBuffer (capacity : Z) : outcome CircularBuffer :=
  if capacity <? 0 then Panic
  else Ok (mkCircularBuffer (replicate (Z.to_nat capacity) None) 0 0 0 capacity).

(** [a % b]: truncated remainder, a run-time panic when [b] is 0. *)
Definition go_rem (a b : Z) : outcome Z :=
  if b =? 0 then Panic else Ok (Z.rem a b).

(** [s[i] = x] and [s[i]]: a run-time panic when [i] is out of range. *)
Definition slice_set {A} (s : list A) (i : Z) (x : A) : outcome (list A) :=
  if (i <? 0) || (Z.of_nat (length s) <=? i) then Panic
  else Ok (<[Z.to_nat i := x]> s).

Definition slice_get {A} (s : list A) (i : Z) : outcome A :=
  if i <? 0 then Panic
  else match s !! Z.to_nat i with
       | Some x => Ok x
       | None => Panic
       end.

Definition Add (cb : CircularBuffer) (line : LogLine) : outcome CircularBuffer :=
  let* data := slice_set (cb_data cb) (cb_tail cb) (Some line) in
  let* tail := go_rem (cb_tail cb + 1) (cb_capacity cb) in
  if cb_size cb <? cb_capacity cb then
    Ok (mkCircularBuffer data (cb_head cb) tail (cb_size cb + 1) (cb_capacity cb))
  else
    let* head := go_rem (cb_head cb + 1) (cb_capacity cb) in
    Ok (mkCircularBuffer data head tail (cb_size cb) (cb_capacity cb)).

Definition Get (cb : CircularBuffer) (index : Z) : outcome (option LogLine) :=
  if (index <? 0) || (cb_size cb <=? index) then Ok None
  else
    let* actualIndex := go_rem (cb_head cb + index) (cb_capacity cb) in
    slice_get (cb_data cb) actualIndex.

Definition Size (cb : CircularBuffer) : Z := cb_size cb.

Definition Clear (cb : CircularBuffer) : CircularBuffer :=
  mkCircularBuffer (replicate (length (cb_data cb)) None) 0 0 0 (cb_capacity cb).

(** A run of [Add]s, oldest first. *)
Fixpoint AddAll (cb : CircularBuffer) (lines : list LogLine) : outcome CircularBuffer :=
  match lines with
  | [] => Ok cb
  | l :: rest => let* cb' := Add cb l in AddAll cb' rest
  end.

(** What a reader sees: [Get 0], ..., [Get (size-1)]. *)
Definition physical (cb : CircularBuffer) (i : nat) : nat :=
  Z.to_nat ((cb_head cb + Z.of_nat i) `rem` cb_capacity cb).

Definition contents (cb : CircularBuffer) : list (option LogLine) :=
  map (fun i => mjoin (cb_data cb !! physical cb i)) (seq 0 (Z.to_nat (cb_size cb))).

(** The representation invariant of a buffer built by [NewCircularBuffer]
    with a positive capacity and then only used through its methods. *)
Record cb_wf (cb : CircularBuffer) : Prop := {
  wf_cap : 0 < cb_capacity cb;
  wf_len : Z.of_nat (length (cb_data cb)) = cb_capacity cb;
  wf_head : 0 <= cb_head cb < cb_capacity cb;
  wf_size : 0 <= cb_size cb <= cb_capacity cb;
  wf_tail : cb_tail cb = (cb_head cb + cb_size cb) `rem` cb_capacity cb
}.

End CircularBuffer.

(** ** LogParser (pkg/parser/parser.go) *)

Section Parser.
Context `{GoRuntime}.

Record LogParser : Type := mkLogParser {
  timestampPatterns : list Regexp;
  levelPatterns : list Regexp;
  levelMapping : gmap gostring gostring
}.

(** Patterns that do not compile are skipped. *)
Definition compilePatterns (patterns : list gostring) : list Regexp :=
  flat_map (fun pattern =>
              match regexp_Compile pattern with
              | Ok re => [re]
              | _ => []
              end) patterns.

Definition compileTimestampPatterns : list Regexp :=
  compilePatterns
    [ lit "\d{4}-\d{2}-\d{2}[T ]\d{2}:\d{2}:\d{2}(?:\.\d+)?(?:Z|[+-]\d{2}:?\d{2})?";
      lit "\d{4}/\d{2}/\d{2} \d{2}:\d{2}:\d{2}";
      lit "\d{2}/\w{3}/\d{4}:\d{2}:\d{2}:\d{2} [+-]\d{4}";
      lit "\w{3} \d{1,2} \d{2}:\d{2}:\d{2}";
      lit "\w{3} \s?\d{1,2} \d{2}:\d{2}:\d{2} \d{4}" ].

Definition levelAlternatives : gostring :=
  lit "(TRACE|DEBUG|INFO|WARN|WARNING|ERROR|FATAL|PANIC)".

Definition compileLevelPatterns : list Regexp :=
  compilePatterns
    (map (fun pattern => lit "(?i)" ++ pattern)
       [ lit "\b" ++ levelAlternatives ++ lit "\b";
         lit "\[" ++ levelAlternatives ++ lit "\]";
         [quote] ++ lit "(level|severity)" ++ [quote] ++ lit "\s*:\s*" ++
           [quote] ++ levelAlternatives ++ [quote] ]).

Definition LevelDebug : gostring := lit "DEBUG".
Definition LevelInfo : gostring := lit "INFO".
Definition LevelWarn : gostring := lit "WARN".
Definition LevelError : gostring := lit "ERROR".
Definition LevelFatal : gostring := lit "FATAL".
Definition LevelTrace : gostring := lit "TRACE".

Definition createLevelMapping : gmap gostring gostring :=
  list_to_map
    [ (lit "TRACE", LevelTrace); (lit "DEBUG", LevelDebug);
      (lit "INFO", LevelInfo); (lit "WARN", LevelWarn);
      (lit "WARNING", LevelWarn); (lit "ERROR", LevelError);
      (lit "FATAL", LevelFatal); (lit "PANIC", LevelFatal) ].

Definition NewLogParser : LogParser :=
  mkLogParser compileTimestampPatterns compileLevelPatterns createLevelMapping.

(** The first layout that parses wins; when none does the function still
    returns a nil error, with the zero time. *)
Fixpoint parseTimestampString_loop (formats : list gostring) (s : gostring) : outcome Time :=
  match formats with
  | [] => Ok zeroTime
  | format :: rest =>
      match time_Parse format s with
      | Some t => Ok t
      | None => parseTimestampString_loop rest s
      end
  end.

Definition parseTimestampString (s : gostring) : outcome Time :=
  parseTimestampString_loop
    [ RFC3339; RFC3339Nano;
      lit "2006-01-02T15:04:05Z07:00";
      lit "2006-01-02T15:04:05.000Z07:00";
      lit "2006-01-02 15:04:05";
      lit "2006-01-02 15:04:05.000";
      lit "Jan 02 15:04:05";
      lit "Jan  2 15:04:05";
      lit "2006/01/02 15:04:05";
      lit "02/Jan/2006:15:04:05 -0700";
      lit "Mon Jan _2 15:04:05 2006" ] s.

Definition parseTimestampValue (val : Value float64) : Time * bool :=
  match val with
  | VString v =>
      match parseTimestampString v with
      | Ok timestamp => (timestamp, true)
      | _ => (zeroTime, false)
      end
  | VInt64 v => (time_Unix v, true)
  | VFloat v => (time_Unix (float_to_int64 v), true)
  | VTime v => (v, true)
  | _ => (zeroTime, false)
  end.

Fixpoint extractTimestampFromParsed_loop
    (parsed : gmap gostring (Value float64)) (fields : list gostring) : Time * bool :=
  match fields with
  | [] => (zeroTime, false)
  | field :: rest =>
      match parsed !! field with
      | Some val =>
          let '(timestamp, ok) := parseTimestampValue val in
          if ok then (timestamp, true)
          else extractTimestampFromParsed_loop parsed rest
      | None => extractTimestampFromParsed_loop parsed rest
      end
  end.

Definition extractTimestampFromParsed (p : LogParser)
    (parsed : gmap gostring (Value float64)) : Time * bool :=
  extractTimestampFromParsed_loop parsed
    [ lit "timestamp"; lit "time"; lit "ts"; lit "@timestamp";
      lit "datetime"; lit "created_at"; lit "logged_at" ].

Fixpoint extractLevelFromParsed_loop (p : LogParser)
    (parsed : gmap gostring (Value float64)) (fields : list gostring) : gostring * bool :=
  match fields with
  | [] => ([], false)
  | field :: rest =>
      match parsed !! field with
      | Some (VString str) =>
          match levelMapping p !! ToUpper str with
          | Some level => (level, true)
          | None => extractLevelFromParsed_loop p parsed rest
          end
      | _ => extractLevelFromParsed_loop p parsed rest
      end
  end.

Definition extractLevelFromParsed (p : LogParser)
    (parsed : gmap gostring (Value float64)) : gostring * bool :=
  extractLevelFromParsed_loop p parsed
    [ lit "level"; lit "severity"; lit "priority"; lit "loglevel"; lit "log_level" ].

Fixpoint extractTimestamp_loop (patterns : list Regexp) (text : gostring) : Time :=
  match patterns with
  | [] => zeroTime
  | pattern :: rest =>
      match FindString pattern text with
      | Some m0 =>
          match parseTimestampString m0 with
          | Ok timestamp => timestamp
          | _ => extractTimestamp_loop rest text
          end
      | None => extractTimestamp_loop rest text
      end
  end.

Definition extractTimestamp (p : LogParser) (text : gostring) : Time :=
  extractTimestamp_loop (timestampPatterns p) text.

Fixpoint extractLevel_loop (p : LogParser) (patterns : list Regexp) (text : gostring) : gostring :=
  match patterns with
  | [] => []
  | pattern :: rest =>
      match FindString pattern text with
      | Some m0 =>
          match levelMapping p !! ToUpper m0 with
          | Some level => level
          | None => extractLevel_loop p rest text
          end
      | None => extractLevel_loop p rest text
      end
  end.

Definition extractLevel (p : LogParser) (text : gostring) : gostring :=
  extractLevel_loop p (levelPatterns p) text.

Definition setParsedFields (p : LogParser) (line : LogLine)
    (parsed : gmap gostring (Value float64)) : LogLine :=
  let line := set_Parsed line parsed in
  let line :=
    let '(timestamp, ok) := extractTimestampFromParsed p parsed in
    if ok then set_Timestamp line timestamp else line in
  let '(level, ok) := extractLevelFromParsed p parsed in
  if ok then set_Level line level else line.

Definition tryParseJSON (p : LogParser) (line : LogLine) : bool * LogLine :=
  let trimmed := TrimSpace (Raw line) in
  if negb (HasPrefix trimmed (lit "{")) || negb (HasSuffix trimmed (lit "}")) then
    (false, line)
  else
    match json_Unmarshal trimmed with
    | None => (false, line)
    | Some parsed => (true, setParsedFields p line parsed)
    end.

Definition tryParseYAML (p : LogParser) (line : LogLine) : bool * LogLine :=
  let trimmed := TrimSpace (Raw line) in
  if negb (Contains trimmed (lit ":")) then (false, line)
  else if Contains trimmed (lit " INFO:") || Contains trimmed (lit " DEBUG:") ||
          Contains trimmed (lit " WARN:") || Contains trimmed (lit " ERROR:") ||
          Contains trimmed (lit " FATAL:") then (false, line)
  else
    match yaml_Unmarshal trimmed with
    | None => (false, line)
    | Some parsed =>
        if Z.of_nat (size parsed) <? 2 then (false, line)
        else (true, setParsedFields p line parsed)
    end.

Definition parseUnstructured (p : LogParser) (line : LogLine) : LogLine :=
  let line :=
    if IsZero (Timestamp line) then
      let timestamp := extractTimestamp p (Raw line) in
      if negb (IsZero timestamp) then set_Timestamp line timestamp else line
    else line in
  if str_eqb (Level line) [] then
    let level := extractLevel p (Raw line) in
    if negb (str_eqb level []) then set_Level line level else line
  else line.

(** [ParseLogLine] mutates the line it is given; here it returns the
    line as it is after the call (the nil check is on the pointer, which
    callers have already dereferenced). *)
Definition ParseLogLine (p : LogParser) (line : LogLine) : LogLine :=
  if str_eqb (Raw line) [] then line
  else
    let '(ok, line1) := tryParseJSON p line in
    if ok then line1
    else
      let '(ok, line2) := tryParseYAML p line1 in
      if ok then line2
      else parseUnstructured p line2.

(** [GetParsedField]: [VNil] stands for the nil interface value. *)
Fixpoint GetParsedField_loop (current : gmap gostring (Value float64))
    (parts : list gostring) : Value float64 :=
  match parts with
  | [] => VNil
  | part :: rest =>
      match current !! part with
      | Some val =>
          match rest with
          | [] => val
          | _ :: _ =>
              match val with
              | VMap nested => GetParsedField_loop nested rest
              | _ => VNil
              end
          end
      | None => VNil
      end
  end.

Definition GetParsedField (p : LogParser) (line : LogLine) (fieldPath : gostring) : Value float64 :=
  match Parsed line with
  | None => VNil
  | Some parsed => GetParsedField_loop parsed (Split fieldPath (lit "."))
  end.

Definition is_nil_value (v : Value float64) : bool :=
  match v with VNil => true | _ => false end.

End Parser.

(** ** FilterEngine: data (filter.go, advanced.go) *)

Section FilterData.
Context `{GoRuntime}.

Inductive BooleanOperator : Type := OpAND | OpOR | OpNOT.

Inductive QueryOperator : Type :=
  | OpEquals
  | OpNotEquals
  | OpContains
  | OpRegex
  | OpGreater
  | OpLess
  | OpGreaterEqual
  | OpLessEqual.

Record FieldQuery : Type := mkFieldQuery {
  fq_Field : gostring;
  fq_Operator : QueryOperator;
  fq_Value : gostring;
  fq_Pattern : option Regexp
}.

Record CompiledQuery : Type := mkCompiledQuery {
  cq_IsRegex : bool;
  cq_CaseSensitive : bool;
  cq_Pattern : option Regexp;
  cq_KeywordQuery : gostring;
  cq_FieldQueries : list FieldQuery;
  cq_BooleanOp : BooleanOperator;
  cq_TimeRange : option TimeRange;
  cq_LogLevels : gmap gostring bool;
  cq_Sources : gmap gostring bool
}.

Record FieldExpression : Type := mkFieldExpression {
  fe_Field : gostring;
  fe_Operator : gostring;
  fe_Value : gostring;
  fe_Pattern : option Regexp
}.

Record TextExpression : Type := mkTextExpression {
  te_Text : gostring;
  te_CaseSensitive : bool;
  te_IsRegex : bool;
  te_Pattern : option Regexp
}.

Record TimeRangeExpression : Type := mkTimeRangeExpression {
  tre_Start : Time;
  tre_End : Time
}.

(** The implementations of the interface [QueryExpression]. *)
Inductive QueryExpression : Type :=
  | AndExpression (Left Right : QueryExpression)
  | OrExpression (Left Right : QueryExpression)
  | NotExpression (Expression : QueryExpression)
  | FieldExpr (e : FieldExpression)
  | TextExpr (e : TextExpression)
  | TimeRangeExpr (e : TimeRangeExpression).

Record FilterEngine : Type := mkFilterEngine {
  fe_parser : LogParser;
  compiledQuery : option CompiledQuery;
  advancedExpression : option QueryExpression;
  lastOptions : FilterOptions
}.

Definition NewFilterEngine (p : LogParser) : FilterEngine :=
  mkFilterEngine p None None emptyFilterOptions.

End FilterData.

(** ** FilterEngine: simple filters (filter.go) *)

Section SimpleFilter.
Context `{GoRuntime}.

(** [s[a:b]] with Go's bounds check. *)
Definition go_slice (s : gostring) (a b : Z) : outcome gostring :=
  if (a <? 0) || (b <? a) || (Z.of_nat (length s) <? b) then Panic
  else Ok (slice s (Z.to_nat a) (Z.to_nat b)).

Definition str_in (s : gostring) (l : list string) : bool :=
  existsb (fun x => str_eqb s (lit x)) l.

(** The loop of [splitQuery], one byte at a time (the characters it
    switches on are ASCII).  [parts] is kept in order. *)
Fixpoint splitQuery_loop (queryStr : gostring) (parts : list gostring)
    (current : gostring) (inParens : Z) (inQuotes : bool)
    : list gostring * gostring :=
  match queryStr with
  | [] => (parts, current)
  | char :: rest =>
      if decide (char = quote) then
        splitQuery_loop rest parts (current ++ [char]) inParens (negb inQuotes)
      else if decide (char = "("%char) then
        splitQuery_loop rest parts (current ++ [char])
          (if negb inQuotes then inParens + 1 else inParens) inQuotes
      else if decide (char = ")"%char) then
        splitQuery_loop rest parts (current ++ [char])
          (if negb inQuotes then inParens - 1 else inParens) inQuotes
      else if decide (char = " "%char) then
        if negb inQuotes && (inParens =? 0) then
          if 0 <? Z.of_nat (length current) then
            splitQuery_loop rest (parts ++ [TrimSpace current]) [] inParens inQuotes
          else
            splitQuery_loop rest parts current inParens inQuotes
        else
          splitQuery_loop rest parts (current ++ [char]) inParens inQuotes
      else
        splitQuery_loop rest parts (current ++ [char]) inParens inQuotes
  end.

Definition splitQuery (queryStr : gostring) : list gostring :=
  let '(parts, current) := splitQuery_loop queryStr [] [] 0 false in
  if 0 <? Z.of_nat (length current) then parts ++ [TrimSpace current] else parts.

Definition compileWithFlags (caseSensitive : bool) (pattern : gostring) : outcome Regexp :=
  let flags := if negb caseSensitive then lit "(?i)" else [] in
  regexp_Compile (flags ++ pattern).

Definition parseFieldQuery (queryPart : gostring) (query : CompiledQuery) : outcome FieldQuery :=
  match Index queryPart (lit ":") with
  | None => Err (lit "invalid field query: " ++ queryPart)
  | Some colonIndex =>
      let field := TrimSpace (take colonIndex queryPart) in
      let value := TrimSpace (drop (colonIndex + 1) queryPart) in
      let fieldQuery :=
        if HasPrefix value (lit "!") then mkFieldQuery field OpNotEquals (drop 1 value) None
        else if HasPrefix value (lit "~") then mkFieldQuery field OpRegex (drop 1 value) None
        else if HasPrefix value (lit ">") then mkFieldQuery field OpGreater (drop 1 value) None
        else if HasPrefix value (lit "<") then mkFieldQuery field OpLess (drop 1 value) None
        else if Contains value (lit "*") || Contains value (lit "?") then
          mkFieldQuery field OpContains value None
        else mkFieldQuery field OpEquals value None in
      if (match fq_Operator fieldQuery with OpRegex => true | _ => false end) ||
         (cq_IsRegex query && Contains value (lit "|")) then
        match compileWithFlags (cq_CaseSensitive query) (fq_Value fieldQuery) with
        | Ok pattern =>
            Ok (mkFieldQuery (fq_Field fieldQuery) (fq_Operator fieldQuery)
                             (fq_Value fieldQuery) (Some pattern))
        | Err err => Err (wrap_error "invalid regex in field query: " err)
        | Panic => Panic
        | OutOfFuel => OutOfFuel
        end
      else Ok fieldQuery
  end.

Definition setKeywordQuery (query : CompiledQuery) (keyword : gostring) : CompiledQuery :=
  mkCompiledQuery (cq_IsRegex query) (cq_CaseSensitive query) (cq_Pattern query)
    keyword (cq_FieldQueries query) (cq_BooleanOp query) (cq_TimeRange query)
    (cq_LogLevels query) (cq_Sources query).

Definition setPattern (query : CompiledQuery) (pattern : Regexp) : CompiledQuery :=
  mkCompiledQuery (cq_IsRegex query) (cq_CaseSensitive query) (Some pattern)
    (cq_KeywordQuery query) (cq_FieldQueries query) (cq_BooleanOp query)
    (cq_TimeRange query) (cq_LogLevels query) (cq_Sources query).

Definition appendFieldQuery (query : CompiledQuery) (fq : FieldQuery) : CompiledQuery :=
  mkCompiledQuery (cq_IsRegex query) (cq_CaseSensitive query) (cq_Pattern query)
    (cq_KeywordQuery query) (cq_FieldQueries query ++ [fq]) (cq_BooleanOp query)
    (cq_TimeRange query) (cq_LogLevels query) (cq_Sources query).

Definition keywordOf (query : CompiledQuery) (text : gostring) : gostring :=
  if negb (cq_CaseSensitive query) then ToLower text else text.

Fixpoint parseFieldQueries_loop (parts : list gostring) (query : CompiledQuery)
    : outcome CompiledQuery :=
  match parts with
  | [] => Ok query
  | part :: rest =>
      if negb (Contains part (lit ":")) then
        if str_eqb (cq_KeywordQuery query) [] then
          parseFieldQueries_loop rest (setKeywordQuery query (keywordOf query part))
        else parseFieldQueries_loop rest query
      else
        let* fieldQuery := parseFieldQuery part query in
        parseFieldQueries_loop rest (appendFieldQuery query fieldQuery)
  end.

Definition parseFieldQueries (queryStr : gostring) (query : CompiledQuery) : outcome CompiledQuery :=
  parseFieldQueries_loop (splitQuery queryStr) query.

Definition parseMainQuery (queryStr : gostring) (query : CompiledQuery) : outcome CompiledQuery :=
  if Contains queryStr (lit ":") then parseFieldQueries queryStr query
  else if cq_IsRegex query then
    match compileWithFlags (cq_CaseSensitive query) queryStr with
    | Ok pattern => Ok (setPattern query pattern)
    | Err err => Err (wrap_error "invalid regex pattern: " err)
    | Panic => Panic
    | OutOfFuel => OutOfFuel
    end
  else Ok (setKeywordQuery query (keywordOf query queryStr)).

Definition compileQuery (options : FilterOptions) : outcome CompiledQuery :=
  let levels :=
    foldl (fun m level => <[ToUpper level := true]> m) ∅ (fo_LogLevels options) in
  let sources :=
    foldl (fun m source => <[source := true]> m) ∅ (fo_Sources options) in
  let query :=
    mkCompiledQuery (fo_IsRegex options) (fo_CaseSensitive options) None []
      [] OpAND (fo_TimeRange options) levels sources in
  if negb (str_eqb (fo_Query options) []) then parseMainQuery (fo_Query options) query
  else Ok query.

(** [SetFilter]: the engine after the call and the error returned, if any. *)
Definition SetFilter (f : FilterEngine) (options : FilterOptions)
    : outcome (FilterEngine * option error) :=
  let f1 := mkFilterEngine (fe_parser f) (compiledQuery f) (advancedExpression f) options in
  match compileQuery options with
  | Ok query =>
      Ok (mkFilterEngine (fe_parser f1) (Some query) (advancedExpression f1) (lastOptions f1),
          None)
  | Err err => Ok (f1, Some (wrap_error "failed to compile query: " err))
  | Panic => Panic
  | OutOfFuel => OutOfFuel
  end.

Definition matchStringComparison (fieldValue : gostring) (fieldQuery : FieldQuery) : bool :=
  match fq_Operator fieldQuery with
  | OpGreater => str_gtb fieldValue (fq_Value fieldQuery)
  | OpLess => str_ltb fieldValue (fq_Value fieldQuery)
  | OpGreaterEqual => str_geb fieldValue (fq_Value fieldQuery)
  | OpLessEqual => str_leb fieldValue (fq_Value fieldQuery)
  | _ => false
  end.

Definition matchNumericComparison (fieldValue : gostring) (fieldQuery : FieldQuery) : bool :=
  match ParseFloat fieldValue, ParseFloat (fq_Value fieldQuery) with
  | Some fieldNum, Some queryNum =>
      match fq_Operator fieldQuery with
      | OpGreater => float_gtb fieldNum queryNum
      | OpLess => float_ltb fieldNum queryNum
      | OpGreaterEqual => float_geb fieldNum queryNum
      | OpLessEqual => float_leb fieldNum queryNum
      | _ => false
      end
  | _, _ => matchStringComparison fieldValue fieldQuery
  end.

Definition matchFieldValue (fieldValue : gostring) (fieldQuery : FieldQuery) : bool :=
  match fq_Operator fieldQuery with
  | OpEquals => EqualFold fieldValue (fq_Value fieldQuery)
  | OpNotEquals => negb (EqualFold fieldValue (fq_Value fieldQuery))
  | OpContains => Contains (ToLower fieldValue) (ToLower (fq_Value fieldQuery))
  | OpRegex =>
      match fq_Pattern fieldQuery with
      | Some pattern => MatchString pattern fieldValue
      | None => false
      end
  | OpGreater | OpLess | OpGreaterEqual | OpLessEqual =>
      matchNumericComparison fieldValue fieldQuery
  end.

Definition matchFieldQuery (f : FilterEngine) (line : LogLine) (fieldQuery : FieldQuery) : bool :=
  let name := ToLower (fq_Field fieldQuery) in
  let fieldValue :=
    if str_in name ["level"; "severity"]%string then Level line
    else if str_in name ["source"; "file"]%string then Source line
    else if str_in name ["message"; "msg"; "text"]%string then Raw line
    else if str_in name ["timestamp"; "time"; "ts"]%string then
      time_Format (Timestamp line) RFC3339
    else
      match Parsed line with
      | Some _ =>
          let val := GetParsedField (fe_parser f) line (fq_Field fieldQuery) in
          if negb (is_nil_value val) then Sprintf_v val else []
      | None => []
      end in
  matchFieldValue fieldValue fieldQuery.

Definition matchFieldQueries (f : FilterEngine) (line : LogLine) (fieldQueries : list FieldQuery) : bool :=
  forallb (matchFieldQuery f line) fieldQueries.

Definition map_nonempty (m : gmap gostring bool) : bool := 0 <? Z.of_nat (size m).

Definition map_flag (m : gmap gostring bool) (k : gostring) : bool := default false (m !! k).

Definition matchLine (f : FilterEngine) (line : LogLine) (query : CompiledQuery) : bool :=
  if (match cq_TimeRange query with
      | Some tr =>
          negb (IsZero (Timestamp line)) &&
          (Before (Timestamp line) (tr_Start tr) || After (Timestamp line) (tr_End tr))
      | None => false
      end) then false
  else if map_nonempty (cq_LogLevels query) &&
          (str_eqb (Level line) [] ||
           negb (map_flag (cq_LogLevels query) (ToUpper (Level line)))) then false
  else if map_nonempty (cq_Sources query) &&
          negb (map_flag (cq_Sources query) (Source line)) then false
  else
    let mainQueryMatch :=
      if negb (str_eqb (cq_KeywordQuery query) []) then
        let searchText :=
          if negb (cq_CaseSensitive query) then ToLower (Raw line) else Raw line in
        Contains searchText (cq_KeywordQuery query)
      else
        match cq_Pattern query with
        | Some pattern => MatchString pattern (Raw line)
        | None => true
        end in
    let fieldQueriesMatch :=
      if 0 <? Z.of_nat (length (cq_FieldQueries query)) then
        matchFieldQueries f line (cq_FieldQueries query)
      else true in
    mainQueryMatch && fieldQueriesMatch.

Definition EngineClear (f : FilterEngine) : FilterEngine :=
  mkFilterEngine (fe_parser f) None None emptyFilterOptions.

Definition HasFilter (f : FilterEngine) : bool :=
  match advancedExpression f with
  | Some _ => true
  | None =>
      match compiledQuery f with
      | Some q =>
          negb (str_eqb (cq_KeywordQuery q) []) ||
          (match cq_Pattern q with Some _ => true | None => false end) ||
          (0 <? Z.of_nat (length (cq_FieldQueries q))) ||
          map_nonempty (cq_LogLevels q) ||
          map_nonempty (cq_Sources q) ||
          (match cq_TimeRange q with Some _ => true | None => false end)
      | None => false
      end
  end.

Fixpoint ValidateQuery_loop (parts : list gostring) : option error :=
  match parts with
  | [] => None
  | part :: rest =>
      match Index part (lit ":") with
      | Some colonIndex =>
          if (Z.of_nat colonIndex =? 0) ||
             (Z.of_nat colonIndex =? Z.of_nat (length part) - 1) then
            Some (lit "invalid field query format: " ++ part)
          else ValidateQuery_loop rest
      | None => ValidateQuery_loop rest
      end
  end.

Definition ValidateQuery (f : FilterEngine) (queryStr : gostring) (isRegex : bool)
    : outcome (option error) :=
  if str_eqb queryStr [] then Ok None
  else
    let* regexErr :=
      (if isRegex then
         match regexp_Compile queryStr with
         | Ok _ => Ok None
         | Err err => Ok (Some (wrap_error "invalid regex: " err))
         | Panic => Panic
         | OutOfFuel => OutOfFuel
         end
       else Ok None) in
    match regexErr with
    | Some err => Ok (Some err)
    | None =>
        if Contains queryStr (lit ":") then Ok (ValidateQuery_loop (splitQuery queryStr))
        else Ok None
    end.

End SimpleFilter.

(** ** FilterEngine: expression trees (advanced.go) *)

Section Advanced.
Context `{GoRuntime}.

(** *** Evaluation *)

Definition extractFieldValue (f : FilterEngine) (line : LogLine) (field : gostring) : gostring :=
  let name := ToLower field in
  if str_in name ["level"; "severity"; "lvl"]%string then Level line
  else if str_in name ["source"; "file"; "src"]%string then Source line
  else if str_in name ["message"; "msg"; "text"; "raw"]%string then Raw line
  else if str_in name ["timestamp"; "time"; "ts"]%string then
    if negb (IsZero (Timestamp line)) then time_Format (Timestamp line) RFC3339 else []
  else if str_in name ["id"]%string then ID line
  else if str_in name ["line"; "linenum"]%string then Itoa (LineNum line)
  else if str_in name ["offset"]%string then Itoa (Offset line)
  else
    match Parsed line with
    | Some _ =>
        let val := GetParsedField (fe_parser f) line field in
        if negb (is_nil_value val) then Sprintf_v val else []
    | None => []
    end.

Definition matchComparison (fieldValue queryValue operator : gostring) : bool :=
  let numeric : option bool :=
    match ParseFloat fieldValue, ParseFloat queryValue with
    | Some fieldNum, Some queryNum =>
        if str_eqb operator (lit ":>") then Some (float_gtb fieldNum queryNum)
        else if str_eqb operator (lit ":<") then Some (float_ltb fieldNum queryNum)
        else if str_eqb operator (lit ":>=") then Some (float_geb fieldNum queryNum)
        else if str_eqb operator (lit ":<=") then Some (float_leb fieldNum queryNum)
        else None
    | _, _ => None
    end in
  match numeric with
  | Some b => b
  | None =>
      if str_eqb operator (lit ":>") then str_gtb fieldValue queryValue
      else if str_eqb operator (lit ":<") then str_ltb fieldValue queryValue
      else if str_eqb operator (lit ":>=") then str_geb fieldValue queryValue
      else if str_eqb operator (lit ":<=") then str_leb fieldValue queryValue
      else false
  end.

Definition matchFieldExpression (fieldValue : gostring) (expr : FieldExpression) : bool :=
  let operator := fe_Operator expr in
  if str_eqb operator (lit ":") then EqualFold fieldValue (fe_Value expr)
  else if str_eqb operator (lit ":!=") then negb (EqualFold fieldValue (fe_Value expr))
  else if str_eqb operator (lit ":~") then
    match fe_Pattern expr with
    | Some pattern => MatchString pattern fieldValue
    | None => false
    end
  else if str_in operator [":>"; ":<"; ":>="; ":<="]%string then
    matchComparison fieldValue (fe_Value expr) operator
  else EqualFold fieldValue (fe_Value expr).

Definition FieldExpression_Evaluate (e : FieldExpression) (line : LogLine) (f : FilterEngine) : bool :=
  matchFieldExpression (extractFieldValue f line (fe_Field e)) e.

Definition TextExpression_Evaluate (e : TextExpression) (line : LogLine) : bool :=
  let text := Raw line in
  match te_IsRegex e, te_Pattern e with
  | true, Some pattern => MatchString pattern text
  | _, _ =>
      if negb (te_CaseSensitive e) then Contains (ToLower text) (ToLower (te_Text e))
      else Contains text (te_Text e)
  end.

Definition TimeRangeExpression_Evaluate (e : TimeRangeExpression) (line : LogLine) : bool :=
  if IsZero (Timestamp line) then false
  else negb (Before (Timestamp line) (tre_Start e)) && negb (After (Timestamp line) (tre_End e)).

Fixpoint Evaluate (e : QueryExpression) (line : LogLine) (f : FilterEngine) : bool :=
  match e with
  | AndExpression l r => Evaluate l line f && Evaluate r line f
  | OrExpression l r => Evaluate l line f || Evaluate r line f
  | NotExpression x => negb (Evaluate x line f)
  | FieldExpr fe => FieldExpression_Evaluate fe line f
  | TextExpr te => TextExpression_Evaluate te line
  | TimeRangeExpr tr => TimeRangeExpression_Evaluate tr line
  end.

(** *** Printing: the [String] methods *)

Fixpoint QueryString (e : QueryExpression) : gostring :=
  match e with
  | AndExpression l r => lit "(" ++ QueryString l ++ lit " AND " ++ QueryString r ++ lit ")"
  | OrExpression l r => lit "(" ++ QueryString l ++ lit " OR " ++ QueryString r ++ lit ")"
  | NotExpression x => lit "NOT " ++ QueryString x
  | FieldExpr fe => fe_Field fe ++ fe_Operator fe ++ fe_Value fe
  | TextExpr te =>
      if te_IsRegex te then lit "~" ++ [quote] ++ te_Text te ++ [quote]
      else [quote] ++ te_Text te ++ [quote]
  | TimeRangeExpr tr =>
      lit "time:[" ++ time_Format (tre_Start tr) (lit "15:04:05") ++ lit " TO " ++
      time_Format (tre_End tr) (lit "15:04:05") ++ lit "]"
  end.

(** *** The recursive descent parser *)

Record AdvancedQueryParser : Type := mkAQP {
  input : gostring;
  pos : nat
}.

Definition setPos (p : AdvancedQueryParser) (n : nat) : AdvancedQueryParser :=
  mkAQP (input p) n.

Definition isWhitespace (ch : ascii) : bool :=
  bool_decide (ch = " "%char) || bool_decide (ch = ascii_of_nat 9) ||
  bool_decide (ch = ascii_of_nat 10) || bool_decide (ch = ascii_of_nat 13).

Definition isAlphaNumeric (ch : ascii) : bool :=
  let n := byte_val ch in
  ((97 <=? n) && (n <=? 122)) || ((65 <=? n) && (n <=? 90)) ||
  ((48 <=? n) && (n <=? 57)) || bool_decide (ch = "_"%char).

Definition isBlank (ch : ascii) : bool :=
  bool_decide (ch = " "%char) || bool_decide (ch = ascii_of_nat 9).

(** Number of leading bytes of [s] that satisfy [P]: the loops
    [for p.pos < len(p.input) && P(p.input[p.pos]) { p.pos++ }]. *)
Fixpoint span (P : ascii -> bool) (s : gostring) : nat :=
  match s with
  | c :: s' => if P c then S (span P s') else O
  | [] => O
  end.

Definition skipWhitespace (p : AdvancedQueryParser) : AdvancedQueryParser :=
  setPos p (pos p + span isBlank (drop (pos p) (input p))).

Definition matchKeyword (p : AdvancedQueryParser) (keyword : gostring)
    : bool * AdvancedQueryParser :=
  let p := skipWhitespace p in
  if (length (input p) <? pos p + length keyword)%nat then (false, p)
  else if str_eqb (ToUpper (slice (input p) (pos p) (pos p + length keyword))) keyword then
    let end_ := (pos p + length keyword)%nat in
    match input p !! end_ with
    | Some ch =>
        if isAlphaNumeric ch then (false, p)
        else (true, setPos p (pos p + length keyword))
    | None => (true, setPos p (pos p + length keyword))
    end
  else (false, p).

(** The bracket scan of a [time:[...]] token: number of bytes consumed. *)
Fixpoint scanTimeRange (s : gostring) (depth : Z) : nat :=
  match s with
  | [] => O
  | c :: s' =>
      if decide (c = "["%char) then S (scanTimeRange s' (depth + 1))
      else if decide (c = "]"%char) then
        if depth - 1 =? 0 then 1%nat else S (scanTimeRange s' (depth - 1))
      else S (scanTimeRange s' depth)
  end.

Definition parseToken (p : AdvancedQueryParser) : gostring * AdvancedQueryParser :=
  let p := skipWhitespace p in
  let start := pos p in
  let rest := drop (pos p) (input p) in
  match rest with
  | [] => ([], p)
  | c :: rest' =>
      if decide (c = quote) then
        let n := span (fun ch => negb (bool_decide (ch = quote))) rest' in
        let pos1 := (start + 1 + n)%nat in
        let pos2 := if (pos1 <? length (input p))%nat then S pos1 else pos1 in
        (slice (input p) start pos2, setPos p pos2)
      else if HasPrefix rest (lit "time:[") then
        let pos1 := (start + scanTimeRange rest 0)%nat in
        (slice (input p) start pos1, setPos p pos1)
      else
        let n := span (fun ch => negb (isWhitespace ch) &&
                                 negb (bool_decide (ch = "("%char)) &&
                                 negb (bool_decide (ch = ")"%char))) rest in
        (slice (input p) start (start + n), setPos p (start + n))
  end.

(** The position is restored before returning. *)
Definition lookaheadForExpression (p : AdvancedQueryParser) : bool :=
  let '(token, _) := parseToken p in
  negb (str_eqb token []) &&
  (Contains token (lit ":") || HasPrefix token (lit "time:[") ||
   HasPrefix token (lit "~") || HasPrefix token [quote]).

Definition operators : list gostring :=
  [ lit ":!="; lit ":~"; lit ":>"; lit ":<"; lit ":>="; lit ":<="; lit ":" ].

(** The first operator of the list that occurs in the token, with the
    text before and after its first occurrence. *)
Fixpoint findOperator (ops : list gostring) (token : gostring)
    : gostring * gostring * gostring :=
  match ops with
  | [] => ([], [], [])
  | op :: rest =>
      match Index token op with
      | Some idx => (take idx token, op, drop (idx + length op) token)
      | None => findOperator rest token
      end
  end.

Definition parseFieldExpression (token : gostring) : outcome FieldExpression :=
  let '(field, operator, value) := findOperator operators token in
  if str_eqb field [] || str_eqb operator [] then
    Err (lit "invalid field expression: " ++ token)
  else if str_eqb operator (lit ":~") ||
          (Contains value (lit "|") && Contains value (lit "(")) then
    match regexp_Compile value with
    | Ok pattern => Ok (mkFieldExpression field operator value (Some pattern))
    | Err err => Err (wrap_error "invalid regex in field expression: " err)
    | Panic => Panic
    | OutOfFuel => OutOfFuel
    end
  else Ok (mkFieldExpression field operator value None).

Fixpoint parseTimeValue_loop (now : Time) (formats : list gostring) (timeStr : gostring)
    : outcome Time :=
  match formats with
  | [] => Err (lit "unable to parse time: " ++ timeStr)
  | format :: rest =>
      match time_Parse format timeStr with
      | Some t =>
          if str_eqb format (lit "15:04:05") then Ok (time_today_at now t) else Ok t
      | None => parseTimeValue_loop now rest timeStr
      end
  end.

Definition parseTimeValue (now : Time) (timeStr : gostring) : outcome Time :=
  parseTimeValue_loop now
    [ lit "15:04:05"; lit "2006-01-02 15:04:05"; lit "2006-01-02T15:04:05";
      lit "2006-01-02T15:04:05Z"; RFC3339 ] timeStr.

Definition mapErr {A} (prefix : string) (x : outcome A) : outcome A :=
  match x with
  | Err err => Err (wrap_error prefix err)
  | other => other
  end.

Definition parseTimeRangeExpression (now : Time) (token : gostring)
    : outcome TimeRangeExpression :=
  if negb (HasPrefix token (lit "time:[")) || negb (HasSuffix token (lit "]")) then
    Err (lit "invalid time range format: " ++ token)
  else
    let* timeSpec := go_slice token 6 (Z.of_nat (length token) - 1) in
    match Split timeSpec (lit " TO ") with
    | [part0; part1] =>
        let* start := mapErr "invalid start time: " (parseTimeValue now (TrimSpace part0)) in
        let* end_ := mapErr "invalid end time: " (parseTimeValue now (TrimSpace part1)) in
        Ok (mkTimeRangeExpression start end_)
    | _ => Err (lit "time range must have format: time:[start TO end]")
    end.

Definition parseTextExpression (token : gostring) : outcome TextExpression :=
  let* expr :=
    (if HasPrefix token (lit "~") then
       let text := drop 1 token in
       match regexp_Compile (lit "(?i)" ++ text) with
       | Ok pattern => Ok (mkTextExpression text false true (Some pattern))
       | Err err => Err (wrap_error "invalid regex: " err)
       | Panic => Panic
       | OutOfFuel => OutOfFuel
       end
     else Ok (mkTextExpression token false false None)) in
  if HasPrefix (te_Text expr) [quote] && HasSuffix (te_Text expr) [quote] then
    let* text := go_slice (te_Text expr) 1 (Z.of_nat (length (te_Text expr)) - 1) in
    Ok (mkTextExpression text true (te_IsRegex expr) (te_Pattern expr))
  else Ok expr.

Definition PResult : Type := outcome (QueryExpression * AdvancedQueryParser).

(** The four mutually recursive methods and their two loops.  Every call
    and every loop iteration uses one unit of fuel. *)
Fixpoint parseExpression (fuel : nat) (now : Time) (p : AdvancedQueryParser) : PResult :=
  match fuel with
  | O => OutOfFuel
  | S fuel =>
      let* (lhs, p) := parseAndExpression fuel now p in
      parseExpression_loop fuel now lhs p
  end

with parseExpression_loop (fuel : nat) (now : Time) (lhs : QueryExpression)
    (p : AdvancedQueryParser) : PResult :=
  match fuel with
  | O => OutOfFuel
  | S fuel =>
      if (pos p <? length (input p))%nat then
        let p := skipWhitespace p in
        let '(isOr, p) := matchKeyword p (lit "OR") in
        if negb isOr then Ok (lhs, p)
        else
          let* (rhs, p) := parseAndExpression fuel now p in
          parseExpression_loop fuel now (OrExpression lhs rhs) p
      else Ok (lhs, p)
  end

with parseAndExpression (fuel : nat) (now : Time) (p : AdvancedQueryParser) : PResult :=
  match fuel with
  | O => OutOfFuel
  | S fuel =>
      let* (lhs, p) := parseUnaryExpression fuel now p in
      parseAndExpression_loop fuel now lhs p
  end

with parseAndExpression_loop (fuel : nat) (now : Time) (lhs : QueryExpression)
    (p : AdvancedQueryParser) : PResult :=
  match fuel with
  | O => OutOfFuel
  | S fuel =>
      if (pos p <? length (input p))%nat then
        let p := skipWhitespace p in
        let '(isExplicitAnd, p) := matchKeyword p (lit "AND") in
        if negb isExplicitAnd && negb (lookaheadForExpression p) then Ok (lhs, p)
        else
          let* (rhs, p) := parseUnaryExpression fuel now p in
          parseAndExpression_loop fuel now (AndExpression lhs rhs) p
      else Ok (lhs, p)
  end

with parseUnaryExpression (fuel : nat) (now : Time) (p : AdvancedQueryParser) : PResult :=
  match fuel with
  | O => OutOfFuel
  | S fuel =>
      let p := skipWhitespace p in
      let '(isNot, p) := matchKeyword p (lit "NOT") in
      if isNot then
        let* (expr, p) := parseUnaryExpression fuel now p in
        Ok (NotExpression expr, p)
      else parsePrimaryExpression fuel now p
  end

with parsePrimaryExpression (fuel : nat) (now : Time) (p : AdvancedQueryParser) : PResult :=
  match fuel with
  | O => OutOfFuel
  | S fuel =>
      let p := skipWhitespace p in
      match input p !! pos p with
      | None => Err (lit "unexpected end of query")
      | Some ch =>
          if decide (ch = "("%char) then
            let p := setPos p (S (pos p)) in
            let* (expr, p) := parseExpression fuel now p in
            let p := skipWhitespace p in
            match input p !! pos p with
            | Some ch' =>
                if decide (ch' = ")"%char) then Ok (expr, setPos p (S (pos p)))
                else Err (lit "missing closing parenthesis")
            | None => Err (lit "missing closing parenthesis")
            end
          else
            let '(token, p) := parseToken p in
            if str_eqb token [] then Err (lit "empty expression")
            else if Contains token (lit ":") then
              let* expr := parseFieldExpression token in
              Ok (FieldExpr expr, p)
            else if HasPrefix token (lit "time:[") then
              let* expr := parseTimeRangeExpression now token in
              Ok (TimeRangeExpr expr, p)
            else
              let* expr := parseTextExpression token in
              Ok (TextExpr expr, p)
      end
  end.

(** Fuel that always suffices for an input of the given length. *)
Definition parseFuel (s : gostring) : nat := (6 * length s + 8)%nat.

(** [now] is the reading of [time.Now()] used for clock-only time bounds. *)
Definition ParseAdvancedQuery (f : FilterEngine) (now : Time) (query : gostring)
    : outcome QueryExpression :=
  let parser := mkAQP (TrimSpace query) 0 in
  let* (expr, _) := parseExpression (parseFuel (input parser)) now parser in
  Ok expr.

Definition SetAdvancedFilter (f : FilterEngine) (now : Time) (query : gostring)
    : outcome (FilterEngine * option error) :=
  if str_eqb query [] then Ok (EngineClear f, None)
  else
    match ParseAdvancedQuery f now query with
    | Ok expr =>
        Ok (mkFilterEngine (fe_parser f)
              (Some (mkCompiledQuery false false None query [] OpAND None ∅ ∅))
              (Some expr) (lastOptions f),
            None)
    | Err err => Ok (f, Some (wrap_error "failed to parse advanced query: " err))
    | Panic => Panic
    | OutOfFuel => OutOfFuel
    end.

Definition Match (f : FilterEngine) (line : LogLine) : bool :=
  match advancedExpression f with
  | Some expr => Evaluate expr line f
  | None =>
      match compiledQuery f with
      | None => false
      | Some query => matchLine f line query
      end
  end.

End Advanced.

(** ** Tailer (package tailer) *)

Section Tailer.
Context `{GoRuntime}.

(** What [os.Stat] reports about a file. *)
Record FileInfo : Type := mkFileInfo {
  fi_Size : Z;
  fi_ModTime : Time
}.

Record FileWatcher : Type := mkFileWatcher {
  fw_path : gostring;
  fw_lastOffset : Z;
  fw_lastSize : Z;
  fw_lastModTime : Time;
  fw_lineCounter : Z;
  fw_isRotating : bool
}.

(** [checkRotation]; [stat] is the answer of [os.Stat(path)], [None] when
    it returns an error.  The error result of the method is always nil. *)
Definition checkRotation (fw : FileWatcher) (stat : option FileInfo) : bool * option error :=
  match stat with
  | None => (true, None)
  | Some info =>
      let currentSize := fi_Size info in
      if (currentSize <? fw_lastSize fw) ||
         After (fi_ModTime info) (TimeAdd (fw_lastModTime fw) Minute)
      then (true, None)
      else (false, None)
  end.

(** The line record built by the reader goroutine of [monitorFile] for a
    line of text read at wall-clock time [now]. *)
Definition emitLine (watcher : FileWatcher) (text : gostring) (now : Time)
    : FileWatcher * TailerEvent :=
  let lineNum := fw_lineCounter watcher + 1 in
  let watcher' :=
    mkFileWatcher (fw_path watcher) (fw_lastOffset watcher) (fw_lastSize watcher)
                  (fw_lastModTime watcher) lineNum (fw_isRotating watcher) in
  let logLine :=
    mkLogLine (fw_path watcher ++ lit ":" ++ Itoa lineNum) (fw_path watcher) text
              now None [] [] (fw_lastOffset watcher) lineNum in
  (watcher', mkTailerEvent EventNewLine (fw_path watcher) (Some logLine) None []).

End Tailer.

(** ** The coordinator (package ui: ui.go, utils.go, batcher) *)

Section UI.
Context `{GoRuntime}.

Inductive PaneType : Type := PaneAllLogs | PaneFiltered.

Record LogPane : Type := mkLogPane {
  scrollY : Z;
  cursorY : Z;
  pane_height : Z;
  pane_width : Z;
  pane_title : gostring;
  showCursor : bool;
  userScrolled : bool
}.

(** The status line: the format used and its arguments. *)
Inductive StatusMessage : Type :=
  | StatusNone
  | StatusFilterCleared
  | StatusSearchError (err : error)
  | StatusStream (paused : bool)
  | StatusFileError (message : gostring)
  | StatusFileRotated (source : gostring)
  | StatusBatch (lines matches : Z) (duration : Duration)
  | StatusProcessing (totalLines : Z)
  | StatusProgress (start totalLines totalMatches : Z)
  | StatusFound (totalMatches totalLines : Z) (duration : Duration).

Record SimpleBatcher : Type := mkSimpleBatcher {
  pendingLines : list LogLine;
  batchSize : Z;
  lastProcess : Time;
  timeout : Duration
}.

Definition NewSimpleBatcher : SimpleBatcher :=
  mkSimpleBatcher [] 1000 zeroTime (100 * Millisecond).

(** The fields of [Model] that the coordinator reads or writes, and the
    successive readings of [time.Now()] ([clock], [clockReads]). *)
Record Model : Type := mkModel {
  m_parser : LogParser;
  m_filter : FilterEngine;
  allLogsPane : LogPane;
  filteredPane : LogPane;
  activePane : PaneType;
  searchInput : gostring;
  searchActive : bool;
  searchCursor : Z;
  statusMessage : StatusMessage;
  statusTimeout : Time;
  lastRender : Time;
  batchedUpdates : Z;
  allLinesBuffer : CircularBuffer;
  filteredBuffer : CircularBuffer;
  simpleBatcher : SimpleBatcher;
  maxBufferSize : Z;
  isPaused : bool;
  clock : nat -> Time;
  clockReads : nat
}.

Definition set_filter (m : Model) (f : FilterEngine) : Model :=
  mkModel (m_parser m) f (allLogsPane m) (filteredPane m) (activePane m)
    (searchInput m) (searchActive m) (searchCursor m) (statusMessage m)
    (statusTimeout m) (lastRender m) (batchedUpdates m) (allLinesBuffer m)
    (filteredBuffer m) (simpleBatcher m) (maxBufferSize m) (isPaused m)
    (clock m) (clockReads m).

Definition set_panes (m : Model) (a f : LogPane) : Model :=
  mkModel (m_parser m) (m_filter m) a f (activePane m)
    (searchInput m) (searchActive m) (searchCursor m) (statusMessage m)
    (statusTimeout m) (lastRender m) (batchedUpdates m) (allLinesBuffer m)
    (filteredBuffer m) (simpleBatcher m) (maxBufferSize m) (isPaused m)
    (clock m) (clockReads m).

Definition set_status (m : Model) (msg : StatusMessage) (until : Time) : Model :=
  mkModel (m_parser m) (m_filter m) (allLogsPane m) (filteredPane m) (activePane m)
    (searchInput m) (searchActive m) (searchCursor m) msg
    until (lastRender m) (batchedUpdates m) (allLinesBuffer m)
    (filteredBuffer m) (simpleBatcher m) (maxBufferSize m) (isPaused m)
    (clock m) (clockReads m).

Definition set_render (m : Model) (updates : Z) (rendered : Time) : Model :=
  mkModel (m_parser m) (m_filter m) (allLogsPane m) (filteredPane m) (activePane m)
    (searchInput m) (searchActive m) (searchCursor m) (statusMessage m)
    (statusTimeout m) rendered updates (allLinesBuffer m)
    (filteredBuffer m) (simpleBatcher m) (maxBufferSize m) (isPaused m)
    (clock m) (clockReads m).

Definition set_allLines (m : Model) (cb : CircularBuffer) : Model :=
  mkModel (m_parser m) (m_filter m) (allLogsPane m) (filteredPane m) (activePane m)
    (searchInput m) (searchActive m) (searchCursor m) (statusMessage m)
    (statusTimeout m) (lastRender m) (batchedUpdates m) cb
    (filteredBuffer m) (simpleBatcher m) (maxBufferSize m) (isPaused m)
    (clock m) (clockReads m).

Definition set_filtered (m : Model) (cb : CircularBuffer) : Model :=
  mkModel (m_parser m) (m_filter m) (allLogsPane m) (filteredPane m) (activePane m)
    (searchInput m) (searchActive m) (searchCursor m) (statusMessage m)
    (statusTimeout m) (lastRender m) (batchedUpdates m) (allLinesBuffer m)
    cb (simpleBatcher m) (maxBufferSize m) (isPaused m)
    (clock m) (clockReads m).

Definition set_batcher (m : Model) (sb : SimpleBatcher) : Model :=
  mkModel (m_parser m) (m_filter m) (allLogsPane m) (filteredPane m) (activePane m)
    (searchInput m) (searchActive m) (searchCursor m) (statusMessage m)
    (statusTimeout m) (lastRender m) (batchedUpdates m) (allLinesBuffer m)
    (filteredBuffer m) sb (maxBufferSize m) (isPaused m)
    (clock m) (clockReads m).

Definition set_clockReads (m : Model) (n : nat) : Model :=
  mkModel (m_parser m) (m_filter m) (allLogsPane m) (filteredPane m) (activePane m)
    (searchInput m) (searchActive m) (searchCursor m) (statusMessage m)
    (statusTimeout m) (lastRender m) (batchedUpdates m) (allLinesBuffer m)
    (filteredBuffer m) (simpleBatcher m) (maxBufferSize m) (isPaused m)
    (clock m) n.

(** [time.Now()]. *)
Definition time_Now (m : Model) : Time * Model :=
  (clock m (clockReads m), set_clockReads m (S (clockReads m))).

(** [NewModel]; [maxBufferLines] is [cfg.UI.MaxBufferLines]. *)
Definition NewModel (maxBufferLines : Z) (wall : nat -> Time) : outcome Model :=
  let parser := NewLogParser in
  let filterEngine := NewFilterEngine parser in
  let* allLines := NewCircularBuffer maxBufferLines in
  let* filtered := NewCircularBuffer maxBufferLines in
  Ok (mkModel parser filterEngine
        (mkLogPane 0 0 0 0 (lit "All Logs") true false)
        (mkLogPane 0 0 0 0 (lit "Filtered Logs") false false)
        PaneAllLogs [] false 0 StatusNone zeroTime zeroTime 0
        allLines (Clear filtered) NewSimpleBatcher maxBufferLines false wall O).

Definition setStatusMessage (m : Model) (message : StatusMessage) : Model :=
  let '(now, m) := time_Now m in
  set_status m message (TimeAdd now (3 * Second)).

(** [getContentHeight]; [isAll] tells whether the pane is the all-logs pane. *)
Definition getContentHeight (pane : LogPane) (isAll : bool) : Z :=
  let baseHeight := pane_height pane - 3 in
  let baseHeight := if isAll then baseHeight - 1 else baseHeight in
  if baseHeight <? 1 then 1 else baseHeight.

Definition autoScrollPane (pane : LogPane) (isAll : bool) (buffer : CircularBuffer) : LogPane :=
  if (0 <? Size buffer) && negb (userScrolled pane) then
    let pageSize := getContentHeight pane isAll in
    let maxScroll := Size buffer - pageSize in
    let maxScroll := if maxScroll <? 0 then 0 else maxScroll in
    if maxScroll <=? scrollY pane then
      mkLogPane maxScroll (cursorY pane) (pane_height pane) (pane_width pane)
                (pane_title pane) (showCursor pane) (userScrolled pane)
    else pane
  else pane.

Definition autoScrollToBottom (m : Model) : Model :=
  set_panes m (autoScrollPane (allLogsPane m) true (allLinesBuffer m))
              (autoScrollPane (filteredPane m) false (filteredBuffer m)).

(** The body of the loop of [processBatch]. *)
Definition processLine (line : LogLine) (st : Model * Z) : outcome (Model * Z) :=
  let '(m, matchedCount) := st in
  let* allLines := Add (allLinesBuffer m) line in
  let m := set_allLines m allLines in
  if HasFilter (m_filter m) && Match (m_filter m) line then
    let* filtered := Add (filteredBuffer m) line in
    Ok (set_filtered m filtered, matchedCount + 1)
  else Ok (m, matchedCount).

Fixpoint processLines (lines : list LogLine) (st : Model * Z) : outcome (Model * Z) :=
  match lines with
  | [] => Ok st
  | line :: rest => let* st := processLine line st in processLines rest st
  end.

Definition Milliseconds (d : Duration) : Z := Z.quot d Millisecond.

Definition processBatch (m : Model) : outcome Model :=
  let sb := simpleBatcher m in
  if Z.of_nat (length (pendingLines sb)) =? 0 then Ok m
  else
    let '(startTime, m) := time_Now m in
    let* (m, matchedCount) := processLines (pendingLines sb) (m, 0) in
    let m :=
      if batchSize sb <=? Z.of_nat (length (pendingLines sb)) then
        let '(now, m) := time_Now m in
        setStatusMessage m
          (StatusBatch (Z.of_nat (length (pendingLines sb))) matchedCount (now - startTime))
      else m in
    let '(now, m) := time_Now m in
    Ok (set_batcher m (mkSimpleBatcher [] (batchSize sb) now (timeout sb))).

Definition AddLine (m : Model) (line : LogLine) : outcome Model :=
  let sb := simpleBatcher m in
  let sb := mkSimpleBatcher (pendingLines sb ++ [line]) (batchSize sb)
                            (lastProcess sb) (timeout sb) in
  let m := set_batcher m sb in
  let '(now, m) := time_Now m in
  let n := Z.of_nat (length (pendingLines sb)) in
  if (batchSize sb <=? n) || ((0 <? n) && (timeout sb <=? now - lastProcess sb)) then
    processBatch m
  else Ok m.

Definition ForceBatch (m : Model) : outcome Model := processBatch m.

(** [addLogLine]: the model after the call and the line as the parser
    left it. *)
Definition addLogLine (m : Model) (line : LogLine) : outcome (Model * LogLine) :=
  let line := ParseLogLine (m_parser m) line in
  let* m := AddLine m line in
  let m := set_render m (batchedUpdates m + 1) (lastRender m) in
  let '(now, m) := time_Now m in
  if (10 <=? batchedUpdates m) || (100 * Millisecond <? now - lastRender m) then
    let m := autoScrollToBottom m in
    Ok (set_render m 0 now, line)
  else Ok (m, line).

(** [handleTailerEvent]: the model after the call and the line of the
    event as the call left it. *)
Definition handleTailerEvent (m : Model) (event : TailerEvent)
    : outcome (Model * option LogLine) :=
  match ev_Type event with
  | EventNewLine =>
      match ev_Line event with
      | Some line =>
          if negb (isPaused m) then
            let* (m, line) := addLogLine m line in Ok (m, Some line)
          else Ok (m, Some line)
      | None => Ok (m, None)
      end
  | EventFileError => Ok (setStatusMessage m (StatusFileError (ev_Message event)), ev_Line event)
  | EventFileRotated => Ok (setStatusMessage m (StatusFileRotated (ev_Source event)), ev_Line event)
  | EventEOF => Ok (m, ev_Line event)
  end.

(** [expandShortcuts]; building the table reads the clock four times. *)
Definition expandShortcuts (m : Model) (query : gostring) : gostring * Model :=
  let '(t1, m) := time_Now m in
  let '(t2, m) := time_Now m in
  let '(t3, m) := time_Now m in
  let '(t4, m) := time_Now m in
  let shortcuts : list (gostring * gostring) :=
    [ (lit "errors", lit "level:ERROR");
      (lit "warnings", lit "level:WARN");
      (lit "info", lit "level:INFO");
      (lit "debug", lit "level:DEBUG");
      (lit "5xx", lit "status:>=500");
      (lit "4xx", lit "status:>=400 AND status:<500");
      (lit "3xx", lit "status:>=300 AND status:<400");
      (lit "2xx", lit "status:>=200 AND status:<300");
      (lit "slow", lit "response_time:>1000");
      (lit "today",
        lit "time:[" ++ time_Format t1 (lit "2006-01-02") ++ lit " 00:00:00" ++
        lit " TO " ++ time_Format t2 (lit "2006-01-02") ++ lit " 23:59:59" ++ lit "]");
      (lit "last_hour",
        lit "time:[" ++ time_Format (TimeAdd t3 (- Hour)) (lit "15:04:05") ++
        lit " TO " ++ time_Format t4 (lit "15:04:05") ++ lit "]") ] in
  match (list_to_map shortcuts : gmap gostring gostring) !! ToLower query with
  | Some expanded => (expanded, m)
  | None => (query, m)
  end.

Definition isAdvancedQuery (query : gostring) : bool :=
  Contains query (lit " AND ") || Contains query (lit " OR ") ||
  Contains query (lit " NOT ") || Contains query (lit "time:[") ||
  Contains query (lit ":>") || Contains query (lit ":<") ||
  Contains query (lit ":!=") || Contains query (lit ":~") ||
  (1 <? Count query (lit ":")).

(** The body of the inner loop of [ProcessAllExistingLines]. *)
Definition scanLine (i : Z) (st : Model * Z * Z) : outcome (Model * Z * Z) :=
  let '(m, batchMatches, totalMatches) := st in
  let* line := Get (allLinesBuffer m) i in
  match line with
  | Some line =>
      if Match (m_filter m) line then
        let* filtered := Add (filteredBuffer m) line in
        Ok (set_filtered m filtered, batchMatches + 1, totalMatches + 1)
      else Ok st
  | None => Ok st
  end.

(** [for i := start; ...; i += step] run for [n] iterations. *)
Fixpoint for_range {S : Type} (n : nat) (i step : Z)
    (body : Z -> S -> outcome S) (s : S) : outcome S :=
  match n with
  | O => Ok s
  | S n => let* s := body i s in for_range n (i + step) step body s
  end.

(** One window [start, min(start + batchSize, totalLines)). *)
Definition scanWindow (totalLines batch : Z) (start : Z) (st : Model * Z)
    : outcome (Model * Z) :=
  let '(m, totalMatches) := st in
  let end_ := start + batch in
  let end_ := if totalLines <? end_ then totalLines else end_ in
  let* (m, _, totalMatches) :=
    for_range (Z.to_nat (end_ - start)) start 1 scanLine (m, 0, totalMatches) in
  if (5000 <? totalLines) && (0 <? start) && (Z.rem start 5000 =? 0) then
    Ok (setStatusMessage m (StatusProgress start totalLines totalMatches), totalMatches)
  else Ok (m, totalMatches).

Definition ProcessAllExistingLines (m : Model) : outcome (Model * option error) :=
  if negb (HasFilter (m_filter m)) then
    Ok (set_filtered m (Clear (filteredBuffer m)), None)
  else
    let totalLines := Size (allLinesBuffer m) in
    if totalLines =? 0 then Ok (m, None)
    else
      let '(startTime, m) := time_Now m in
      let m := setStatusMessage m (StatusProcessing totalLines) in
      let m := set_filtered m (Clear (filteredBuffer m)) in
      let batch := 1000 in
      let* (m, totalMatches) :=
        for_range (Z.to_nat ((totalLines + batch - 1) / batch)) 0 batch
                  (scanWindow totalLines batch) (m, 0) in
      let '(now, m) := time_Now m in
      Ok (setStatusMessage m (StatusFound totalMatches totalLines (now - startTime)), None).

(** [applySearch]: the model after the call and the error returned. *)
Definition applySearch (m : Model) : outcome (Model * option error) :=
  if str_eqb (searchInput m) [] then
    let m := set_filter m (EngineClear (m_filter m)) in
    let m := set_filtered m (Clear (filteredBuffer m)) in
    Ok (setStatusMessage m StatusFilterCleared, None)
  else
    let '(actualQuery, m) := expandShortcuts m (searchInput m) in
    let isAdvanced := isAdvancedQuery actualQuery in
    let* (m, err) :=
      (if isAdvanced then
         let* (f, err) :=
           SetAdvancedFilter (m_filter m) (clock m (clockReads m)) actualQuery in
         Ok (set_filter m f, err)
       else
         let isRegex := ContainsAny actualQuery (lit ".*+?^${}[]|()") in
         let* verr := ValidateQuery (m_filter m) actualQuery isRegex in
         match verr with
         | Some err => Ok (m, Some err)
         | None =>
             let options := mkFilterOptions actualQuery isRegex false [] [] None in
             let* (f, err) := SetFilter (m_filter m) options in
             Ok (set_filter m f, err)
         end) in
    match err with
    | Some err => Ok (m, Some err)
    | None =>
        let* m := ForceBatch m in
        ProcessAllExistingLines m
    end.

Definition clearFilter (m : Model) : outcome Model :=
  let m := set_filter m (EngineClear (m_filter m)) in
  let m := set_filtered m (Clear (filteredBuffer m)) in
  let* m := ForceBatch m in
  Ok (setStatusMessage m StatusFilterCleared).

Definition togglePause (m : Model) : Model :=
  let m :=
    mkModel (m_parser m) (m_filter m) (allLogsPane m) (filteredPane m) (activePane m)
      (searchInput m) (searchActive m) (searchCursor m) (statusMessage m)
      (statusTimeout m) (lastRender m) (batchedUpdates m) (allLinesBuffer m)
      (filteredBuffer m) (simpleBatcher m) (maxBufferSize m) (negb (isPaused m))
      (clock m) (clockReads m) in
  setStatusMessage m (StatusStream (isPaused m)).

End UI.

(** ** Vocabulary of the properties

    Notions that the statements below are phrased with; none of them is
    part of the Go sources. *)

Section Vocabulary.
Context `{GoRuntime}.

(** The last [n] elements of a list. *)
Definition lastn {A} (n : nat) (l : list A) : list A := drop (length l - n) l.

(** A compiled simple query without its time range. *)
Definition dropTimeRange (q : CompiledQuery) : CompiledQuery :=
  mkCompiledQuery (cq_IsRegex q) (cq_CaseSensitive q) (cq_Pattern q)
    (cq_KeywordQuery q) (cq_FieldQueries q) (cq_BooleanOp q) None
    (cq_LogLevels q) (cq_Sources q).

(** How a field node with a comparison operator is evaluated: on numbers
    when both the value of the field and the value of the query parse as
    numbers, on the strings byte by byte otherwise. *)
Definition comparison_dispatch : Prop :=
  forall (field value : gostring) (pattern : option Regexp)
         (line : LogLine) (f : FilterEngine),
    let fv := extractFieldValue f line field in
    let node op := FieldExpr (mkFieldExpression field (lit op) value pattern) in
    Evaluate (node ":>"%string) line f =
      match ParseFloat fv, ParseFloat value with
      | Some a, Some b => float_gtb a b
      | _, _ => str_gtb fv value
      end /\
    Evaluate (node ":<"%string) line f =
      match ParseFloat fv, ParseFloat value with
      | Some a, Some b => float_ltb a b
      | _, _ => str_ltb fv value
      end /\
    Evaluate (node ":>="%string) line f =
      match ParseFloat fv, ParseFloat value with
      | Some a, Some b => float_geb a b
      | _, _ => str_geb fv value
      end /\
    Evaluate (node ":<="%string) line f =
      match ParseFloat fv, ParseFloat value with
      | Some a, Some b => float_leb a b
      | _, _ => str_leb fv value
      end.

(** The lines a reader finds in a store, oldest first. *)
Definition lines (cb : CircularBuffer) : list LogLine := omap id (contents cb).

(** What holds of the two stores of a model built by [NewModel] with a
    positive capacity and then driven through its methods: both are well
    formed, they have the same capacity, and nothing is in the filtered
    store while the main store is empty. *)
Record model_wf (m : Model) : Prop := {
  mwf_all : cb_wf (allLinesBuffer m);
  mwf_filtered : cb_wf (filteredBuffer m);
  mwf_capacity : cb_capacity (filteredBuffer m) = cb_capacity (allLinesBuffer m);
  mwf_empty : contents (allLinesBuffer m) = [] -> contents (filteredBuffer m) = []
}.



(** The state of the re-scan of [ProcessAllExistingLines] once the first
    [k] slots of the main store of [m0] have been visited. *)
Definition scan_inv (m0 : Model) (k : nat) (m : Model) : Prop :=
  allLinesBuffer m = allLinesBuffer m0 /\
  m_filter m = m_filter m0 /\
  cb_wf (filteredBuffer m) /\
  cb_capacity (filteredBuffer m) = cb_capacity (filteredBuffer m0) /\
  contents (filteredBuffer m) =
    lastn (Z.to_nat (cb_capacity (filteredBuffer m0)))
      (Some <$> List.filter (Match (m_filter m0))
                  (omap id (take k (contents (allLinesBuffer m0))))).

(** Field queries are recognised by a colon. *)
Definition colon : ascii := ":"%char.


(** Bytes on which [ToUpper] works byte by byte. *)
Definition is_ascii (c : ascii) : Prop := byte_val c < 128.

(** A byte of a regular token: what the last loop of [parseToken] accepts. *)
Definition tokenByte (ch : ascii) : bool :=
  negb (isWhitespace ch) && negb (bool_decide (ch = "("%char)) &&
  negb (bool_decide (ch = ")"%char)).

(** What may follow a printed sub-expression: nothing, a blank or a
    closing parenthesis. *)
Definition follow_ok (rest : gostring) : Prop :=
  match rest with
  | [] => True
  | c :: _ => c = " "%char \/ c = ")"%char
  end.

(** The token starts with the keyword [NOT] as [matchKeyword] sees it. *)
Definition startsWithNot (tok : gostring) : bool :=
  str_eqb (map ascii_upper (take 3 tok)) (lit "NOT") &&
  match tok !! 3%nat with
  | Some ch => negb (isAlphaNumeric ch)
  | None => true
  end.

(** A graphic ASCII byte other than a parenthesis. *)
Definition graphicByte (c : ascii) : bool :=
  (33 <=? byte_val c) && (byte_val c <=? 126) &&
  negb (bool_decide (c = "("%char)) && negb (bool_decide (c = ")"%char)).

(** A token that [parseToken] reads back as one token.  It is not the
    keyword [NOT], and it is either regular (graphic ASCII bytes, no
    parenthesis, not starting with a double quote or with [time:[]) or
    an ASCII text without double quote between two double quotes. *)
Definition readable (tok : gostring) : Prop :=
  startsWithNot tok = false /\
  ((tok <> [] /\ Forall (fun c => graphicByte c = true) tok /\
    head tok <> Some quote /\ HasPrefix tok (lit "time:[") = false) \/
   (exists text, tok = quote :: text ++ [quote] /\ (quote ∉ text) /\
                 Forall is_ascii text)).

(** The trees whose printed form is read back: the leaves are field terms
    and text terms whose printed token is readable and is parsed to the
    term itself. *)
Fixpoint printable (e : QueryExpression) : Prop :=
  match e with
  | AndExpression l r => printable l /\ printable r
  | OrExpression l r => printable l /\ printable r
  | NotExpression x => printable x
  | FieldExpr fe =>
      readable (QueryString e) /\ Contains (QueryString e) (lit ":") = true /\
      parseFieldExpression (QueryString e) = Ok fe
  | TextExpr te =>
      readable (QueryString e) /\ Contains (QueryString e) (lit ":") = false /\
      parseTextExpression (QueryString e) = Ok te
  | TimeRangeExpr _ => False
  end.

(** Fuel that the parser uses on the printed form of a tree. *)
Fixpoint need (e : QueryExpression) : nat :=
  match e with
  | AndExpression l r => 6 + Nat.max (need l) (need r)
  | OrExpression l r => 6 + Nat.max (need l) (need r)
  | NotExpression x => 1 + need x
  | _ => 2
  end.

(** A result that is not [OutOfFuel] and, when it is a tree, leaves the
    parser on the same input at or (if [strict]) behind position [i]. *)
Definition fine (inp : gostring) (i : nat) (strict : bool) (res : PResult) : Prop :=
  res <> OutOfFuel /\
  forall e p', res = Ok (e, p') ->
    input p' = inp /\ (if strict then (i < pos p')%nat else (i <= pos p')%nat).

(** Number of bytes of the input that the parser has not consumed. *)
Definition left_ (p : AdvancedQueryParser) : nat := (length (input p) - pos p)%nat.

End Vocabulary.

(** ** Further methods of the circular buffer (package ui) *)

Section CircularBufferMore.
Context `{GoRuntime}.

(** [cb.data[(cb.head + i) % cb.capacity]], as the loops of [GetRange]
    and [ForEach] read it. *)
Definition slot (cb : CircularBuffer) (i : Z) : outcome (option LogLine) :=
  let* actualIndex := go_rem (cb_head cb + i) (cb_capacity cb) in
  slice_get (cb_data cb) actualIndex.

(** [GetRange]; the nil slice is the empty list. *)
Definition GetRange (cb : CircularBuffer) (start end_ : Z)
    : outcome (list (option LogLine)) :=
  if (start <? 0) || (cb_size cb <=? start) || (end_ <=? start) then Ok []
  else
    let end_ := if cb_size cb <? end_ then cb_size cb else end_ in
    for_range (Z.to_nat (end_ - start)) start 1
      (fun i result => let* x := slot cb i in Ok (result ++ [x])) [].

Definition GetLast (cb : CircularBuffer) (n : Z) : outcome (list (option LogLine)) :=
  if (n <=? 0) || (cb_size cb =? 0) then Ok []
  else
    let n := if cb_size cb <? n then cb_size cb else n in
    let start := cb_size cb - n in
    GetRange cb start (cb_size cb).

(** [ForEach]: the callback [fn] acts on a state of type [St] and tells
    whether to go on; [k] iterations are left, the next index is [i]. *)
Fixpoint ForEach_loop {St : Type} (cb : CircularBuffer) (k : nat) (i : Z)
    (fn : option LogLine -> St -> outcome (St * bool)) (s : St) : outcome St :=
  match k with
  | O => Ok s
  | S k =>
      let* x := slot cb i in
      let* (s, go_on) := fn x s in
      if negb go_on then Ok s else ForEach_loop cb k (i + 1) fn s
  end.

Definition ForEach {St : Type} (cb : CircularBuffer)
    (fn : option LogLine -> St -> outcome (St * bool)) (s : St) : outcome St :=
  ForEach_loop cb (Z.to_nat (cb_size cb)) 0 fn s.

(** What [ForEach] is to compute: the callback run over a list of
    lines, oldest first, until it says stop. *)
Fixpoint visit {St : Type} (fn : option LogLine -> St -> outcome (St * bool))
    (l : list (option LogLine)) (s : St) : outcome St :=
  match l with
  | [] => Ok s
  | x :: l =>
      let* (s, go_on) := fn x s in
      if negb go_on then Ok s else visit fn l s
  end.

End CircularBufferMore.

(** ** Further vocabulary *)

Section VocabularyMore.
Context `{GoRuntime}.

(** The tree holds a [TimeRangeExpression] somewhere. *)
Fixpoint has_time_range (e : QueryExpression) : bool :=
  match e with
  | AndExpression l r => has_time_range l || has_time_range r
  | OrExpression l r => has_time_range l || has_time_range r
  | NotExpression x => has_time_range x
  | TimeRangeExpr _ => true
  | _ => false
  end.

(** The token starts with the keyword as [matchKeyword] sees it: the
    same letters in either case, not followed by a letter, a digit or an
    underscore. *)
Definition startsWithKeyword (kw tok : gostring) : bool :=
  str_eqb (map ascii_upper (take (length kw) tok)) kw &&
  match tok !! length kw with
  | Some ch => negb (isAlphaNumeric ch)
  | None => true
  end.

(** An upper-case ASCII letter. *)
Definition upperLetter (c : ascii) : bool := (65 <=? byte_val c) && (byte_val c <=? 90).

(** A word that the parser takes for a text term: graphic ASCII bytes
    without parenthesis or colon, not starting with a double quote or a
    tilde, and not one of the keywords [AND], [OR]. *)
Definition bareWord (w : gostring) : Prop :=
  w <> [] /\ Forall (fun c => graphicByte c = true) w /\
  Contains w (lit ":") = false /\
  HasPrefix w [quote] = false /\ HasPrefix w (lit "~") = false /\
  startsWithKeyword (lit "AND") w = false /\ startsWithKeyword (lit "OR") w = false.

(** The two records agree on everything the tailer alone decides: the
    identifier, the source, the raw text, the tokens, the offset and the
    line number. *)
Definition same_origin (a b : LogLine) : Prop :=
  ID a = ID b /\ Source a = Source b /\ Raw a = Raw b /\
  Tokens a = Tokens b /\ Offset a = Offset b /\ LineNum a = LineNum b.

(** The six level names a record can be given. *)
Definition canonicalLevels : list gostring :=
  [LevelTrace; LevelDebug; LevelInfo; LevelWarn; LevelError; LevelFatal].

(** The three axes of a simple filter beside its query, as conditions
    on a record: the time range lets a record without timestamp pass; the
    levels compare without regard to case and reject a record without
    level; the sources compare exactly. *)
Definition inTimeRange (tr : option TimeRange) (line : LogLine) : bool :=
  match tr with
  | Some tr =>
      IsZero (Timestamp line) ||
      negb (Before (Timestamp line) (tr_Start tr) || After (Timestamp line) (tr_End tr))
  | None => true
  end.

Definition levelWanted (levels : list gostring) (line : LogLine) : bool :=
  match levels with
  | [] => true
  | _ :: _ =>
      negb (str_eqb (Level line) []) &&
      bool_decide (ToUpper (Level line) ∈ map ToUpper levels)
  end.

Definition sourceWanted (sources : list gostring) (line : LogLine) : bool :=
  match sources with
  | [] => true
  | _ :: _ => bool_decide (Source line ∈ sources)
  end.

(** The operators that [parseFieldQuery] can give a field query. *)
Definition reachableOperator (op : QueryOperator) : bool :=
  match op with
  | OpGreaterEqual | OpLessEqual => false
  | _ => true
  end.

End VocabularyMore.

(** ** Scrolling (pkg/ui/utils.go) *)

Section Scrolling.
Context `{GoRuntime}.

(** [getActivePane] and [getActiveBuffer].  [NewModel] sets both panes
    and both buffers, so the nil tests of the methods below never fire;
    the two panes are distinct objects, so the test
    [pane == m.allLogsPane] of [getContentHeight] on the active pane is
    the test that the all-logs pane is active. *)
Definition getActivePane (m : Model) : LogPane :=
  match activePane m with
  | PaneAllLogs => allLogsPane m
  | PaneFiltered => filteredPane m
  end.

Definition getActiveBuffer (m : Model) : CircularBuffer :=
  match activePane m with
  | PaneAllLogs => allLinesBuffer m
  | PaneFiltered => filteredBuffer m
  end.

Definition isAllLogs (m : Model) : bool :=
  match activePane m with
  | PaneAllLogs => true
  | PaneFiltered => false
  end.

(** Assignments through the pointer that [getActivePane] returns. *)
Definition setActivePane (m : Model) (pane : LogPane) : Model :=
  match activePane m with
  | PaneAllLogs => set_panes m pane (filteredPane m)
  | PaneFiltered => set_panes m (allLogsPane m) pane
  end.

Definition set_scroll (pane : LogPane) (y cursor : Z) (scrolled : bool) : LogPane :=
  mkLogPane y cursor (pane_height pane) (pane_width pane) (pane_title pane)
            (showCursor pane) scrolled.

Definition scrollDown (m : Model) : Model :=
  let activePane := getActivePane m in
  let buffer := getActiveBuffer m in
  if Size buffer =? 0 then m
  else
    let contentHeight := getContentHeight activePane (isAllLogs m) in
    let maxScroll := Size buffer - contentHeight in
    let maxScroll := if maxScroll <? 0 then 0 else maxScroll in
    if scrollY activePane <? maxScroll then
      setActivePane m (set_scroll activePane (scrollY activePane + 1) (cursorY activePane) true)
    else m.

Definition scrollUp (m : Model) : Model :=
  let activePane := getActivePane m in
  if 0 <? scrollY activePane then
    setActivePane m (set_scroll activePane (scrollY activePane - 1) (cursorY activePane) true)
  else m.

Definition pageDown (m : Model) : Model :=
  let activePane := getActivePane m in
  let buffer := getActiveBuffer m in
  if Size buffer =? 0 then m
  else
    let pageSize := getContentHeight activePane (isAllLogs m) in
    let maxScroll := Size buffer - pageSize in
    let maxScroll := if maxScroll <? 0 then 0 else maxScroll in
    let y := scrollY activePane + pageSize in
    let y := if maxScroll <? y then maxScroll else y in
    setActivePane m (set_scroll activePane y (cursorY activePane) true).

Definition pageUp (m : Model) : Model :=
  let activePane := getActivePane m in
  let pageSize := getContentHeight activePane (isAllLogs m) in
  let y := scrollY activePane - pageSize in
  let y := if y <? 0 then 0 else y in
  setActivePane m (set_scroll activePane y (cursorY activePane) true).

Definition goToTop (m : Model) : Model :=
  setActivePane m (set_scroll (getActivePane m) 0 0 true).

Definition goToBottom (m : Model) : Model :=
  let activePane := getActivePane m in
  let buffer := getActiveBuffer m in
  if Size buffer =? 0 then m
  else
    let pageSize := getContentHeight activePane (isAllLogs m) in
    let maxScroll := Size buffer - pageSize in
    let maxScroll := if maxScroll <? 0 then 0 else maxScroll in
    setActivePane m (set_scroll activePane maxScroll (Size buffer - 1 - maxScroll) false).

Definition scrollToLine (m : Model) (lineIndex : Z) : Model :=
  let activePane := getActivePane m in
  let buffer := getActiveBuffer m in
  if Size buffer =? 0 then m
  else if (lineIndex <? 0) || (Size buffer <=? lineIndex) then m
  else
    let pageSize := getContentHeight activePane (isAllLogs m) in
    let newScrollY := lineIndex - Z.quot pageSize 2 in
    let newScrollY := if newScrollY <? 0 then 0 else newScrollY in
    let maxScroll := Size buffer - pageSize in
    let maxScroll := if maxScroll <? 0 then 0 else maxScroll in
    let newScrollY := if maxScroll <? newScrollY then maxScroll else newScrollY in
    setActivePane m (set_scroll activePane newScrollY (lineIndex - newScrollY) true).

(** The keys that scroll, as [Update] dispatches them. *)
Inductive ScrollKey : Type :=
  | KeyDown | KeyUp | KeyPageDown | KeyPageUp | KeyTop | KeyBottom.

Definition scroll (key : ScrollKey) (m : Model) : Model :=
  match key with
  | KeyDown => scrollDown m
  | KeyUp => scrollUp m
  | KeyPageDown => pageDown m
  | KeyPageUp => pageUp m
  | KeyTop => goToTop m
  | KeyBottom => goToBottom m
  end.

(** The largest offset at which the active pane still shows a full page
    (0 when the buffer fits on one page), and the offsets in range. *)
Definition maxScrollOf (m : Model) : Z :=
  Z.max 0 (Size (getActiveBuffer m) - getContentHeight (getActivePane m) (isAllLogs m)).

Definition scroll_in_range (m : Model) : Prop :=
  0 <= scrollY (getActivePane m) <= maxScrollOf m.

(** The pane that is not active. *)
Definition getOtherPane (m : Model) : LogPane :=
  match activePane m with
  | PaneAllLogs => filteredPane m
  | PaneFiltered => allLogsPane m
  end.

(** What [processBatch] and [AddLine] leave alone. *)
Definition same_view (m m' : Model) : Prop :=
  allLogsPane m' = allLogsPane m /\ filteredPane m' = filteredPane m /\
  activePane m' = activePane m /\ isPaused m' = isPaused m /\
  m_parser m' = m_parser m /\ m_filter m' = m_filter m /\
  cb_capacity (allLinesBuffer m') = cb_capacity (allLinesBuffer m) /\
  cb_capacity (filteredBuffer m') = cb_capacity (filteredBuffer m).

(** What a batch that is still pending will put into the main store. *)
Definition afterFlush (m : Model) (more : list LogLine) : list (option LogLine) :=
  lastn (Z.to_nat (cb_capacity (allLinesBuffer m)))
    (contents (allLinesBuffer m) ++ (Some <$> (pendingLines (simpleBatcher m) ++ more))).

Definition afterFlushFiltered (m : Model) (more : list LogLine) : list (option LogLine) :=
  lastn (Z.to_nat (cb_capacity (filteredBuffer m)))
    (contents (filteredBuffer m) ++
     (Some <$> List.filter (fun l => HasFilter (m_filter m) && Match (m_filter m) l)
                 (pendingLines (simpleBatcher m) ++ more))).

End Scrolling.

(** ** Escaping for export (package export) *)

Section ExportText.
Context `{GoRuntime}.

(** [strings.ReplaceAll] for a non-empty [old]. *)
Fixpoint ReplaceAll_aux (fuel : nat) (s old new : gostring) : gostring :=
  match fuel with
  | O => s
  | S fuel =>
      match Index s old with
      | None => s
      | Some i => take i s ++ new ++ ReplaceAll_aux fuel (drop (i + length old) s) old new
      end
  end.

Definition ReplaceAll (s old new : gostring) : gostring :=
  ReplaceAll_aux (S (length s)) s old new.

Definition apostrophe : ascii := ascii_of_nat 39.
Definition newline : ascii := ascii_of_nat 10.
Definition carriageReturn : ascii := ascii_of_nat 13.

Definition escapeHTML (s : gostring) : gostring :=
  let s := ReplaceAll s (lit "&") (lit "&amp;") in
  let s := ReplaceAll s (lit "<") (lit "&lt;") in
  let s := ReplaceAll s (lit ">") (lit "&gt;") in
  let s := ReplaceAll s [quote] (lit "&quot;") in
  let s := ReplaceAll s [apostrophe] (lit "&#39;") in
  s.

Definition escapeCSV (s : gostring) : gostring :=
  if ContainsAny s [","%char; quote; newline; carriageReturn] then
    let s := ReplaceAll s [quote] [quote; quote] in
    [quote] ++ s ++ [quote]
  else s.

(** [filterByTimeRange]; a nil entry of [lines] is dereferenced. *)
Fixpoint filterByTimeRange_loop (lines : list (option LogLine)) (timeRange : TimeRange)
    (filtered : list LogLine) : outcome (list LogLine) :=
  match lines with
  | [] => Ok filtered
  | None :: _ => Panic
  | Some line :: rest =>
      if IsZero (Timestamp line) then filterByTimeRange_loop rest timeRange filtered
      else if After (Timestamp line) (tr_Start timeRange) &&
              Before (Timestamp line) (tr_End timeRange) then
        filterByTimeRange_loop rest timeRange (filtered ++ [line])
      else filterByTimeRange_loop rest timeRange filtered
  end.

Definition filterByTimeRange (lines : list (option LogLine)) (timeRange : TimeRange)
    : outcome (list LogLine) :=
  filterByTimeRange_loop lines timeRange [].

(** The records that an export with a time range keeps. *)
Definition exportedIn (tr : TimeRange) (line : LogLine) : bool :=
  negb (IsZero (Timestamp line)) &&
  (After (Timestamp line) (tr_Start tr) && Before (Timestamp line) (tr_End tr)).

(** The entity that stands for a byte in HTML text. *)
Definition htmlEntity (c : ascii) : gostring :=
  if decide (c = "&"%char) then lit "&amp;"
  else if decide (c = "<"%char) then lit "&lt;"
  else if decide (c = ">"%char) then lit "&gt;"
  else if decide (c = quote) then lit "&quot;"
  else if decide (c = apostrophe) then lit "&#39;"
  else [c].

End ExportText.

(** ** Tokens of the highlighter (package highlighter) *)

Section Highlighter.
Context `{GoRuntime}.

(** The test in the inner loop of [removeOverlappingTokens]. *)
Definition overlaps (token existing : Token) : bool :=
  ((tok_Start existing <=? tok_Start token) && (tok_Start token <? tok_End existing)) ||
  ((tok_Start existing <? tok_End token) && (tok_End token <=? tok_End existing)) ||
  ((tok_Start token <=? tok_Start existing) && (tok_End existing <=? tok_End token)).

Fixpoint removeOverlappingTokens_loop (tokens filtered : list Token) : list Token :=
  match tokens with
  | [] => filtered
  | token :: rest =>
      if existsb (overlaps token) filtered then removeOverlappingTokens_loop rest filtered
      else removeOverlappingTokens_loop rest (filtered ++ [token])
  end.

Definition removeOverlappingTokens (tokens : list Token) : list Token :=
  if Z.of_nat (length tokens) <=? 1 then tokens
  else removeOverlappingTokens_loop tokens [].

(** Every token is clear of all the tokens before it. *)
Fixpoint apart (l : list Token) : Prop :=
  match l with
  | [] => True
  | e :: l' => Forall (fun t => overlaps t e = false) l' /\ apart l'
  end.

(** A token that covers at least one byte. *)
Definition proper (t : Token) : Prop := tok_Start t < tok_End t.

End Highlighter.

(** ** A small executable runtime

    An instance of [GoRuntime] on which the definitions above can be run:
    ASCII case mapping and trimming, integers for numbers, decimal
    printing, a JSON decoder for flat objects of strings, integers,
    booleans and null, and regular expressions restricted to literal
    patterns (with parentheses checked for balance).  It agrees with Go on
    the inputs of the worked examples below. *)

Module SmallRuntime.

Definition is_space (c : ascii) : bool :=
  let n := byte_val c in ((9 <=? n) && (n <=? 13)) || (n =? 32).

Definition trimLeft (s : gostring) : gostring := drop (span is_space s) s.

Definition trimSpace (s : gostring) : gostring := reverse (trimLeft (reverse (trimLeft s))).

Definition toUpper (s : gostring) : gostring := map ascii_upper s.
Definition toLower (s : gostring) : gostring := map ascii_lower s.
Definition equalFold (a b : gostring) : bool := str_eqb (toLower a) (toLower b).

Definition is_digit (c : ascii) : bool :=
  let n := byte_val c in (48 <=? n) && (n <=? 57).

Fixpoint digits_value (acc : Z) (s : gostring) : option Z :=
  match s with
  | [] => Some acc
  | c :: s' => if is_digit c then digits_value (10 * acc + (byte_val c - 48)) s' else None
  end.

(** Optionally signed decimal integers; anything else is an error. *)
Definition parseInt (s : gostring) : option Z :=
  match s with
  | [] => None
  | c :: s' =>
      if decide (c = "-"%char) then
        match s' with [] => None | _ => Z.opp <$> digits_value 0 s' end
      else if decide (c = "+"%char) then
        match s' with [] => None | _ => digits_value 0 s' end
      else digits_value 0 s
  end.

Fixpoint digits_of_pos (fuel : nat) (n : Z) (acc : gostring) : gostring :=
  match fuel with
  | O => acc
  | S fuel =>
      let acc := ascii_of_nat (Z.to_nat (48 + n `mod` 10)) :: acc in
      if n / 10 =? 0 then acc else digits_of_pos fuel (n / 10) acc
  end.

Definition itoa (n : Z) : gostring :=
  if n <? 0 then "-"%char :: digits_of_pos (S (Z.to_nat (Z.log2 (- n)))) (- n) []
  else digits_of_pos (S (Z.to_nat (Z.log2 n))) n [].

Fixpoint parens_balanced (s : gostring) (depth : Z) : bool :=
  match s with
  | [] => depth =? 0
  | c :: s' =>
      if decide (c = "("%char) then parens_balanced s' (depth + 1)
      else if decide (c = ")"%char) then
        if depth =? 0 then false else parens_balanced s' (depth - 1)
      else parens_balanced s' depth
  end.

(** A compiled pattern: case-insensitive or not, and the literal text. *)
Definition regexp : Type := bool * gostring.

Definition compile (pattern : gostring) : outcome regexp :=
  if parens_balanced pattern 0 then
    if HasPrefix pattern (lit "(?i)") then Ok (true, drop 4 pattern)
    else Ok (false, pattern)
  else Err (lit "error parsing regexp: missing closing ): `" ++ pattern ++ lit "`").

Definition matchString (re : regexp) (s : gostring) : bool :=
  if fst re then Contains (toLower s) (toLower (snd re)) else Contains s (snd re).

Definition findString (re : regexp) (s : gostring) : option gostring :=
  if fst re then
    (fun i => take (length (snd re)) (drop i s)) <$> Index (toLower s) (toLower (snd re))
  else (fun _ => snd re) <$> Index s (snd re).

Definition regexpString (re : regexp) : gostring :=
  if fst re then lit "(?i)" ++ snd re else snd re.

(** JSON: [{ "key": value, ... }] with string, integer, [true], [false]
    and [null] values; no escapes, no nesting. *)
Definition skipSpaces (s : gostring) : gostring := drop (span is_space s) s.

Definition readString (s : gostring) : option (gostring * gostring) :=
  match s with
  | c :: s' =>
      if decide (c = quote) then
        let n := span (fun ch => negb (bool_decide (ch = quote))) s' in
        match drop n s' with
        | _ :: rest => Some (take n s', rest)
        | [] => None
        end
      else None
  | [] => None
  end.

Definition readValue (s : gostring) : option (Value Z * gostring) :=
  match s with
  | [] => None
  | c :: _ =>
      if decide (c = quote) then
        '(str, rest) ← readString s; Some (VString str, rest)
      else if HasPrefix s (lit "true") then Some (VBool true, drop 4 s)
      else if HasPrefix s (lit "false") then Some (VBool false, drop 5 s)
      else if HasPrefix s (lit "null") then Some (VNil, drop 4 s)
      else
        let n := span (fun ch => is_digit ch || bool_decide (ch = "-"%char)) s in
        z ← parseInt (take n s); Some (VFloat z, drop n s)
  end.

Fixpoint readMembers (fuel : nat) (s : gostring) (acc : gmap gostring (Value Z))
    : option (gmap gostring (Value Z)) :=
  match fuel with
  | O => None
  | S fuel =>
      '(key, rest) ← readString (skipSpaces s);
      match skipSpaces rest with
      | c :: rest =>
          if decide (c = ":"%char) then
            '(val, rest) ← readValue (skipSpaces rest);
            let acc := <[key := val]> acc in
            match skipSpaces rest with
            | [d] => if decide (d = "}"%char) then Some acc else None
            | d :: rest =>
                if decide (d = ","%char) then readMembers fuel rest acc else None
            | [] => None
            end
          else None
      | [] => None
      end
  end.

Definition jsonUnmarshal (s : gostring) : option (gmap gostring (Value Z)) :=
  match skipSpaces s with
  | c :: rest =>
      if decide (c = "{"%char) then
        match skipSpaces rest with
        | [d] => if decide (d = "}"%char) then Some ∅ else readMembers (length s) rest ∅
        | _ => readMembers (length s) rest ∅
        end
      else None
  | [] => None
  end.

Definition sprintf_v (v : Value Z) : gostring :=
  match v with
  | VString s => s
  | VBool true => lit "true"
  | VBool false => lit "false"
  | VInt n | VInt64 n | VFloat n => itoa n
  | VNil => lit "<nil>"
  | _ => []
  end.

Definition timeUnix (sec : Z) : Time := (sec + 62135596800) * Second.

Lemma span_Forall (P : ascii -> bool) (s : gostring) :
  Forall (fun c => P c = true) (take (span P s) s).
Proof.
  induction s as [|c s IH]; simpl; [constructor|].
  destruct (P c) eqn:E; simpl; [constructor; done|constructor].
Qed.

Lemma is_space_not_graphic c : is_space c = true -> ~ (33 <= byte_val c <= 126).
Proof. unfold is_space. intros Hs Hg. lia. Qed.

Lemma trimLeft_sub s :
  exists a, s = a ++ trimLeft s /\ Forall (fun c => ~ (33 <= byte_val c <= 126)) a.
Proof.
  exists (take (span is_space s) s). split.
  - unfold trimLeft. by rewrite take_drop.
  - eapply Forall_impl; [apply span_Forall|]. intros c. apply is_space_not_graphic.
Qed.

Lemma trimSpace_sub s :
  exists a b, s = a ++ trimSpace s ++ b /\
    Forall (fun c => ~ (33 <= byte_val c <= 126)) a /\
    Forall (fun c => ~ (33 <= byte_val c <= 126)) b.
Proof.
  destruct (trimLeft_sub s) as (a & Ha & Fa).
  destruct (trimLeft_sub (reverse (trimLeft s))) as (b & Hb & Fb).
  exists a, (reverse b). split; [|split; [done|]].
  - unfold trimSpace. rewrite <- reverse_app, <- Hb, reverse_involutive. done.
  - by apply Forall_reverse.
Qed.

Lemma trimLeft_graphic s :
  (forall c, head s = Some c -> 33 <= byte_val c <= 126) -> trimLeft s = s.
Proof.
  intros Hh. unfold trimLeft. destruct s as [|c s]; [done|]. simpl.
  specialize (Hh c eq_refl).
  replace (is_space c) with false; [done|]. unfold is_space. lia.
Qed.

Lemma trimSpace_graphic s :
  (forall c, head s = Some c -> 33 <= byte_val c <= 126) ->
  (forall c, last s = Some c -> 33 <= byte_val c <= 126) ->
  trimSpace s = s.
Proof.
  intros Hh Hl. unfold trimSpace. rewrite (trimLeft_graphic s Hh).
  rewrite trimLeft_graphic; [apply reverse_involutive|].
  intros c Hc. apply Hl. by rewrite <- head_reverse.
Qed.

Lemma toLower_nonempty (s : gostring) : s <> [] -> toLower s <> [].
Proof. by destruct s. Qed.

Lemma compile_returns (s : gostring) :
  (exists re, compile s = Ok re) \/ (exists err, compile s = Err err).
Proof.
  unfold compile. destruct (parens_balanced s 0); [|by right; eexists].
  left. destruct (HasPrefix s (lit "(?i)")); by eexists.
Qed.

#[export] Instance runtime : GoRuntime := {|
  float64 := Z;
  ParseFloat := parseInt;
  float_ltb := Z.ltb;
  float_leb := Z.leb;
  float_gtb := Z.gtb;
  float_geb := Z.geb;
  float_to_int64 := fun z => z;
  Regexp := regexp;
  regexp_Compile := compile;
  MatchString := matchString;
  FindString := findString;
  regexp_String := regexpString;
  json_Unmarshal := jsonUnmarshal;
  yaml_Unmarshal := fun _ => None;
  time_Parse := fun _ _ => None;
  time_Unix := timeUnix;
  time_Format := fun t _ => itoa t;
  time_today_at := fun now t => t;
  Sprintf_v := sprintf_v;
  Itoa := itoa;
  ToLower := toLower;
  ToUpper := toUpper;
  EqualFold := equalFold;
  TrimSpace := trimSpace;
  TrimSpace_sub := trimSpace_sub;
  TrimSpace_graphic := trimSpace_graphic;
  ToUpper_ascii := fun s _ => eq_refl;
  ToLower_nonempty := toLower_nonempty;
  regexp_Compile_returns := compile_returns
|}.

End SmallRuntime.

(** ** Data of the worked examples *)

Module Examples.
Import SmallRuntime.

(** The raw line of scenario S2:
    [{"level":"ERROR","status":502,"msg":"bad gateway"}]. *)
Definition rawS2 : gostring :=
  lit "{" ++ [quote] ++ lit "level" ++ [quote] ++ lit ":" ++
  [quote] ++ lit "ERROR" ++ [quote] ++ lit "," ++
  [quote] ++ lit "status" ++ [quote] ++ lit ":502," ++
  [quote] ++ lit "msg" ++ [quote] ++ lit ":" ++
  [quote] ++ lit "bad gateway" ++ [quote] ++ lit "}".

Definition watcher0 : FileWatcher :=
  mkFileWatcher (lit "app.log") 0 100 (1000 * Minute) 0 false.

(** A wall-clock reading: some instant in 2024. *)
Definition wall0 : Time := 63840000000 * Second.

Definition textLine (n : Z) (text : string) : LogLine :=
  mkLogLine (lit "app.log:" ++ itoa n) (lit "app.log") (lit text) wall0 None [] [] 0 n.

(** The S2 line as the tailer emits it, and after the parser step. *)
Definition emittedS2 : LogLine :=
  mkLogLine (lit "app.log:1") (lit "app.log") rawS2 wall0 None [] [] 0 1.

Definition lineS2 : LogLine := ParseLogLine NewLogParser emittedS2.

Definition engine0 : FilterEngine := NewFilterEngine NewLogParser.

Definition simpleOptions (query : string) (isRegex : bool) : FilterOptions :=
  mkFilterOptions (lit query) isRegex false [] [] None.

(** The result of [Match] once [query] has been installed as an advanced
    filter on a fresh engine; [None] if installing it fails. *)
Definition advancedMatch (query : string) (line : LogLine) : option bool :=
  match SetAdvancedFilter engine0 wall0 (lit query) with
  | Ok (f, None) => Some (Match f line)
  | _ => None
  end.

(** The same through [SetFilter], as [applySearch] does for a query that is
    not advanced. *)
Definition simpleMatch (query : string) (isRegex : bool) (line : LogLine) : option bool :=
  match SetFilter engine0 (simpleOptions query isRegex) with
  | Ok (f, None) => Some (Match f line)
  | _ => None
  end.

(** The engine after [query] has been installed as an advanced filter on
    a fresh engine (the fresh engine when that fails). *)
Definition installed (query : string) : FilterEngine :=
  match SetAdvancedFilter engine0 wall0 (lit query) with
  | Ok (f, None) => f
  | _ => engine0
  end.

(** The engine after a simple filter has then been set on [f]. *)
Definition thenSimple (f : FilterEngine) (query : string) : FilterEngine :=
  match SetFilter f (simpleOptions query false) with
  | Ok (f', None) => f'
  | _ => f
  end.

Definition model0 (capacity : Z) : Model :=
  match NewModel capacity (fun n => wall0 + Z.of_nat n * Millisecond) with
  | Ok m => m
  | _ =>
      mkModel NewLogParser engine0 (mkLogPane 0 0 0 0 [] true false)
        (mkLogPane 0 0 0 0 [] false false) PaneAllLogs [] false 0 StatusNone 0 0 0
        (mkCircularBuffer [] 0 0 0 0) (mkCircularBuffer [] 0 0 0 0)
        NewSimpleBatcher capacity false (fun _ => 0) O
  end.

Definition with_search (m : Model) (query : gostring) : Model :=
  mkModel (m_parser m) (m_filter m) (allLogsPane m) (filteredPane m) (activePane m)
    query (searchActive m) (searchCursor m) (statusMessage m)
    (statusTimeout m) (lastRender m) (batchedUpdates m) (allLinesBuffer m)
    (filteredBuffer m) (simpleBatcher m) (maxBufferSize m) (isPaused m)
    (clock m) (clockReads m).

Definition newLineEvent (line : LogLine) : TailerEvent :=
  mkTailerEvent EventNewLine (Source line) (Some line) None [].

(** The model after the tailer has delivered [ls], in order. *)
Definition feed (m : Model) (ls : list LogLine) : Model :=
  foldl (fun m line =>
           match handleTailerEvent m (newLineEvent line) with
           | Ok (m', _) => m'
           | _ => m
           end) m ls.

(** Scenario S1: two lines in a store of capacity three, and the
    search input [boom]. *)
Definition modelS1 : Model :=
  with_search
    (feed (model0 3)
       [ textLine 1 "2024-01-15 14:30:22 INFO hello";
         textLine 2 "2024-01-15 14:30:23 ERROR boom" ])
    (lit "boom").

Definition afterSearch (m : Model) : Model :=
  match applySearch m with
  | Ok (m', None) => m'
  | _ => m
  end.


(** The tree of the query
    [(level:ERROR OR "disk full") AND NOT source:~test]. *)
Definition sampleTree : QueryExpression :=
  AndExpression
    (OrExpression
       (FieldExpr (mkFieldExpression (lit "level") (lit ":") (lit "ERROR") None))
       (TextExpr (mkTextExpression (lit "disk full") true false None)))
    (NotExpression
       (FieldExpr (mkFieldExpression (lit "source") (lit ":~") (lit "test")
                     (Some (false, lit "test"))))).

Definition sampleQuery : gostring :=
  lit "(level:ERROR OR " ++ [quote] ++ lit "disk full" ++ [quote] ++
  lit ") AND NOT source:~test".

End Examples.

(** ** Data of further worked examples *)

Module MoreExamples.
Import SmallRuntime.

(** A buffer of capacity 2 after the lines a, b, c were added: a is
    gone, the slots hold c and b, and the oldest line is in slot 1. *)
Definition wrapped : CircularBuffer :=
  mkCircularBuffer [Some (Examples.textLine 3 "c"); Some (Examples.textLine 2 "b")] 1 1 2 2.

(** Three field terms and the tokens they are printed as. *)
Definition levelError : QueryExpression :=
  FieldExpr (mkFieldExpression (lit "level") (lit ":") (lit "ERROR") None).

Definition status500 : QueryExpression :=
  FieldExpr (mkFieldExpression (lit "status") (lit ":") (lit "500") None).

Definition sourceApp : QueryExpression :=
  FieldExpr (mkFieldExpression (lit "source") (lit ":") (lit "app") None).

(** What [status:>=500] is parsed to. *)
Definition statusGe : FieldExpression :=
  mkFieldExpression (lit "status") (lit ":>") (lit "=500") None.

(** A line of plain text as the tailer emits it: the text carries a
    time of its own, the record the wall-clock reading. *)
Definition stampedLine : LogLine :=
  Examples.textLine 1 "2024-01-15 14:30:22 INFO hello".

(** What the simple query [status:>=500] compiles to. *)
Definition compiledGe : CompiledQuery :=
  mkCompiledQuery false false None []
    [mkFieldQuery (lit "status") OpGreater (lit "=500") None] OpAND None ∅ ∅.

(** Scenario S1 after one more line has arrived. *)
Definition afterEvent : Model * option LogLine :=
  match handleTailerEvent Examples.modelS1 (Examples.newLineEvent stampedLine) with
  | Ok r => r
  | _ => (Examples.modelS1, None)
  end.

End MoreExamples.

(** * Properties *)

(** ** CircularBuffer *)

Section CircularBufferFacts.
Context `{GoRuntime}.

Local Open Scope Z_scope.

Lemma rem_wrap (a c : Z) :
  0 <= a < 2 * c -> 0 < c ->
  a `rem` c = if a <? c then a else a - c.
Proof.
  intros Ha Hc. rewrite Z.rem_mod_nonneg by lia.
  destruct (Z.ltb_spec a c).
  - apply Z.mod_small. lia.
  - replace a with ((a - c) + 1 * c) at 1 by lia.
    rewrite Z.mod_add by lia. apply Z.mod_small. lia.
Qed.

Ltac zcases :=
  repeat match goal with
         | |- context [ ?a <? ?b ] => destruct (Z.ltb_spec a b)
         | H : context [ ?a <? ?b ] |- _ => destruct (Z.ltb_spec a b)
         end.

Lemma lastn_all {A} (n : nat) (l : list A) : (length l <= n)%nat -> lastn n l = l.
Proof. intros Hl. unfold lastn. replace (length l - n)%nat with 0%nat by lia. done. Qed.

Lemma lastn_length {A} (n : nat) (l : list A) : length (lastn n l) = (length l `min` n)%nat.
Proof. unfold lastn. rewrite length_drop. lia. Qed.

Lemma lastn_app_lastn {A} (n : nat) (l m : list A) :
  lastn n (lastn n l ++ m) = lastn n (l ++ m).
Proof.
  unfold lastn. rewrite !length_app, length_drop.
  rewrite !drop_app, !length_drop.
  rewrite drop_drop. f_equal; [f_equal; lia|]. f_equal. lia.
Qed.

Lemma lastn_lookup {A} (n : nat) (l : list A) (i : nat) :
  lastn n l !! i = l !! (length l - n + i)%nat.
Proof. unfold lastn. apply lookup_drop. Qed.

Lemma contents_length cb : length (contents cb) = Z.to_nat (cb_size cb).
Proof. unfold contents. by rewrite length_map, length_seq. Qed.

Lemma contents_lookup cb (i : nat) :
  (i < Z.to_nat (cb_size cb))%nat ->
  contents cb !! i = Some (mjoin (cb_data cb !! physical cb i)).
Proof.
  intros Hi. unfold contents. rewrite list_lookup_fmap.
  rewrite lookup_seq_lt by done. done.
Qed.

Lemma NewCircularBuffer_wf (c : Z) :
  0 < c -> exists cb, NewCircularBuffer c = Ok cb /\ cb_wf cb /\
                      cb_capacity cb = c /\ contents cb = [].
Proof.
  intros Hc. unfold NewCircularBuffer.
  destruct (Z.ltb_spec c 0); [lia|].
  eexists; split; [reflexivity|]. split; [|split; [done|done]].
  constructor; simpl; try lia.
  - rewrite length_replicate. lia.
  - rewrite Z.rem_0_l; lia.
Qed.

Lemma Clear_wf cb :
  cb_wf cb -> cb_wf (Clear cb) /\ cb_capacity (Clear cb) = cb_capacity cb /\
              contents (Clear cb) = [].
Proof.
  intros [Hc Hl Hh Hs Ht]. split; [|done].
  constructor; simpl; try lia.
  - rewrite length_replicate. lia.
  - rewrite Z.rem_0_l; lia.
Qed.

(** [Add] never panics on a well-formed buffer; it appends at the young
    end and, when the buffer is full, drops the oldest line. *)
Lemma Add_spec cb line :
  cb_wf cb ->
  exists cb', Add cb line = Ok cb' /\ cb_wf cb' /\
    cb_capacity cb' = cb_capacity cb /\
    contents cb' = lastn (Z.to_nat (cb_capacity cb)) (contents cb ++ [Some line]).
Proof.
  intros [Hc Hl Hh Hs Ht].
  assert (Htl : 0 <= cb_tail cb < cb_capacity cb).
  { rewrite Ht, rem_wrap by lia. zcases; lia. }
  unfold Add, slice_set, go_rem.
  destruct (Z.ltb_spec (cb_tail cb) 0); [lia|].
  destruct (Z.leb_spec (Z.of_nat (length (cb_data cb))) (cb_tail cb)); [lia|].
  destruct (Z.eqb_spec (cb_capacity cb) 0); [lia|]. simpl.
  destruct (Z.ltb_spec (cb_size cb) (cb_capacity cb)) as [Hlt|Hge].
  - eexists; split; [reflexivity|]. split; [|split; [done|]].
    + constructor; simpl; try lia.
      * rewrite length_insert. lia.
      * rewrite Ht. rewrite !rem_wrap by (zcases; lia).
        zcases; lia.
    + rewrite lastn_all by (rewrite length_app, contents_length; simpl; lia).
      apply list_eq. intros i.
      destruct (decide (i < Z.to_nat (cb_size cb))%nat) as [Hi|Hi].
      * rewrite lookup_app_l by (rewrite contents_length; lia).
        rewrite !contents_lookup by (simpl; lia). f_equal. simpl.
        unfold physical; simpl. rewrite list_lookup_insert_ne; [done|].
        rewrite Ht. rewrite !rem_wrap by lia. zcases; lia.
      * destruct (decide (i = Z.to_nat (cb_size cb))) as [->|Hne].
        -- rewrite lookup_app_r by (rewrite contents_length; lia).
           rewrite contents_length, Nat.sub_diag. simpl.
           rewrite contents_lookup by (simpl; lia). f_equal. simpl.
           unfold physical; simpl.
           replace (cb_head cb + Z.of_nat (Z.to_nat (cb_size cb)))
             with (cb_head cb + cb_size cb) by lia.
           rewrite <- Ht. rewrite list_lookup_insert_eq by lia. done.
        -- rewrite !lookup_ge_None_2; [done| |].
           ++ rewrite length_app, contents_length. simpl. lia.
           ++ rewrite contents_length. simpl. lia.
  - assert (Hfull : cb_size cb = cb_capacity cb) by lia.
    assert (Htail : cb_tail cb = cb_head cb).
    { rewrite Ht, Hfull, rem_wrap by lia. zcases; lia. }
    assert (Hh' : (cb_head cb + 1) `rem` cb_capacity cb =
                  if cb_head cb + 1 <? cb_capacity cb then cb_head cb + 1
                  else cb_head cb + 1 - cb_capacity cb) by (apply rem_wrap; lia).
    eexists; split; [reflexivity|]. split; [|split; [done|]].
    + constructor; simpl; try lia.
      * rewrite length_insert. lia.
      * rewrite rem_wrap by lia. zcases; lia.
      * rewrite Htail, Hh'. rewrite !rem_wrap by (zcases; lia).
        zcases; lia.
    + apply list_eq. intros i. rewrite lastn_lookup.
      rewrite length_app, contents_length. simpl.
      destruct (decide (i < Z.to_nat (cb_capacity cb))%nat) as [Hi|Hi].
      * rewrite contents_lookup by (simpl; lia).
        unfold physical at 1; simpl.
        destruct (decide (i = Z.to_nat (cb_capacity cb) - 1)%nat) as [->|Hne].
        -- rewrite lookup_app_r by (rewrite contents_length; lia).
           rewrite contents_length.
           match goal with
           | |- context [ [Some line] !! ?k ] => replace k with 0%nat by lia
           end. simpl. f_equal.
           rewrite Htail.
           match goal with
           | |- context [ _ !! Z.to_nat ?k ] => replace k with (cb_head cb)
           end.
           ++ rewrite list_lookup_insert_eq by lia. done.
           ++ rewrite Hh'.
              rewrite !rem_wrap by (zcases; lia).
              zcases; lia.
        -- rewrite lookup_app_l by (rewrite contents_length; lia).
           rewrite contents_lookup by lia. f_equal.
           rewrite list_lookup_insert_ne.
           ++ unfold physical. do 3 f_equal. rewrite Hh'.
              rewrite !rem_wrap by (zcases; lia).
              zcases; lia.
           ++ rewrite Htail, Hh'. rewrite !rem_wrap by (zcases; lia).
              zcases; lia.
      * rewrite !lookup_ge_None_2; [done| |].
        -- rewrite length_app, contents_length. simpl. lia.
        -- rewrite contents_length. simpl. lia.
Qed.

Lemma AddAll_spec lines : forall cb,
  cb_wf cb ->
  exists cb', AddAll cb lines = Ok cb' /\ cb_wf cb' /\
    cb_capacity cb' = cb_capacity cb /\
    contents cb' = lastn (Z.to_nat (cb_capacity cb)) (contents cb ++ (Some <$> lines)).
Proof.
  induction lines as [|l lines IH]; intros cb Hwf; simpl.
  - exists cb. split; [done|]. split; [done|]. split; [done|].
    rewrite app_nil_r, lastn_all; [done|].
    rewrite contents_length. destruct Hwf. lia.
  - destruct (Add_spec cb l Hwf) as (cb1 & -> & Hwf1 & Hcap1 & Hc1). simpl.
    destruct (IH cb1 Hwf1) as (cb' & -> & Hwf' & Hcap' & Hc').
    exists cb'. split; [done|]. split; [done|]. split; [congruence|].
    rewrite Hc', Hc1, Hcap1, lastn_app_lastn, <- app_assoc. done.
Qed.

Lemma Get_spec cb (index : Z) :
  cb_wf cb ->
  Get cb index =
    Ok (if (index <? 0) || (cb_size cb <=? index) then None
        else mjoin (contents cb !! Z.to_nat index)).
Proof.
  intros [Hc Hl Hh Hs Ht]. unfold Get.
  destruct (Z.ltb_spec index 0); simpl; [done|].
  destruct (Z.leb_spec (cb_size cb) index); simpl; [done|].
  unfold go_rem. destruct (Z.eqb_spec (cb_capacity cb) 0); [lia|]. simpl.
  rewrite contents_lookup by lia. simpl.
  unfold slice_get, physical. rewrite Z2Nat.id by lia.
  assert (Hr : 0 <= (cb_head cb + index) `rem` cb_capacity cb < cb_capacity cb).
  { rewrite rem_wrap by lia. zcases; lia. }
  destruct (Z.ltb_spec ((cb_head cb + index) `rem` cb_capacity cb) 0); [lia|].
  destruct (cb_data cb !! _) eqn:E; [done|].
  apply lookup_ge_None in E. lia.
Qed.

End CircularBufferFacts.

(** ** Store, rotation check, time ranges and pause *)

Section CircularStore.
Context `{GoRuntime}.

(** C4. For a capacity [c > 0] and any sequence [lines] of appends to a
    new circular store: no append panics; the size is at most [c] (it is
    [min c (length lines)]); [Get i] returns the line appended at position
    [evicted + i] of the sequence, where [evicted] lines were dropped; so
    [Get (size-1)] is the last line appended, and for [i < j] the line at
    [i] was appended before the line at [j]. *)
Theorem circular_store_appends (c : Z) (lines : list LogLine) :
  0 < c ->
  exists cb0 cb,
    NewCircularBuffer c = Ok cb0 /\ AddAll cb0 lines = Ok cb /\
    0 <= Size cb <= c /\
    Size cb = Z.min c (Z.of_nat (length lines)) /\
    (lines <> [] -> Get cb (Size cb - 1) = Ok (last lines)) /\
    (forall i j, 0 <= i -> i < j -> j < Size cb ->
       exists (pi pj : nat) (li lj : LogLine),
         (pi < pj)%nat /\ lines !! pi = Some li /\ lines !! pj = Some lj /\
         Get cb i = Ok (Some li) /\ Get cb j = Ok (Some lj)) /\
    (forall i, 0 <= i < Size cb ->
       Get cb i = Ok (lines !! (length lines - Z.to_nat (Size cb) + Z.to_nat i)%nat)).
Proof.
  intros Hc.
  destruct (NewCircularBuffer_wf c Hc) as (cb0 & Hnew & Hwf0 & Hcap0 & Hcont0).
  destruct (AddAll_spec lines cb0 Hwf0) as (cb & Hadd & Hwf & Hcap & Hcont).
  rewrite Hcont0, Hcap0 in Hcont. simpl in Hcont.
  assert (Hsize : Size cb = Z.min c (Z.of_nat (length lines))).
  { pose proof (contents_length cb) as Hl. rewrite Hcont, lastn_length in Hl.
    rewrite length_fmap in Hl. unfold Size. destruct Hwf. lia. }
  assert (Hget : forall i, 0 <= i < Size cb ->
     Get cb i = Ok (lines !! (length lines - Z.to_nat (Size cb) + Z.to_nat i)%nat)).
  { intros i Hi. rewrite Get_spec by done. unfold Size in *.
    destruct (Z.ltb_spec i 0); [lia|]. destruct (Z.leb_spec (cb_size cb) i); [lia|].
    simpl. rewrite Hcont, lastn_lookup, length_fmap, list_lookup_fmap.
    replace (Z.to_nat (cb_size cb)) with (length lines `min` Z.to_nat c)%nat by lia.
    replace (length lines - Z.to_nat c)%nat
      with (length lines - length lines `min` Z.to_nat c)%nat by lia.
    by destruct (lines !! _). }
  exists cb0, cb. split; [done|]. split; [done|]. split; [lia|]. split; [done|].
  split; [|split; [|done]].
  - intros Hne. assert (0 < length lines)%nat by (destruct lines; simpl; [done|lia]).
    rewrite Hget by lia. f_equal. rewrite last_lookup. f_equal. lia.
  - intros i j Hi Hij Hj.
    set (k := (length lines - Z.to_nat (Size cb))%nat).
    destruct (lookup_lt_is_Some_2 lines (k + Z.to_nat i)) as [li Hli]; [lia|].
    destruct (lookup_lt_is_Some_2 lines (k + Z.to_nat j)) as [lj Hlj]; [lia|].
    exists (k + Z.to_nat i)%nat, (k + Z.to_nat j)%nat, li, lj.
    split; [lia|]. split; [done|]. split; [done|].
    rewrite !Hget by lia. fold k. by rewrite Hli, Hlj.
Qed.

End CircularStore.

Section CircularStoreExamples.
#[local] Existing Instance SmallRuntime.runtime.

Lemma circular_store_appends_witness :
  0 < 2 /\
  exists cb0 cb,
    NewCircularBuffer 2 = Ok cb0 /\
    AddAll cb0 [Examples.textLine 1 "a"; Examples.textLine 2 "b"; Examples.textLine 3 "c"] = Ok cb /\
    0 <= Size cb <= 2.
Proof.
  split; [lia|].
  destruct (circular_store_appends (H := SmallRuntime.runtime) 2
              [Examples.textLine 1 "a"; Examples.textLine 2 "b"; Examples.textLine 3 "c"])
    as (cb0 & cb & H1 & H2 & H3 & _); [lia|].
  exists cb0, cb. auto.
Defined.

End CircularStoreExamples.

Section Rotation.
Context `{GoRuntime}.

(** C5, as the code has it.  [checkRotation] reports a rotation exactly
    when stat fails, or the current size is smaller than the last known
    size, or the modification time is more than one minute later than the
    last known modification time; its error result is always nil. *)
Theorem checkRotation_exactly (fw : FileWatcher) (stat : option FileInfo) :
  (fst (checkRotation fw stat) = true <->
     stat = None \/
     exists info, stat = Some info /\
       (fi_Size info < fw_lastSize fw \/
        fw_lastModTime fw + Minute < fi_ModTime info)) /\
  snd (checkRotation fw stat) = None.
Proof.
  unfold checkRotation, After, TimeAdd. destruct stat as [info|]; simpl.
  - destruct (Z.ltb_spec (fi_Size info) (fw_lastSize fw));
      destruct (Z.ltb_spec (fw_lastModTime fw + Minute) (fi_ModTime info)); simpl;
      (split; [|done]); split; intros Hx; try done;
      try (right; exists info; split; [done|lia]).
    destruct Hx as [Hx|(info' & [= <-] & Hx)]; [done|lia].
  - split; [|done]. split; [by left|done].
Qed.

End Rotation.

Section RotationExamples.
#[local] Existing Instance SmallRuntime.runtime.

(** C5 as stated does not hold: a file whose size is unchanged and whose
    modification time moved two minutes forward is reported as rotated,
    and one whose modification time moved two minutes backward is not. *)
Lemma checkRotation_not_backward :
  let forward := Some (mkFileInfo 100 (1002 * Minute)) in
  let backward := Some (mkFileInfo 100 (998 * Minute)) in
  (fst (checkRotation Examples.watcher0 forward) = true /\
   ~ (forward = None \/
      exists info, forward = Some info /\
        (fi_Size info < fw_lastSize Examples.watcher0 \/
         fi_ModTime info < fw_lastModTime Examples.watcher0 - Minute))) /\
  (fst (checkRotation Examples.watcher0 backward) = false /\
   exists info, backward = Some info /\
     fi_ModTime info < fw_lastModTime Examples.watcher0 - Minute).
Proof.
  simpl. split; split.
  - reflexivity.
  - intros [Hx|(info & [= <-] & Hx)]; [done|]. simpl in Hx.
    unfold Minute, Second in Hx. lia.
  - reflexivity.
  - eexists; split; [reflexivity|]. simpl. unfold Minute, Second. lia.
Qed.

End RotationExamples.

Section TimeRangePredicate.
Context `{GoRuntime}.

(** C3, as the code has it.  For a line whose [Timestamp] field is the
    zero time, a [TimeRange] node evaluates to false, while the time-range
    axis of a simple filter is skipped: the line matches exactly as if the
    filter had no time range. *)
Theorem zero_timestamp_time_range (line : LogLine) (f : FilterEngine)
    (e : TimeRangeExpression) (q : CompiledQuery) :
  IsZero (Timestamp line) = true ->
  Evaluate (TimeRangeExpr e) line f = false /\
  matchLine f line q = matchLine f line (dropTimeRange q).
Proof.
  intros Hz. split.
  - simpl. unfold TimeRangeExpression_Evaluate. by rewrite Hz.
  - unfold matchLine. simpl. rewrite Hz. simpl. by destruct (cq_TimeRange q).
Qed.

End TimeRangePredicate.

Section TimeRangePredicateExamples.
#[local] Existing Instance SmallRuntime.runtime.

Lemma zero_timestamp_time_range_witness :
  let line := mkLogLine (lit "app.log:1") (lit "app.log") (lit "boom") zeroTime None [] [] 0 1 in
  let e := mkTimeRangeExpression 10 20 in
  let q := mkCompiledQuery false false None [] [] OpAND (Some (mkTimeRange 10 20)) ∅ ∅ in
  IsZero (Timestamp line) = true /\
  Evaluate (TimeRangeExpr e) line Examples.engine0 = false /\
  matchLine Examples.engine0 line q = matchLine Examples.engine0 line (dropTimeRange q).
Proof.
  intros line e q. split; [reflexivity|].
  apply (zero_timestamp_time_range (H := SmallRuntime.runtime) line Examples.engine0 e q).
  reflexivity.
Defined.

(** C3 as stated does not hold.  A line from which the parser extracts no
    timestamp keeps the wall-clock time the tailer gave it, and a
    [TimeRange] node around that instant accepts it; and a line whose
    timestamp is the zero time passes a simple filter that has a time
    range. *)
Lemma unparsed_timestamp_matches_time_range :
  let emitted := snd (emitLine Examples.watcher0 (lit "boom") Examples.wall0) in
  let q := mkCompiledQuery false false None [] [] OpAND (Some (mkTimeRange 10 20)) ∅ ∅ in
  let blank := mkLogLine (lit "app.log:1") (lit "app.log") (lit "boom") zeroTime None [] [] 0 1 in
  (exists line,
     ev_Line emitted = Some line /\
     extractTimestamp NewLogParser (Raw line) = zeroTime /\
     Evaluate
       (TimeRangeExpr (mkTimeRangeExpression (Examples.wall0 - Hour) (Examples.wall0 + Hour)))
       (ParseLogLine NewLogParser line) Examples.engine0 = true) /\
  matchLine Examples.engine0 blank q = true.
Proof.
  simpl. split; [|vm_compute; reflexivity].
  eexists. split; [reflexivity|]. split; vm_compute; reflexivity.
Qed.

End TimeRangePredicateExamples.

Section Pause.
Context `{GoRuntime}.

(** C6, as the code has it.  While the coordinator is paused a [NewLine]
    event is dropped before the parser runs: the model (both stores, the
    pending batch and everything else) and the line are left as they
    were. *)
Theorem paused_new_line_dropped (m : Model) (event : TailerEvent) :
  isPaused m = true ->
  ev_Type event = EventNewLine ->
  handleTailerEvent m event = Ok (m, ev_Line event).
Proof.
  intros Hp Ht. unfold handleTailerEvent. rewrite Ht, Hp. simpl.
  by destruct (ev_Line event).
Qed.

End Pause.

Section PauseExamples.
#[local] Existing Instance SmallRuntime.runtime.

Lemma paused_new_line_dropped_witness :
  let m := togglePause (Examples.model0 3) in
  let event := mkTailerEvent EventNewLine (lit "app.log") (Some Examples.emittedS2) None [] in
  isPaused m = true /\ ev_Type event = EventNewLine /\
  handleTailerEvent m event = Ok (m, ev_Line event).
Proof.
  intros m event. split; [reflexivity|]. split; [reflexivity|].
  apply (paused_new_line_dropped (H := SmallRuntime.runtime) m event); reflexivity.
Defined.

(** C6 as stated does not hold: handling the S2 line while paused leaves
    its [Parsed] and [Level] fields empty, where the parser step would
    have filled them. *)
Lemma paused_new_line_not_parsed :
  let m := togglePause (Examples.model0 3) in
  let event := mkTailerEvent EventNewLine (lit "app.log") (Some Examples.emittedS2) None [] in
  exists m' line,
    isPaused m = true /\
    handleTailerEvent m event = Ok (m', Some line) /\
    Level line = [] /\ Parsed line = None /\
    Level (ParseLogLine (m_parser m) Examples.emittedS2) = lit "ERROR" /\
    (Parsed (ParseLogLine (m_parser m) Examples.emittedS2) ≫= lookup (lit "msg"))
      = Some (VString (lit "bad gateway")).
Proof.
  simpl. eexists _, _. split; [reflexivity|]. split; [reflexivity|].
  split; [reflexivity|]. split; [reflexivity|]. split; vm_compute; reflexivity.
Qed.

End PauseExamples.


(** ** Parser idempotence, comparisons and filter installation *)

Section ParserIdempotence.
Context `{GoRuntime}.

Lemma setParsedFields_Raw p line parsed : Raw (setParsedFields p line parsed) = Raw line.
Proof.
  unfold setParsedFields.
  destruct (extractTimestampFromParsed p parsed) as [ts [|]];
    destruct (extractLevelFromParsed p parsed) as [lv [|]]; reflexivity.
Qed.

Lemma setParsedFields_idem p line parsed :
  setParsedFields p (setParsedFields p line parsed) parsed = setParsedFields p line parsed.
Proof.
  unfold setParsedFields.
  destruct (extractTimestampFromParsed p parsed) as [ts [|]];
    destruct (extractLevelFromParsed p parsed) as [lv [|]]; reflexivity.
Qed.

(** Whether a structured recogniser succeeds, and with which mapping,
    depends on the raw text alone. *)
Lemma tryParseJSON_cases p line :
  (tryParseJSON p line = (false, line) /\
   forall line', Raw line' = Raw line -> tryParseJSON p line' = (false, line')) \/
  (exists parsed, tryParseJSON p line = (true, setParsedFields p line parsed) /\
   forall line', Raw line' = Raw line ->
     tryParseJSON p line' = (true, setParsedFields p line' parsed)).
Proof.
  unfold tryParseJSON.
  destruct (negb _ || negb _) eqn:E1.
  - left. split; [done|]. intros line' ->. by rewrite E1.
  - destruct (json_Unmarshal _) as [parsed|] eqn:E2.
    + right. exists parsed. split; [done|]. intros line' ->. by rewrite E1, E2.
    + left. split; [done|]. intros line' ->. by rewrite E1, E2.
Qed.

Lemma tryParseYAML_cases p line :
  (tryParseYAML p line = (false, line) /\
   forall line', Raw line' = Raw line -> tryParseYAML p line' = (false, line')) \/
  (exists parsed, tryParseYAML p line = (true, setParsedFields p line parsed) /\
   forall line', Raw line' = Raw line ->
     tryParseYAML p line' = (true, setParsedFields p line' parsed)).
Proof.
  unfold tryParseYAML.
  destruct (negb (Contains _ _)) eqn:E1.
  { left. split; [done|]. intros line' ->. by rewrite E1. }
  destruct (_ || _) eqn:E2.
  { left. split; [done|]. intros line' ->. by rewrite E1, E2. }
  destruct (yaml_Unmarshal _) as [parsed|] eqn:E3.
  - destruct (Z.of_nat (size parsed) <? 2) eqn:E4.
    + left. split; [done|]. intros line' ->. by rewrite E1, E2, E3, E4.
    + right. exists parsed. split; [done|]. intros line' ->. by rewrite E1, E2, E3, E4.
  - left. split; [done|]. intros line' ->. by rewrite E1, E2, E3.
Qed.

Lemma parseUnstructured_Raw p line : Raw (parseUnstructured p line) = Raw line.
Proof.
  unfold parseUnstructured.
  destruct (IsZero (Timestamp line));
    [destruct (negb (IsZero (extractTimestamp p (Raw line))))|]; simpl;
    (destruct (str_eqb (Level line) []);
     [destruct (negb (str_eqb (extractLevel p (Raw line)) []))|]); reflexivity.
Qed.

Lemma parseUnstructured_idem p line :
  parseUnstructured p (parseUnstructured p line) = parseUnstructured p line.
Proof.
  unfold parseUnstructured.
  destruct (IsZero (Timestamp line)) eqn:Ez;
    [destruct (IsZero (extractTimestamp p (Raw line))) eqn:Et|]; simpl;
    (destruct (str_eqb (Level line) []) eqn:El;
     [destruct (str_eqb (extractLevel p (Raw line)) []) eqn:Ev|]); simpl;
    repeat (rewrite ?Ez, ?Et, ?El, ?Ev; simpl); reflexivity.
Qed.

(** C8. Parsing a record twice leaves it exactly as parsing it once. *)
Theorem ParseLogLine_idempotent (p : LogParser) (line : LogLine) :
  ParseLogLine p (ParseLogLine p line) = ParseLogLine p line.
Proof.
  unfold ParseLogLine at 2 3.
  destruct (str_eqb (Raw line) []) eqn:Er.
  { unfold ParseLogLine. by rewrite Er. }
  destruct (tryParseJSON_cases p line) as [[Hj Hj']|(parsed & Hj & Hj')]; rewrite Hj.
  - destruct (tryParseYAML_cases p line) as [[Hy Hy']|(parsed & Hy & Hy')]; rewrite Hy.
    + unfold ParseLogLine. rewrite parseUnstructured_Raw, Er.
      rewrite Hj' by apply parseUnstructured_Raw.
      rewrite Hy' by apply parseUnstructured_Raw.
      apply parseUnstructured_idem.
    + unfold ParseLogLine. rewrite setParsedFields_Raw, Er.
      rewrite Hj' by apply setParsedFields_Raw.
      rewrite Hy' by apply setParsedFields_Raw.
      apply setParsedFields_idem.
  - unfold ParseLogLine. rewrite setParsedFields_Raw, Er.
    rewrite Hj' by apply setParsedFields_Raw.
    apply setParsedFields_idem.
Qed.

End ParserIdempotence.

Section Comparison.
Context `{GoRuntime}.

Lemma matchComparison_gt fv qv :
  matchComparison fv qv (lit ":>") =
  match ParseFloat fv, ParseFloat qv with
  | Some a, Some b => float_gtb a b
  | _, _ => str_gtb fv qv
  end.
Proof. unfold matchComparison. by destruct (ParseFloat fv), (ParseFloat qv). Qed.

Lemma matchComparison_lt fv qv :
  matchComparison fv qv (lit ":<") =
  match ParseFloat fv, ParseFloat qv with
  | Some a, Some b => float_ltb a b
  | _, _ => str_ltb fv qv
  end.
Proof. unfold matchComparison. by destruct (ParseFloat fv), (ParseFloat qv). Qed.

Lemma matchComparison_ge fv qv :
  matchComparison fv qv (lit ":>=") =
  match ParseFloat fv, ParseFloat qv with
  | Some a, Some b => float_geb a b
  | _, _ => str_geb fv qv
  end.
Proof. unfold matchComparison. by destruct (ParseFloat fv), (ParseFloat qv). Qed.

Lemma matchComparison_le fv qv :
  matchComparison fv qv (lit ":<=") =
  match ParseFloat fv, ParseFloat qv with
  | Some a, Some b => float_leb a b
  | _, _ => str_leb fv qv
  end.
Proof. unfold matchComparison. by destruct (ParseFloat fv), (ParseFloat qv). Qed.

Lemma comparison_dispatch_holds : comparison_dispatch.
Proof.
  intros field value pattern line f fv node. unfold node. simpl.
  unfold FieldExpression_Evaluate, matchFieldExpression. simpl.
  rewrite <- matchComparison_gt, <- matchComparison_lt,
          <- matchComparison_ge, <- matchComparison_le.
  repeat split; reflexivity.
Qed.

End Comparison.

Section ComparisonExamples.
#[local] Existing Instance SmallRuntime.runtime.

(** C2, as the code has it.  A field node whose operator is one of [:>],
    [:<], [:>=], [:<=] compares numerically when both sides parse as
    numbers and byte-wise otherwise; on the record parsed from the S2 line,
    [status:500] does not match (502 is not 500), whether it is installed
    as an advanced or as a simple filter, and
    [level:WARN AND status:>=500] does not match. *)
Theorem comparison_and_S2 :
  (forall H : GoRuntime, @comparison_dispatch H) /\
  Examples.advancedMatch "status:500" Examples.lineS2 = Some false /\
  Examples.simpleMatch "status:500" false Examples.lineS2 = Some false /\
  Examples.advancedMatch "level:WARN AND status:>=500" Examples.lineS2 = Some false.
Proof.
  split; [intros H; apply comparison_dispatch_holds|].
  repeat split; vm_compute; reflexivity.
Qed.

(** C2 as stated does not hold on the S2 record: [status:500] does not
    match, and neither does [level:ERROR AND status:>=500], which is read
    as the field [status], the operator [:>] and the value [=500]. *)
Lemma S2_claimed_matches_fail :
  Examples.advancedMatch "status:500" Examples.lineS2 = Some false /\
  Examples.simpleMatch "status:500" false Examples.lineS2 = Some false /\
  Examples.advancedMatch "level:ERROR AND status:>=500" Examples.lineS2 = Some false /\
  ParseAdvancedQuery Examples.engine0 Examples.wall0 (lit "status:>=500") =
    Ok (FieldExpr (mkFieldExpression (lit "status") (lit ":>") (lit "=500") None)).
Proof. repeat split; vm_compute; reflexivity. Qed.

End ComparisonExamples.

Section FailedInstall.
Context `{GoRuntime}.

(** Evaluation reads the engine only to reach the parser's field lookup,
    which does not depend on the parser. *)
Lemma extractFieldValue_engine f f' line field :
  extractFieldValue f line field = extractFieldValue f' line field.
Proof. reflexivity. Qed.

Lemma Evaluate_engine e line f f' : Evaluate e line f = Evaluate e line f'.
Proof.
  induction e as [l IHl r IHr|l IHl r IHr|x IHx|fe|te|tr]; simpl;
    rewrite ?IHl, ?IHr, ?IHx; reflexivity.
Qed.

Lemma matchLine_engine f f' line q : matchLine f line q = matchLine f' line q.
Proof. reflexivity. Qed.

Lemma SetFilter_result f options f' r :
  SetFilter f options = Ok (f', r) ->
  fe_parser f' = fe_parser f /\
  advancedExpression f' = advancedExpression f /\
  lastOptions f' = options /\
  match r with
  | Some err =>
      compiledQuery f' = compiledQuery f /\
      exists cause, compileQuery options = Err cause /\
                    err = wrap_error "failed to compile query: " cause
  | None => exists query, compileQuery options = Ok query /\ compiledQuery f' = Some query
  end.
Proof.
  unfold SetFilter. destruct (compileQuery options) as [query|cause| |]; intros [= <- <-];
    simpl; eauto 10.
Qed.

Lemma SetAdvancedFilter_result f now query f' r :
  SetAdvancedFilter f now query = Ok (f', r) ->
  match r with
  | Some err =>
      f' = f /\ query <> [] /\
      exists cause, ParseAdvancedQuery f now query = Err cause /\
                    err = wrap_error "failed to parse advanced query: " cause
  | None =>
      (query = [] /\ f' = EngineClear f) \/
      (query <> [] /\ exists expr,
         ParseAdvancedQuery f now query = Ok expr /\
         advancedExpression f' = Some expr /\ fe_parser f' = fe_parser f /\
         lastOptions f' = lastOptions f)
  end.
Proof.
  unfold SetAdvancedFilter, str_eqb. case_bool_decide as Hq.
  - intros [= <- <-]. by left.
  - destruct (ParseAdvancedQuery f now query) as [expr|cause| |]; intros [= <- <-].
    + right. split; [done|]. exists expr. done.
    + split; [done|]. split; [done|]. by exists cause.
Qed.

(** When [SetFilter] or [SetAdvancedFilter] returns an error, the error
    is one message naming the cause, and the compiled predicate and the
    expression tree in force before the call are still in force: [Match]
    and [HasFilter] answer as before.  ([SetFilter] records the
    submitted options in [lastOptions] before compiling; no method that
    evaluates a filter reads that field.)  Not every query that fails to
    compile is answered with an error, though: a lone double quote makes
    the parser panic and an invalid time bound is installed as a field
    term, as shown further down. *)
Theorem failed_install_preserves_filter
    (f f' : FilterEngine) (now : Time) (options : FilterOptions)
    (query : gostring) (err : error) :
  SetFilter f options = Ok (f', Some err) \/
  SetAdvancedFilter f now query = Ok (f', Some err) ->
  compiledQuery f' = compiledQuery f /\
  advancedExpression f' = advancedExpression f /\
  fe_parser f' = fe_parser f /\
  (forall line, Match f' line = Match f line) /\
  HasFilter f' = HasFilter f /\
  exists cause,
    err = wrap_error "failed to compile query: " cause \/
    err = wrap_error "failed to parse advanced query: " cause.
Proof.
  intros [Hs|Ha].
  - apply SetFilter_result in Hs as (Hp & He & _ & Hc & cause & _ & ->).
    split; [done|]. split; [done|]. split; [done|]. split; [|split].
    + intros line. unfold Match. rewrite He, Hc.
      destruct (advancedExpression f); [apply Evaluate_engine|].
      by destruct (compiledQuery f).
    + unfold HasFilter. by rewrite He, Hc.
    + exists cause. by left.
  - apply SetAdvancedFilter_result in Ha as (-> & _ & cause & _ & ->).
    repeat split; try done. exists cause. by right.
Qed.

End FailedInstall.

Section FailedInstallExamples.
#[local] Existing Instance SmallRuntime.runtime.

(** A working filter, then a query with an unclosed parenthesis. *)
Lemma failed_install_preserves_filter_witness :
  let f := Examples.installed "level:ERROR" in
  let options := Examples.simpleOptions "" false in
  let query := lit "(status:>400 AND level:WARN" in
  let err := lit "failed to parse advanced query: missing closing parenthesis" in
  (SetFilter f options = Ok (f, Some err) \/
   SetAdvancedFilter f Examples.wall0 query = Ok (f, Some err)) /\
  compiledQuery f = compiledQuery f /\
  advancedExpression f = advancedExpression f /\
  fe_parser f = fe_parser f /\
  (forall line, Match f line = Match f line) /\
  HasFilter f = HasFilter f /\
  exists cause,
    err = wrap_error "failed to compile query: " cause \/
    err = wrap_error "failed to parse advanced query: " cause.
Proof.
  intros f options query err.
  assert (Hfail : SetAdvancedFilter f Examples.wall0 query = Ok (f, Some err))
    by reflexivity.
  split; [right; exact Hfail|].
  exact (failed_install_preserves_filter f f Examples.wall0 options query err
           (or_intror Hfail)).
Defined.

End FailedInstallExamples.

Section Precedence.
Context `{GoRuntime}.

(** C10. Once [SetAdvancedFilter q] has stored the tree [e] of [q], a
    later successful [SetFilter] leaves [e] in place and [Match] keeps
    evaluating [e], not the newly compiled flat predicate.  No later
    [SetFilter] removes the tree, a later [SetAdvancedFilter] only replaces
    it by another tree unless its query is empty, in which case it calls
    [Clear]; [Clear] removes it. *)
Theorem advanced_expression_takes_precedence
    (f f1 f2 : FilterEngine) (now : Time) (q : gostring)
    (options : FilterOptions) (e : QueryExpression) :
  SetAdvancedFilter f now q = Ok (f1, None) ->
  advancedExpression f1 = Some e ->
  SetFilter f1 options = Ok (f2, None) ->
  ParseAdvancedQuery f now q = Ok e /\
  (exists query, compileQuery options = Ok query /\ compiledQuery f2 = Some query) /\
  advancedExpression f2 = Some e /\
  (forall line, Match f2 line = Evaluate e line f2) /\
  (forall options' f3 r,
     SetFilter f2 options' = Ok (f3, r) -> advancedExpression f3 = Some e) /\
  (forall now' q' f3 r,
     SetAdvancedFilter f2 now' q' = Ok (f3, r) ->
     advancedExpression f3 = None -> q' = [] /\ f3 = EngineClear f2) /\
  advancedExpression (EngineClear f2) = None /\
  (forall line, Match (EngineClear f2) line = false).
Proof.
  intros Ha He Hs.
  apply SetAdvancedFilter_result in Ha as [[-> ->]|(Hq & e' & Hp & He' & _)];
    [done|].
  assert (e' = e) as -> by congruence.
  apply SetFilter_result in Hs as (_ & Hadv & _ & Hc).
  rewrite He in Hadv.
  split; [done|]. split; [done|]. split; [done|]. split; [|split; [|split]].
  - intros line. unfold Match. by rewrite Hadv.
  - intros options' f3 r H3. apply SetFilter_result in H3 as (_ & H3 & _). congruence.
  - intros now' q' f3 r H3 Hn. apply SetAdvancedFilter_result in H3.
    destruct r as [err|].
    + destruct H3 as (-> & _). congruence.
    + destruct H3 as [[-> ->]|(_ & e3 & _ & H3 & _)]; [done|congruence].
  - done.
Qed.

End Precedence.

Section PrecedenceExamples.
#[local] Existing Instance SmallRuntime.runtime.

(** [level:ERROR AND status:>400] installed as an advanced filter, then
    the simple filter [timeout]. *)
Lemma advanced_expression_takes_precedence_witness :
  let q := "level:ERROR AND status:>400"%string in
  let f1 := Examples.installed q in
  let f2 := Examples.thenSimple f1 "timeout" in
  let e :=
    AndExpression
      (FieldExpr (mkFieldExpression (lit "level") (lit ":") (lit "ERROR") None))
      (FieldExpr (mkFieldExpression (lit "status") (lit ":>") (lit "400") None)) in
  SetAdvancedFilter Examples.engine0 Examples.wall0 (lit q) = Ok (f1, None) /\
  advancedExpression f1 = Some e /\
  SetFilter f1 (Examples.simpleOptions "timeout" false) = Ok (f2, None) /\
  advancedExpression f2 = Some e /\
  (forall line, Match f2 line = Evaluate e line f2) /\
  advancedExpression (EngineClear f2) = None.
Proof.
  intros q f1 f2 e.
  assert (Ha : SetAdvancedFilter Examples.engine0 Examples.wall0 (lit q) = Ok (f1, None))
    by reflexivity.
  assert (He : advancedExpression f1 = Some e) by reflexivity.
  assert (Hs : SetFilter f1 (Examples.simpleOptions "timeout" false) = Ok (f2, None))
    by reflexivity.
  destruct (advanced_expression_takes_precedence Examples.engine0 f1 f2 Examples.wall0
              (lit q) (Examples.simpleOptions "timeout" false) e Ha He Hs)
    as (_ & _ & H2 & H3 & _ & _ & H4 & _).
  auto 10.
Defined.

End PrecedenceExamples.

(** ** Completeness of a filter change *)

Section FilterChange.
Context `{GoRuntime}.

Lemma lastn_nil_inv {A} (n : nat) (l : list A) : (0 < n)%nat -> lastn n l = [] -> l = [].
Proof.
  intros Hn Hl. apply (f_equal length) in Hl. rewrite lastn_length in Hl.
  destruct l as [|a l]; [done|]. cbn [length] in Hl. lia.
Qed.


Lemma lastn_app_nil {A} (n : nat) (l : list A) : lastn n (l ++ []) = lastn n l.
Proof. by rewrite app_nil_r. Qed.

Lemma contents_le_capacity cb : cb_wf cb -> (length (contents cb) <= Z.to_nat (cb_capacity cb))%nat.
Proof. intros [? ? ? ? ?]. rewrite contents_length. lia. Qed.

Lemma lastn_contents cb : cb_wf cb -> lastn (Z.to_nat (cb_capacity cb)) (contents cb) = contents cb.
Proof. intros Hwf. apply lastn_all. by apply contents_le_capacity. Qed.

(** One iteration of the loop of [processBatch]. *)
Lemma processLine_spec (m : Model) (k : Z) (line : LogLine) :
  cb_wf (allLinesBuffer m) -> cb_wf (filteredBuffer m) ->
  exists m' k',
    processLine line (m, k) = Ok (m', k') /\
    m_filter m' = m_filter m /\
    cb_wf (allLinesBuffer m') /\
    cb_capacity (allLinesBuffer m') = cb_capacity (allLinesBuffer m) /\
    contents (allLinesBuffer m') =
      lastn (Z.to_nat (cb_capacity (allLinesBuffer m)))
            (contents (allLinesBuffer m) ++ [Some line]) /\
    cb_wf (filteredBuffer m') /\
    cb_capacity (filteredBuffer m') = cb_capacity (filteredBuffer m) /\
    contents (filteredBuffer m') =
      lastn (Z.to_nat (cb_capacity (filteredBuffer m)))
            (contents (filteredBuffer m) ++
             (Some <$> List.filter (fun l => HasFilter (m_filter m) && Match (m_filter m) l) [line])).
Proof.
  intros Ha Hf. unfold processLine.
  destruct (Add_spec (allLinesBuffer m) line Ha) as (a' & -> & Ha' & Hca & Hcont).
  simpl.
  destruct (HasFilter (m_filter m) && Match (m_filter m) line) eqn:E.
  - destruct (Add_spec (filteredBuffer m) line Hf) as (f' & -> & Hf' & Hcf & Hcontf).
    simpl. eexists _, _. split; [reflexivity|]. simpl. split_and!; done.
  - eexists _, _. split; [reflexivity|]. simpl. split_and!; try done.
    by rewrite app_nil_r, lastn_contents.
Qed.

Lemma processLines_spec (ls : list LogLine) : forall (m : Model) (k : Z),
  cb_wf (allLinesBuffer m) -> cb_wf (filteredBuffer m) ->
  exists m' k',
    processLines ls (m, k) = Ok (m', k') /\
    m_filter m' = m_filter m /\
    cb_wf (allLinesBuffer m') /\
    cb_capacity (allLinesBuffer m') = cb_capacity (allLinesBuffer m) /\
    contents (allLinesBuffer m') =
      lastn (Z.to_nat (cb_capacity (allLinesBuffer m)))
            (contents (allLinesBuffer m) ++ (Some <$> ls)) /\
    cb_wf (filteredBuffer m') /\
    cb_capacity (filteredBuffer m') = cb_capacity (filteredBuffer m) /\
    contents (filteredBuffer m') =
      lastn (Z.to_nat (cb_capacity (filteredBuffer m)))
            (contents (filteredBuffer m) ++
             (Some <$> List.filter (fun l => HasFilter (m_filter m) && Match (m_filter m) l) ls)).
Proof.
  induction ls as [|l ls IH]; intros m k Ha Hf.
  - exists m, k. simpl. rewrite !app_nil_r, !lastn_contents by done. split_and!; done.
  - destruct (processLine_spec m k l Ha Hf)
      as (m1 & k1 & E1 & Hfl1 & Ha1 & Hca1 & Hc1 & Hf1 & Hcf1 & Hcc1).
    destruct (IH m1 k1 Ha1 Hf1)
      as (m2 & k2 & E2 & Hfl2 & Ha2 & Hca2 & Hc2 & Hf2 & Hcf2 & Hcc2).
    exists m2, k2. cbn [processLines]. rewrite E1. cbn [obind]. rewrite E2.
    split; [done|]. split; [congruence|]. split; [done|]. split; [congruence|].
    split; [|split; [done|split; [congruence|]]].
    + rewrite Hc2, Hc1, Hca1, lastn_app_lastn, <- app_assoc. done.
    + rewrite Hcc2, Hcc1, Hcf1, Hfl1, lastn_app_lastn, <- app_assoc.
      do 2 f_equal. simpl.
      destruct (HasFilter (m_filter m) && Match (m_filter m) l); done.
Qed.

(** [processBatch] never panics on a well-formed model and keeps it so. *)
Lemma processBatch_spec (m : Model) :
  model_wf m ->
  exists m', processBatch m = Ok m' /\ m_filter m' = m_filter m /\ model_wf m'.
Proof.
  intros [Ha Hf Hcap Hemp]. unfold processBatch.
  destruct (Z.of_nat (length (pendingLines (simpleBatcher m))) =? 0) eqn:E.
  { exists m. split_and!; done. }
  cbn [time_Now].
  set (m0 := set_clockReads m (S (clockReads m))).
  destruct (processLines_spec (pendingLines (simpleBatcher m)) m0 0 Ha Hf)
    as (m1 & k1 & E1 & Hfl & Ha1 & Hca1 & Hc1 & Hf1 & Hcf1 & Hcc1).
  rewrite E1. cbn [obind].
  eexists. split; [reflexivity|].
  assert (Hne : pendingLines (simpleBatcher m) <> []).
  { intros Hn. rewrite Hn in E. simpl in E. done. }
  destruct (batchSize (simpleBatcher m) <=? _); simpl;
    (split; [exact Hfl|]); constructor; simpl; try done;
    subst m0; simpl in *; try congruence.
  all: intros Hnil; rewrite Hc1 in Hnil;
    apply lastn_nil_inv in Hnil; [|destruct Ha; simpl; lia];
    apply app_eq_nil in Hnil as [_ Hnil]; apply fmap_nil_inv in Hnil; done.
Qed.

Lemma scan_inv_status m0 k m msg :
  scan_inv m0 k m -> scan_inv m0 k (setStatusMessage m msg).
Proof. intros Hi. exact Hi. Qed.






(** *** Installing a filter leaves a filter in force *)

Lemma HasPrefix_single (s : gostring) (c : ascii) :
  HasPrefix s [c] = true <-> head s = Some c.
Proof.
  destruct s as [|d s]; simpl; [split; discriminate|].
  destruct (decide (c = d)) as [->|Hne].
  - destruct s; done.
  - split; [discriminate|]. intros [= ->]. done.
Qed.

Lemma Contains_single (s : gostring) (c : ascii) : Contains s [c] = true <-> c ∈ s.
Proof.
  unfold Contains. induction s as [|d s IH].
  - simpl. split; [discriminate|]. by intros ?%elem_of_nil.
  - cbn [Index]. destruct (HasPrefix (d :: s) [c]) eqn:Ep.
    + apply HasPrefix_single in Ep. injection Ep as ->. split; [|done]. intros _. left.
    + assert (c <> d).
      { intros ->. assert (HasPrefix (d :: s) [d] = true) by by apply HasPrefix_single.
        congruence. }
      rewrite elem_of_cons. destruct (Index s [c]); simpl in *; split; intros Hx.
      * right. by apply IH.
      * done.
      * done.
      * destruct Hx as [->|Hx]; [done|]. by apply IH in Hx.
Qed.






Lemma keywordOf_nonempty query text : text <> [] -> keywordOf query text <> [].
Proof.
  intros Hne. unfold keywordOf. destruct (negb _); [by apply ToLower_nonempty|done].
Qed.




Lemma filter_none {A} (g : A -> bool) (l : list A) :
  (forall x, g x = false) -> List.filter g l = [].
Proof. intros Hg. induction l as [|x l IH]; simpl; [done|]. by rewrite Hg. Qed.





(** The hypothesis of the theorem holds of every model the program
    builds: of a new model, and after every tailer event and every
    [clearFilter]. *)
Lemma NewModel_wf (maxBufferLines : Z) (wall : nat -> Time) :
  0 < maxBufferLines ->
  exists m, NewModel maxBufferLines wall = Ok m /\ model_wf m.
Proof.
  intros Hc. unfold NewModel.
  destruct (NewCircularBuffer_wf maxBufferLines Hc) as (cb & -> & Hwf & Hcap & Hcont).
  cbn [obind]. eexists. split; [reflexivity|].
  destruct (Clear_wf cb Hwf) as (Hcw & Hcc & Hce).
  constructor; simpl; done.
Qed.

Lemma AddLine_wf (m : Model) (line : LogLine) :
  model_wf m ->
  exists m', AddLine m line = Ok m' /\ m_filter m' = m_filter m /\ model_wf m'.
Proof.
  intros Hwf. unfold AddLine. cbn [time_Now].
  match goal with
  | |- context [ if ?c then processBatch ?m1 else _ ] =>
      assert (Hwf1 : model_wf m1) by (destruct Hwf; constructor; done);
      destruct c
  end.
  - destruct (processBatch_spec _ Hwf1) as (m' & -> & Hf & Hwf'). by exists m'.
  - eexists. split; [reflexivity|]. done.
Qed.

Lemma autoScrollToBottom_wf (m : Model) : model_wf m -> model_wf (autoScrollToBottom m).
Proof. intros [? ? ? ?]. constructor; done. Qed.

Lemma handleTailerEvent_wf (m : Model) (event : TailerEvent) :
  model_wf m ->
  exists m' line,
    handleTailerEvent m event = Ok (m', line) /\
    m_filter m' = m_filter m /\ model_wf m'.
Proof.
  intros Hwf. unfold handleTailerEvent.
  destruct (ev_Type event).
  - destruct (ev_Line event) as [line|]; [|by eexists _, _].
    destruct (negb (isPaused m)); [|by eexists _, _].
    unfold addLogLine.
    destruct (AddLine_wf m (ParseLogLine (m_parser m) line) Hwf) as (m1 & -> & Hf1 & Hwf1).
    cbn [obind time_Now].
    match goal with |- context [ if ?c then _ else _ ] => destruct c end;
      cbn [obind]; eexists _, _; (split; [reflexivity|]); (split; [exact Hf1|]);
      destruct Hwf1; constructor; done.
  - eexists _, _. split; [reflexivity|]. split; [done|].
    destruct Hwf; constructor; done.
  - eexists _, _. split; [reflexivity|]. split; [done|].
    destruct Hwf; constructor; done.
  - by eexists _, _.
Qed.

Lemma clearFilter_wf (m : Model) :
  model_wf m -> exists m', clearFilter m = Ok m' /\ model_wf m'.
Proof.
  intros [Ha Hf Hcap Hemp]. unfold clearFilter.
  destruct (Clear_wf _ Hf) as (Hcw & Hcc & Hce).
  match goal with
  | |- context [ ForceBatch ?m1 ] =>
      assert (Hwf1 : model_wf m1) by (constructor; simpl; try done; congruence)
  end.
  unfold ForceBatch. destruct (processBatch_spec _ Hwf1) as (m' & -> & _ & Hwf').
  cbn [obind]. eexists. split; [reflexivity|].
  destruct Hwf'; constructor; done.
Qed.


End FilterChange.

Section FilterChangeExamples.
#[local] Existing Instance SmallRuntime.runtime.




End FilterChangeExamples.

(** ** Printing a query and parsing it again *)

Section RoundTrip.
Context `{GoRuntime}.

(** *** The scanner on a known suffix *)

Lemma skipWhitespace_at (inp s : gostring) (i : nat) :
  drop i inp = s ->
  skipWhitespace (mkAQP inp i) = mkAQP inp (i + span isBlank s).
Proof. intros <-. reflexivity. Qed.

Lemma span_head_false (P : ascii -> bool) (c : ascii) (s : gostring) :
  P c = false -> span P (c :: s) = 0%nat.
Proof. intros Hc. simpl. by rewrite Hc. Qed.

Lemma skipWhitespace_id (inp s : gostring) (i : nat) (c : ascii) :
  drop i inp = c :: s -> isBlank c = false ->
  skipWhitespace (mkAQP inp i) = mkAQP inp i.
Proof.
  intros Hd Hc. rewrite (skipWhitespace_at inp (c :: s) i Hd).
  by rewrite span_head_false, Nat.add_0_r.
Qed.

Lemma drop_le_length {A} (l : list A) (n : nat) (x : A) (s : list A) :
  drop n l = x :: s -> (n < length l)%nat.
Proof.
  intros Hd. destruct (decide (n < length l)%nat); [done|].
  rewrite drop_ge in Hd by lia. done.
Qed.

Lemma drop_drop_eq {A} (l : list A) (n k : nat) (s : list A) :
  drop n l = s -> drop (n + k) l = drop k s.
Proof. intros <-. by rewrite drop_drop. Qed.

Lemma lookup_drop_eq {A} (l : list A) (n k : nat) (s : list A) :
  drop n l = s -> l !! (n + k)%nat = s !! k.
Proof. intros <-. by rewrite lookup_drop. Qed.

Lemma Forall_ascii_drop_take (inp : gostring) (n k : nat) :
  Forall is_ascii inp -> Forall (fun c => byte_val c < 128) (take k (drop n inp)).
Proof. intros Hf. by apply Forall_take, Forall_drop. Qed.

(** [matchKeyword] at a position whose suffix begins with a byte that is
    not blank. *)
Lemma matchKeyword_at (inp s kw : gostring) (i : nat) (c : ascii) :
  Forall is_ascii inp ->
  drop i inp = c :: s ->
  isBlank c = false ->
  matchKeyword (mkAQP inp i) kw =
    if (length (c :: s) <? length kw)%nat then (false, mkAQP inp i)
    else if str_eqb (map ascii_upper (take (length kw) (c :: s))) kw then
      match (c :: s) !! length kw with
      | Some ch =>
          if isAlphaNumeric ch then (false, mkAQP inp i)
          else (true, mkAQP inp (i + length kw))
      | None => (true, mkAQP inp (i + length kw))
      end
    else (false, mkAQP inp i).
Proof.
  intros Ha Hd Hc. unfold matchKeyword.
  rewrite (skipWhitespace_at inp (c :: s) i Hd), span_head_false by done.
  rewrite Nat.add_0_r. cbn [input pos setPos].
  pose proof (drop_le_length _ _ _ _ Hd) as Hlt.
  assert (Hlen : length (c :: s) = (length inp - i)%nat).
  { rewrite <- Hd. apply length_drop. }
  replace (length inp <? i + length kw)%nat with (length (c :: s) <? length kw)%nat.
  2: { rewrite Hlen. destruct (Nat.ltb_spec (length inp - i) (length kw));
       destruct (Nat.ltb_spec (length inp) (i + length kw)); lia. }
  destruct (length (c :: s) <? length kw)%nat; [done|].
  unfold slice. replace (i + length kw - i)%nat with (length kw) by lia.
  rewrite ToUpper_ascii by (by apply Forall_ascii_drop_take).
  rewrite Hd. cbv zeta. unfold gostring in *. rewrite (lookup_drop_eq inp i (length kw) (c :: s) Hd).
  done.
Qed.

(** The keyword is not there: the first byte already differs. *)
Lemma matchKeyword_fail_head (inp s kw : gostring) (i : nat) (c : ascii) :
  Forall is_ascii inp ->
  drop i inp = c :: s ->
  isBlank c = false ->
  match kw with k :: _ => ascii_upper c <> k | [] => False end ->
  matchKeyword (mkAQP inp i) kw = (false, mkAQP inp i).
Proof.
  intros Ha Hd Hc Hk. destruct kw as [|k kw]; [done|].
  rewrite (matchKeyword_at inp s (k :: kw) i c) by done.
  destruct (_ <? _)%nat; [done|].
  unfold str_eqb. case_bool_decide as Heq; [|done].
  simpl in Heq. injection Heq as Heq _. done.
Qed.

(** The keyword is there, followed by a byte that is not alphanumeric. *)
Lemma matchKeyword_ok (inp s kw : gostring) (i : nat) (ch : ascii) :
  Forall is_ascii inp ->
  drop i inp = kw ++ ch :: s ->
  match kw with k :: _ => isBlank k = false | [] => False end ->
  map ascii_upper kw = kw ->
  isAlphaNumeric ch = false ->
  matchKeyword (mkAQP inp i) kw = (true, mkAQP inp (i + length kw)).
Proof.
  intros Ha Hd Hk Hup Hch. destruct kw as [|k kw]; [done|].
  rewrite (matchKeyword_at inp (kw ++ ch :: s) (k :: kw) i k) by done.
  change (k :: kw ++ ch :: s) with ((k :: kw) ++ ch :: s).
  destruct (Nat.ltb_spec (length ((k :: kw) ++ ch :: s)) (length (k :: kw))) as [Hl|_].
  { rewrite length_app in Hl. simpl in Hl. lia. }
  rewrite take_app_length, Hup. unfold str_eqb. rewrite bool_decide_eq_true_2 by done.
  rewrite lookup_app_r by lia. rewrite Nat.sub_diag. simpl. by rewrite Hch.
Qed.

Lemma span_app_stop (P : ascii -> bool) (tok rest : gostring) :
  Forall (fun c => P c = true) tok ->
  match rest with [] => True | c :: _ => P c = false end ->
  span P (tok ++ rest) = length tok.
Proof.
  intros Ht Hr. induction Ht as [|c tok Hc Ht IH]; simpl.
  - destruct rest as [|c rest]; [done|]. simpl. by rewrite Hr.
  - by rewrite Hc, IH.
Qed.

Lemma follow_ok_tokenByte rest :
  follow_ok rest -> match rest with [] => True | c :: _ => tokenByte c = false end.
Proof. destruct rest as [|c rest]; [done|]. intros [->| ->]; reflexivity. Qed.

Lemma HasPrefix_app_false (s t p : gostring) :
  HasPrefix s p = false ->
  match t with [] => True | c :: _ => c ∉ p end ->
  HasPrefix (s ++ t) p = false.
Proof.
  revert s. induction p as [|c p IH]; intros s Hs Ht; [by destruct s|].
  destruct s as [|d s]; simpl in *.
  - destruct t as [|x t]; [done|]. simpl.
    destruct (decide (c = x)) as [->|]; [|done]. exfalso. apply Ht. by left.
  - destruct (decide (c = d)); [|done]. apply IH; [done|].
    destruct t as [|x t]; [done|]. intros Hin. apply Ht. by right.
Qed.

(** [parseToken] on a regular token followed by what may follow. *)
Lemma parseToken_regular (inp tok rest : gostring) (i : nat) :
  drop i inp = tok ++ rest ->
  tok <> [] ->
  Forall (fun c => tokenByte c = true) tok ->
  head tok <> Some quote ->
  HasPrefix (tok ++ rest) (lit "time:[") = false ->
  follow_ok rest ->
  parseToken (mkAQP inp i) = (tok, mkAQP inp (i + length tok)).
Proof.
  intros Hd Hne Ht Hq Htime Hf. unfold parseToken.
  destruct tok as [|c tok]; [done|].
  assert (Hc : isBlank c = false).
  { apply Forall_cons in Ht as [Hc _]. unfold tokenByte, isWhitespace in Hc.
    unfold isBlank. destruct (bool_decide (c = " "%char)); [done|].
    destruct (bool_decide (c = ascii_of_nat 9)); done. }
  rewrite (skipWhitespace_id inp (tok ++ rest) i c Hd Hc).
  cbn [input pos setPos]. rewrite Hd.
  change ((c :: tok) ++ rest) with (c :: (tok ++ rest)). cbv iota beta zeta.
  destruct (decide (c = quote)) as [->|_]; [done|].
  change (c :: (tok ++ rest)) with ((c :: tok) ++ rest). rewrite Htime.
  change (fun ch : ascii => negb (isWhitespace ch) && negb (bool_decide (ch = "("%char)) &&
                         negb (bool_decide (ch = ")"%char))) with tokenByte.
  rewrite (span_app_stop _ (c :: tok) rest Ht (follow_ok_tokenByte rest Hf)).
  unfold slice. replace (i + length (c :: tok) - i)%nat with (length (c :: tok)) by lia.
  rewrite Hd, take_app_length. done.
Qed.

(** No expression starts at a closing parenthesis. *)
Lemma lookahead_close (inp s : gostring) (i : nat) :
  drop i inp = ")"%char :: s ->
  lookaheadForExpression (mkAQP inp i) = false.
Proof.
  intros Hd. unfold lookaheadForExpression, parseToken.
  rewrite (skipWhitespace_id inp s i _ Hd eq_refl).
  cbn [input pos setPos]. rewrite Hd. cbv iota beta zeta.
  destruct (decide (")"%char = quote)) as [Hx|_]; [discriminate Hx|].
  cbn [HasPrefix lit list_ascii_of_string].
  destruct (decide ("t"%char = ")"%char)) as [Hx|_]; [discriminate Hx|].
  rewrite span_head_false by done. unfold slice.
  by replace (i + 0 - i)%nat with 0%nat by lia.
Qed.

(** Nor at the keyword [OR]. *)
Lemma lookahead_or (inp s : gostring) (i : nat) :
  drop i inp = lit "OR " ++ s ->
  lookaheadForExpression (mkAQP inp i) = false.
Proof.
  intros Hd. unfold lookaheadForExpression.
  rewrite (parseToken_regular inp (lit "OR") (" "%char :: s) i); try done.
  - repeat constructor.
  - by left.
Qed.


Lemma drop_cons_eq {A} (l : list A) (n : nat) (x : A) (s : list A) :
  drop n l = x :: s -> drop (S n) l = s.
Proof. intros Hd. rewrite <- (Nat.add_1_r n), (drop_drop_eq l n 1 _ Hd). done. Qed.

Lemma drop_app_eq {A} (l : list A) (n : nat) (a s : list A) :
  drop n l = a ++ s -> drop (n + length a) l = s.
Proof. intros Hd. rewrite (drop_drop_eq l n _ _ Hd). by rewrite drop_app_length. Qed.

Lemma lookup_drop_head (l : gostring) (n : nat) (x : ascii) (s : gostring) :
  drop n l = x :: s -> l !! n = Some x.
Proof.
  intros Hd. rewrite <- (Nat.add_0_r n). unfold gostring in *.
  by rewrite (lookup_drop_eq l n 0 _ Hd).
Qed.

Lemma skipWhitespace_one (inp s : gostring) (i : nat) (c : ascii) :
  drop i inp = " "%char :: c :: s -> isBlank c = false ->
  skipWhitespace (mkAQP inp i) = mkAQP inp (S i).
Proof.
  intros Hd Hc. rewrite (skipWhitespace_at inp _ i Hd).
  change (span isBlank (" "%char :: c :: s)) with (S (span isBlank (c :: s))).
  rewrite span_head_false by done. f_equal. lia.
Qed.

(** [parseToken] on a quoted token. *)
Lemma parseToken_quoted (inp text rest : gostring) (i : nat) :
  drop i inp = (quote :: text ++ [quote]) ++ rest ->
  quote ∉ text ->
  parseToken (mkAQP inp i) =
    (quote :: text ++ [quote], mkAQP inp (i + length (quote :: text ++ [quote]))).
Proof.
  intros Hd Hq. unfold parseToken.
  rewrite (skipWhitespace_id inp ((text ++ [quote]) ++ rest) i quote Hd eq_refl).
  cbn [input pos setPos]. rewrite Hd.
  change ((quote :: text ++ [quote]) ++ rest) with (quote :: ((text ++ [quote]) ++ rest)).
  cbv iota beta zeta. destruct (decide (quote = quote)) as [_|Hx]; [|done].
  rewrite <- (app_assoc text [quote] rest).
  rewrite (span_app_stop _ text ([quote] ++ rest)).
  2: { apply Forall_forall. intros c Hc. apply negb_true_iff, bool_decide_eq_false.
       intros ->. done. }
  2: { reflexivity. }
  assert (Hlen : length (drop i inp) = (length text + 2 + length rest)%nat).
  { rewrite Hd. simpl. rewrite !length_app. simpl. lia. }
  rewrite length_drop in Hlen.
  destruct (Nat.ltb_spec (i + 1 + length text) (length inp)) as [_|Hx]; [|lia].
  unfold slice. rewrite Hd.
  replace (S (i + 1 + length text) - i)%nat with (length (quote :: text ++ [quote])).
  2: { simpl. rewrite length_app. simpl. lia. }
  rewrite take_app_length. do 2 f_equal. simpl. rewrite length_app. simpl. lia.
Qed.

(** *** Expressions that are read back *)

Lemma graphicByte_spec (c : ascii) :
  graphicByte c = true ->
  33 <= byte_val c <= 126 /\ tokenByte c = true /\ isBlank c = false /\
  c <> "("%char /\ is_ascii c.
Proof.
  unfold graphicByte, tokenByte, isWhitespace, isBlank, is_ascii.
  intros Hg. repeat (apply andb_true_iff in Hg as [Hg ?]).
  apply Z.leb_le in Hg. assert (byte_val c <= 126) by (by apply Z.leb_le).
  assert (Hne : forall d : ascii, byte_val d < 33 -> bool_decide (c = d) = false).
  { intros d Hd. apply bool_decide_eq_false. intros ->. lia. }
  rewrite !Hne by (by vm_compute).
  split_and!; try done; try lia.
  - by rewrite andb_true_iff.
  - intros ->. done.
Qed.

Lemma readable_ascii (tok : gostring) : readable tok -> Forall is_ascii tok.
Proof.
  intros (_ & [(_ & Hg & _)|(text & -> & _ & Ha)]).
  - eapply Forall_impl; [exact Hg|]. intros c Hc. by destruct (graphicByte_spec c Hc) as (? & ? & ? & ? & ?).
  - apply Forall_cons. split; [by vm_compute|].
    apply Forall_app. split; [done|]. apply Forall_cons. split; [by vm_compute|done].
Qed.

Lemma readable_head (tok : gostring) :
  readable tok ->
  exists c s, tok = c :: s /\ isBlank c = false /\ c <> "("%char /\
              33 <= byte_val c <= 126.
Proof.
  intros (_ & [(Hne & Ht & _)|(text & -> & _)]).
  - destruct tok as [|c s]; [done|]. exists c, s.
    apply Forall_cons in Ht as [Hc _].
    by destruct (graphicByte_spec c Hc) as (? & ? & ? & ? & ?).
  - exists quote, (text ++ [quote]). split_and!; done.
Qed.

Lemma readable_last (tok : gostring) (c : ascii) :
  readable tok -> last tok = Some c -> 33 <= byte_val c <= 126.
Proof.
  intros (_ & [(Hne & Ht & _)|(text & -> & _)]) Hl.
  - apply last_Some in Hl as (s & ->). apply Forall_app in Ht as [_ Ht].
    apply Forall_cons in Ht as [Hc _]. by destruct (graphicByte_spec c Hc) as (? & ? & ? & ? & ?).
  - change (quote :: text ++ [quote]) with ((quote :: text) ++ [quote]) in Hl.
    rewrite last_snoc in Hl. injection Hl as <-. done.
Qed.

Lemma readable_token (inp tok rest : gostring) (i : nat) :
  readable tok ->
  drop i inp = tok ++ rest ->
  follow_ok rest ->
  parseToken (mkAQP inp i) = (tok, mkAQP inp (i + length tok)).
Proof.
  intros (_ & [(Hne & Ht & Hq & Htime)|(text & -> & Hq & _)]) Hd Hf.
  - apply parseToken_regular with rest; try done.
    + eapply Forall_impl; [exact Ht|]. intros c Hc. by destruct (graphicByte_spec c Hc) as (? & ? & ? & ? & ?).
    + apply HasPrefix_app_false; [done|].
      destruct rest as [|c rest]; [done|]. destruct Hf as [->| ->].
      * intros Hin. by repeat (apply elem_of_cons in Hin as [?|Hin]; [done|]; try apply elem_of_nil in Hin).
      * intros Hin. by repeat (apply elem_of_cons in Hin as [?|Hin]; [done|]; try apply elem_of_nil in Hin).
  - by apply parseToken_quoted with rest.
Qed.

Lemma str_eqb_false_at (a b : gostring) (n : nat) (x y : ascii) :
  a !! n = Some x -> b !! n = Some y -> x <> y -> str_eqb a b = false.
Proof.
  intros Ha Hb Hxy. unfold str_eqb. apply bool_decide_eq_false. intros ->.
  rewrite Ha in Hb. by injection Hb.
Qed.

(** A readable token is not taken for the keyword [NOT]. *)
Lemma matchKeyword_not_leaf (inp tok rest : gostring) (i : nat) :
  Forall is_ascii inp ->
  readable tok ->
  drop i inp = tok ++ rest ->
  follow_ok rest ->
  matchKeyword (mkAQP inp i) (lit "NOT") = (false, mkAQP inp i).
Proof.
  intros Ha Hr Hd Hf. destruct (readable_head tok Hr) as (c & s & -> & Hc & _ & _).
  destruct Hr as (Hn & _).
  rewrite (matchKeyword_at inp (s ++ rest) (lit "NOT") i c Ha Hd Hc).
  unfold startsWithNot in Hn.
  destruct s as [|b [|d [|e s]]]; simpl in Hn |- *.
  - destruct rest as [|x [|y rest]]; simpl; [done|done|].
    rewrite (str_eqb_false_at _ (lit "NOT") 1 (ascii_upper x) "O"%char); [done|done|done|].
    destruct Hf as [->| ->]; by vm_compute.
  - destruct rest as [|x rest]; simpl; [done|].
    rewrite (str_eqb_false_at _ (lit "NOT") 2 (ascii_upper x) "T"%char); [done|done|done|].
    destruct Hf as [->| ->]; by vm_compute.
  - rewrite andb_true_r in Hn. by rewrite Hn.
  - destruct (str_eqb _ _); [|done]. simpl in Hn.
    apply negb_false_iff in Hn. by rewrite Hn.
Qed.


Lemma printed_head (e : QueryExpression) :
  printable e -> exists c s, QueryString e = c :: s /\ isBlank c = false.
Proof.
  destruct e as [l r|l r|x|fe|te|tr]; simpl; intros Hp.
  - by eexists _, _.
  - by eexists _, _.
  - by eexists _, _.
  - destruct Hp as (Hr & _). destruct (readable_head _ Hr) as (c & s & ? & ? & _).
    by exists c, s.
  - destruct Hp as (Hr & _). destruct (readable_head _ Hr) as (c & s & ? & ? & _).
    by exists c, s.
  - done.
Qed.

Section Steps.
Variable now : Time.
Variable inp : gostring.
Hypothesis inp_ascii : Forall is_ascii inp.

Lemma pos_lt (i : nat) (c : ascii) (s : gostring) :
  drop i inp = c :: s -> (i <? length inp)%nat = true.
Proof. intros Hd. apply Nat.ltb_lt. by eapply drop_le_length. Qed.

(** A blank before an expression is skipped by [parseUnaryExpression]. *)
Lemma parseUnary_skip (fuel i : nat) (s : gostring) :
  drop i inp = " "%char :: s ->
  parseUnaryExpression fuel now (mkAQP inp i) =
  parseUnaryExpression fuel now (mkAQP inp (S i)).
Proof.
  intros Hd. destruct fuel as [|fuel]; [done|]. cbn [parseUnaryExpression].
  replace (skipWhitespace (mkAQP inp i)) with (skipWhitespace (mkAQP inp (S i))); [done|].
  rewrite (skipWhitespace_at inp _ i Hd).
  rewrite (skipWhitespace_at inp _ (S i) (drop_cons_eq _ _ _ _ Hd)).
  change (span isBlank (" "%char :: s)) with (S (span isBlank s)). f_equal. lia.
Qed.

(** Both loops stop at a closing parenthesis. *)
Lemma and_loop_close (fuel i : nat) (s : gostring) (lhs : QueryExpression) :
  drop i inp = ")"%char :: s ->
  parseAndExpression_loop (S fuel) now lhs (mkAQP inp i) = Ok (lhs, mkAQP inp i).
Proof.
  intros Hd. cbn [parseAndExpression_loop input pos]. rewrite (pos_lt _ _ _ Hd).
  rewrite (skipWhitespace_id inp s i _ Hd eq_refl).
  rewrite (matchKeyword_fail_head inp s (lit "AND") i ")"%char) by done.
  by rewrite (lookahead_close inp s i Hd).
Qed.

Lemma or_loop_close (fuel i : nat) (s : gostring) (lhs : QueryExpression) :
  drop i inp = ")"%char :: s ->
  parseExpression_loop (S fuel) now lhs (mkAQP inp i) = Ok (lhs, mkAQP inp i).
Proof.
  intros Hd. cbn [parseExpression_loop input pos]. rewrite (pos_lt _ _ _ Hd).
  rewrite (skipWhitespace_id inp s i _ Hd eq_refl).
  by rewrite (matchKeyword_fail_head inp s (lit "OR") i ")"%char).
Qed.

(** Both loops stop at the end of the input. *)
Lemma and_loop_end (fuel i : nat) (lhs : QueryExpression) :
  drop i inp = [] ->
  parseAndExpression_loop (S fuel) now lhs (mkAQP inp i) = Ok (lhs, mkAQP inp i).
Proof.
  intros Hd. cbn [parseAndExpression_loop input pos].
  apply (f_equal length) in Hd. rewrite length_drop in Hd. simpl in Hd.
  destruct (Nat.ltb_spec i (length inp)); [lia|done].
Qed.

Lemma or_loop_end (fuel i : nat) (lhs : QueryExpression) :
  drop i inp = [] ->
  parseExpression_loop (S fuel) now lhs (mkAQP inp i) = Ok (lhs, mkAQP inp i).
Proof.
  intros Hd. cbn [parseExpression_loop input pos].
  apply (f_equal length) in Hd. rewrite length_drop in Hd. simpl in Hd.
  destruct (Nat.ltb_spec i (length inp)); [lia|done].
Qed.

(** The conjunction loop stops in front of the keyword [OR]. *)
Lemma and_loop_or (fuel i : nat) (s : gostring) (lhs : QueryExpression) :
  drop i inp = lit " OR " ++ s ->
  parseAndExpression_loop (S fuel) now lhs (mkAQP inp i) = Ok (lhs, mkAQP inp (S i)).
Proof.
  intros Hd. cbn [parseAndExpression_loop input pos]. rewrite (pos_lt _ _ _ Hd).
  pose proof (drop_cons_eq _ _ _ _ Hd) as Hd1.
  rewrite (skipWhitespace_one inp _ i _ Hd eq_refl).
  rewrite (matchKeyword_fail_head inp _ (lit "AND") (S i) "O"%char inp_ascii Hd1) by done.
  by rewrite (lookahead_or inp s (S i) Hd1).
Qed.


(** The conjunction loop at the keyword [AND]. *)
Lemma and_loop_and (fuel i : nat) (s : gostring) (lhs : QueryExpression) :
  drop i inp = lit " AND " ++ s ->
  parseAndExpression_loop (S fuel) now lhs (mkAQP inp i) =
    (let* (rhs, p) := parseUnaryExpression fuel now (mkAQP inp (i + 5)) in
     parseAndExpression_loop fuel now (AndExpression lhs rhs) p).
Proof.
  intros Hd. cbn [parseAndExpression_loop input pos]. rewrite (pos_lt _ _ _ Hd).
  pose proof (drop_cons_eq _ _ _ _ Hd) as Hd1.
  rewrite (skipWhitespace_one inp _ i _ Hd eq_refl).
  rewrite (matchKeyword_ok inp s (lit "AND") (S i) " "%char inp_ascii Hd1) by done.
  cbn [negb andb].
  pose proof (drop_app_eq inp (S i) (lit "AND") _ Hd1) as Hd2.
  rewrite (parseUnary_skip fuel _ s Hd2).
  by replace (S (S i + length (lit "AND"))) with (i + 5)%nat by (simpl; lia).
Qed.

(** The disjunction loop at the keyword [OR]. *)
Lemma or_loop_or (fuel i : nat) (s : gostring) (lhs : QueryExpression) :
  drop i inp = lit "OR " ++ s ->
  parseExpression_loop (S fuel) now lhs (mkAQP inp i) =
    (let* (rhs, p) := parseAndExpression fuel now (mkAQP inp (i + 2)) in
     parseExpression_loop fuel now (OrExpression lhs rhs) p).
Proof.
  intros Hd. cbn [parseExpression_loop input pos]. rewrite (pos_lt _ _ _ Hd).
  rewrite (skipWhitespace_id inp _ i _ Hd eq_refl).
  by rewrite (matchKeyword_ok inp s (lit "OR") i " "%char inp_ascii Hd).
Qed.

(** [parseUnaryExpression] at the keyword [NOT]. *)
Lemma unary_not (fuel i : nat) (s : gostring) :
  drop i inp = lit "NOT " ++ s ->
  parseUnaryExpression (S fuel) now (mkAQP inp i) =
    (let* (expr, p) := parseUnaryExpression fuel now (mkAQP inp (i + 4)) in
     Ok (NotExpression expr, p)).
Proof.
  intros Hd. cbn [parseUnaryExpression].
  rewrite (skipWhitespace_id inp _ i _ Hd eq_refl).
  rewrite (matchKeyword_ok inp s (lit "NOT") i " "%char inp_ascii Hd) by done.
  pose proof (drop_app_eq inp i (lit "NOT") _ Hd) as Hd2.
  rewrite (parseUnary_skip fuel _ s Hd2).
  by replace (S (i + length (lit "NOT"))) with (i + 4)%nat by (simpl; lia).
Qed.

(** [parseUnaryExpression] at an opening parenthesis. *)
Lemma unary_paren (fuel i : nat) (s : gostring) :
  drop i inp = "("%char :: s ->
  parseUnaryExpression (S (S fuel)) now (mkAQP inp i) =
    (let* (expr, p) := parseExpression fuel now (mkAQP inp (S i)) in
     let p := skipWhitespace p in
     match input p !! pos p with
     | Some ch' =>
         if decide (ch' = ")"%char) then Ok (expr, setPos p (S (pos p)))
         else Err (lit "missing closing parenthesis")
     | None => Err (lit "missing closing parenthesis")
     end).
Proof.
  intros Hd. cbn [parseUnaryExpression].
  rewrite (skipWhitespace_id inp _ i _ Hd eq_refl).
  rewrite (matchKeyword_fail_head inp s (lit "NOT") i "("%char) by done.
  cbn [parsePrimaryExpression].
  rewrite (skipWhitespace_id inp _ i _ Hd eq_refl). cbn [input pos].
  rewrite (lookup_drop_head _ _ _ _ Hd).
  destruct (decide ("("%char = "("%char)); done.
Qed.

(** [parseUnaryExpression] at a readable token: the token is handed to
    the leaf parsers. *)
Lemma unary_leaf (fuel i : nat) (tok rest : gostring) :
  readable tok ->
  drop i inp = tok ++ rest ->
  follow_ok rest ->
  parseUnaryExpression (S (S fuel)) now (mkAQP inp i) =
    (let p := mkAQP inp (i + length tok) in
     if Contains tok (lit ":") then
       let* expr := parseFieldExpression tok in
       Ok (FieldExpr expr, p)
     else if HasPrefix tok (lit "time:[") then
       let* expr := parseTimeRangeExpression now tok in
       Ok (TimeRangeExpr expr, p)
     else
       let* expr := parseTextExpression tok in
       Ok (TextExpr expr, p)).
Proof.
  intros Hr Hd Hf. destruct (readable_head tok Hr) as (c & s & Htok & Hc & Hparen & _).
  cbn [parseUnaryExpression].
  assert (Hd' : drop i inp = c :: (s ++ rest)) by (by rewrite Hd, Htok).
  rewrite (skipWhitespace_id inp _ i _ Hd' Hc).
  rewrite (matchKeyword_not_leaf inp tok rest i inp_ascii Hr Hd Hf).
  cbn [parsePrimaryExpression].
  rewrite (skipWhitespace_id inp _ i _ Hd' Hc). cbn [input pos].
  rewrite (lookup_drop_head _ _ _ _ Hd').
  destruct (decide (c = "("%char)); [done|].
  rewrite (readable_token inp tok rest i Hr Hd Hf).
  unfold str_eqb. rewrite bool_decide_eq_false_2; [done|]. by rewrite Htok.
Qed.


(** The printed form of a printable tree, wherever it stands in the
    input, is read back by [parseUnaryExpression] as the tree, and the
    parser stops right behind it. *)
Lemma parseUnary_printed (e : QueryExpression) :
  printable e ->
  forall (fuel i : nat) (rest : gostring),
    (need e <= fuel)%nat ->
    drop i inp = QueryString e ++ rest ->
    follow_ok rest ->
    exists j, parseUnaryExpression fuel now (mkAQP inp i) = Ok (e, mkAQP inp j) /\
              drop j inp = rest.
Proof.
  induction e as [l IHl r IHr|l IHl r IHr|x IHx|fe|te|tr];
    intros Hp fuel i rest Hfuel Hd Hf; cbn [need] in Hfuel.
  - destruct Hp as [Hpl Hpr].
    destruct fuel as [|[|[|[|[|[|fuel]]]]]]; try lia.
    cbn [QueryString] in Hd. rewrite <- !app_assoc in Hd.
    rewrite (unary_paren _ i _ Hd). cbn [parseExpression parseAndExpression].
    destruct (IHl Hpl (S (S fuel)) (S i) _ ltac:(lia) (drop_cons_eq _ _ _ _ Hd))
      as (j1 & -> & Hj1); [by left|]. cbn [obind].
    rewrite (and_loop_and _ j1 _ l Hj1).
    destruct (IHr Hpr (S fuel) (j1 + 5)%nat (")"%char :: rest) ltac:(lia))
      as (j2 & -> & Hj2); [|by right|].
    { exact (drop_app_eq inp j1 (lit " AND ") _ Hj1). }
    cbn [obind]. rewrite (and_loop_close _ j2 _ _ Hj2). cbn [obind].
    rewrite (or_loop_close _ j2 _ _ Hj2). cbn [obind]. cbv zeta.
    rewrite (skipWhitespace_id inp _ j2 _ Hj2 eq_refl). cbn [input pos setPos].
    rewrite (lookup_drop_head _ _ _ _ Hj2).
    destruct (decide (")"%char = ")"%char)); [|done].
    exists (S j2). split; [done|]. by apply drop_cons_eq in Hj2.
  - destruct Hp as [Hpl Hpr].
    destruct fuel as [|[|[|[|[|[|fuel]]]]]]; try lia.
    cbn [QueryString] in Hd. rewrite <- !app_assoc in Hd.
    rewrite (unary_paren _ i _ Hd). cbn [parseExpression parseAndExpression].
    destruct (IHl Hpl (S (S fuel)) (S i) _ ltac:(lia) (drop_cons_eq _ _ _ _ Hd))
      as (j1 & -> & Hj1); [by left|]. cbn [obind].
    rewrite (and_loop_or _ j1 _ l Hj1). cbn [obind].
    pose proof (drop_cons_eq _ _ _ _ Hj1) as Hj1'.
    rewrite (or_loop_or _ (S j1) _ l Hj1'). cbn [parseAndExpression].
    pose proof (drop_app_eq inp (S j1) (lit "OR") _ Hj1') as Hj1''.
    rewrite (parseUnary_skip _ _ _ Hj1'').
    destruct (IHr Hpr (S fuel) (S (S j1 + length (lit "OR"))) (")"%char :: rest) ltac:(lia))
      as (j2 & -> & Hj2); [|by right|].
    { exact (drop_cons_eq _ _ _ _ Hj1''). }
    cbn [obind]. rewrite (and_loop_close _ j2 _ _ Hj2). cbn [obind].
    rewrite (or_loop_close _ j2 _ _ Hj2). cbn [obind]. cbv zeta.
    rewrite (skipWhitespace_id inp _ j2 _ Hj2 eq_refl). cbn [input pos setPos].
    rewrite (lookup_drop_head _ _ _ _ Hj2).
    destruct (decide (")"%char = ")"%char)); [|done].
    exists (S j2). split; [done|]. by apply drop_cons_eq in Hj2.
  - destruct fuel as [|fuel]; [lia|].
    cbn [QueryString] in Hd. rewrite <- !app_assoc in Hd.
    rewrite (unary_not _ i _ Hd).
    destruct (IHx Hp fuel (i + 4)%nat rest ltac:(lia)) as (j & -> & Hj); [|done|].
    { exact (drop_app_eq inp i (lit "NOT ") _ Hd). }
    cbn [obind]. by exists j.
  - destruct Hp as (Hr & Hc & Hparse).
    destruct fuel as [|[|fuel]]; try lia.
    rewrite (unary_leaf _ i _ rest Hr Hd Hf). cbv zeta. rewrite Hc, Hparse. cbn [obind].
    eexists. split; [done|]. by apply drop_app_eq.
  - destruct Hp as (Hr & Hc & Hparse).
    destruct fuel as [|[|fuel]]; try lia.
    rewrite (unary_leaf _ i _ rest Hr Hd Hf). cbv zeta. rewrite Hc.
    replace (HasPrefix (QueryString (TextExpr te)) (lit "time:[")) with false.
    + rewrite Hparse. cbn [obind]. eexists. split; [done|]. by apply drop_app_eq.
    + symmetry. destruct Hr as (_ & [(_ & _ & _ & Ht)|(text & Ht & _)]); [done|].
      rewrite Ht. cbn [lit list_ascii_of_string HasPrefix].
      destruct (decide ("t"%char = quote)) as [Hx|]; [discriminate Hx|done].
  - done.
Qed.


End Steps.

Lemma printable_ascii (e : QueryExpression) :
  printable e -> Forall is_ascii (QueryString e).
Proof.
  induction e as [l IHl r IHr|l IHl r IHr|x IHx|fe|te|tr]; cbn [printable QueryString];
    intros Hp.
  - destruct Hp as [Hl Hr]. rewrite !Forall_app. split_and!; auto; by repeat constructor.
  - destruct Hp as [Hl Hr]. rewrite !Forall_app. split_and!; auto; by repeat constructor.
  - rewrite Forall_app. split; auto. by repeat constructor.
  - destruct Hp as [Hr _]. by apply readable_ascii in Hr.
  - destruct Hp as [Hr _]. by apply readable_ascii in Hr.
  - done.
Qed.

Lemma printable_last (e : QueryExpression) (c : ascii) :
  printable e -> last (QueryString e) = Some c -> 33 <= byte_val c <= 126.
Proof.
  induction e as [l IHl r IHr|l IHl r IHr|x IHx|fe|te|tr]; cbn [printable QueryString];
    intros Hp Hl.
  - change (lit ")") with [")"%char] in Hl.
    rewrite !app_assoc, last_snoc in Hl. injection Hl as <-. done.
  - change (lit ")") with [")"%char] in Hl.
    rewrite !app_assoc, last_snoc in Hl. injection Hl as <-. done.
  - destruct (printed_head x Hp) as (d & s & Hx & _).
    rewrite Hx in Hl. rewrite last_app_cons in Hl. rewrite <- Hx in Hl. auto.
  - destruct Hp as [Hr _]. by apply (readable_last _ c) in Hr.
  - destruct Hp as [Hr _]. by apply (readable_last _ c) in Hr.
  - done.
Qed.

Lemma printable_first (e : QueryExpression) (c : ascii) :
  printable e -> head (QueryString e) = Some c -> 33 <= byte_val c <= 126.
Proof.
  destruct e as [l r|l r|x|fe|te|tr]; cbn [printable QueryString]; intros Hp Hh.
  - injection Hh as <-. done.
  - injection Hh as <-. done.
  - injection Hh as <-. done.
  - destruct Hp as [Hr _]. destruct (readable_head _ Hr) as (d & s & Ht & _ & _ & Hg).
    rewrite Ht in Hh. by injection Hh as <-.
  - destruct Hp as [Hr _]. destruct (readable_head _ Hr) as (d & s & Ht & _ & _ & Hg).
    rewrite Ht in Hh. by injection Hh as <-.
  - done.
Qed.

Lemma need_le (e : QueryExpression) :
  (need e <= 6 * length (QueryString e) + 2)%nat.
Proof.
  induction e as [l IHl r IHr|l IHl r IHr|x IHx|fe|te|tr]; cbn [need QueryString];
    rewrite ?length_app; cbn [length lit list_ascii_of_string]; lia.
Qed.

(** C9 (query round-trip), as the code has it.  For every expression
    tree made of conjunctions, disjunctions and negations over field terms
    and text terms whose printed tokens are readable (graphic ASCII
    without parentheses, or an ASCII text between double quotes) and are
    parsed to the term itself, parsing the printed form of the tree
    succeeds and yields the very same tree; so the re-parsed tree accepts
    exactly the records the tree accepts. *)
Theorem printed_query_read_back (f : FilterEngine) (now : Time) (e : QueryExpression) :
  printable e -> ParseAdvancedQuery f now (QueryString e) = Ok e.
Proof.
  intros Hp. unfold ParseAdvancedQuery.
  rewrite TrimSpace_graphic.
  2: { intros c. by apply printable_first. }
  2: { intros c. by apply printable_last. }
  cbn [input]. unfold parseFuel.
  replace (6 * length (QueryString e) + 8)%nat
    with (S (S (S (6 * length (QueryString e) + 5)))) by lia.
  cbn [parseExpression parseAndExpression].
  destruct (parseUnary_printed now (QueryString e) (printable_ascii e Hp) e Hp
              (S (6 * length (QueryString e) + 5)) 0 []) as (j & -> & Hj).
  - pose proof (need_le e). lia.
  - by rewrite app_nil_r.
  - done.
  - cbn [obind]. rewrite (and_loop_end now _ _ j e Hj). cbn [obind].
    by rewrite (or_loop_end now _ _ j e Hj).
Qed.

End RoundTrip.

Section RoundTripExamples.
#[local] Existing Instance SmallRuntime.runtime.

Lemma sampleTree_printable : printable Examples.sampleTree.
Proof.
  repeat split; try (vm_compute; reflexivity).
  - left. split_and!; [discriminate|repeat constructor|discriminate|reflexivity].
  - right. exists (lit "disk full"). split_and!; [reflexivity| |repeat constructor].
    intros Hin. vm_compute in Hin.
    by repeat (apply elem_of_cons in Hin as [?|Hin]; [done|]; try apply elem_of_nil in Hin).
  - left. split_and!; [discriminate|repeat constructor|discriminate|reflexivity].
Defined.

Lemma printed_query_read_back_witness :
  ParseAdvancedQuery Examples.engine0 Examples.wall0 Examples.sampleQuery = Ok Examples.sampleTree /\
  printable Examples.sampleTree /\
  ParseAdvancedQuery Examples.engine0 Examples.wall0 (QueryString Examples.sampleTree) = Ok Examples.sampleTree.
Proof.
  split; [reflexivity|]. split; [exact sampleTree_printable|].
  apply (printed_query_read_back Examples.engine0 Examples.wall0 Examples.sampleTree).
  exact sampleTree_printable.
Defined.

(** The query [boom] is a text term that matches regardless of case; its
    printed form, the word between double quotes, is read back as a
    case-sensitive text term, which rejects a line the query accepts. *)
Lemma unquoted_text_read_back_differs :
  ParseAdvancedQuery Examples.engine0 Examples.wall0 (lit "boom") =
    Ok (TextExpr (mkTextExpression (lit "boom") false false None)) /\
  QueryString (TextExpr (mkTextExpression (lit "boom") false false None)) =
    [quote] ++ lit "boom" ++ [quote] /\
  ParseAdvancedQuery Examples.engine0 Examples.wall0 ([quote] ++ lit "boom" ++ [quote]) =
    Ok (TextExpr (mkTextExpression (lit "boom") true false None)) /\
  Evaluate (TextExpr (mkTextExpression (lit "boom") false false None))
    (Examples.textLine 1 "BOOM happened") Examples.engine0 = true /\
  Evaluate (TextExpr (mkTextExpression (lit "boom") true false None))
    (Examples.textLine 1 "BOOM happened") Examples.engine0 = false.
Proof.
  split_and!; [reflexivity|reflexivity|reflexivity|vm_compute; reflexivity|vm_compute; reflexivity].
Qed.

End RoundTripExamples.

(** ** The fuel of the query parser always suffices *)

Section Fuel.
Context `{GoRuntime}.

Lemma parseFieldExpression_returns (token : gostring) :
  parseFieldExpression token <> OutOfFuel.
Proof.
  unfold parseFieldExpression. destruct (findOperator operators token) as [[field op] value].
  destruct (_ || _); [done|]. destruct (_ || _); [|done].
  by destruct (regexp_Compile_returns value) as [[re ->]|[err ->]].
Qed.

Lemma parseTextExpression_returns (token : gostring) :
  parseTextExpression token <> OutOfFuel.
Proof.
  unfold parseTextExpression.
  assert (Hs : forall (e : TextExpression),
    (if HasPrefix (te_Text e) [quote] && HasSuffix (te_Text e) [quote]
     then let* text := go_slice (te_Text e) 1 (Z.of_nat (length (te_Text e)) - 1) in
          Ok (mkTextExpression text true (te_IsRegex e) (te_Pattern e))
     else Ok e) <> OutOfFuel).
  { intros e. destruct (_ && _); [|done]. unfold go_slice. by destruct (_ || _). }
  destruct (HasPrefix token (lit "~")); [|apply Hs].
  destruct (regexp_Compile_returns (lit "(?i)" ++ drop 1 token)) as [[re ->]|[err ->]];
    [apply Hs|done].
Qed.

Lemma parseTimeValue_returns (now : Time) (s : gostring) :
  parseTimeValue now s <> OutOfFuel.
Proof.
  unfold parseTimeValue. generalize [ lit "15:04:05"; lit "2006-01-02 15:04:05";
    lit "2006-01-02T15:04:05"; lit "2006-01-02T15:04:05Z"; RFC3339 ].
  intros fs. induction fs as [|fmt fs IH]; simpl; [done|].
  destruct (time_Parse fmt s); [|done]. by destruct (str_eqb _ _).
Qed.

Lemma parseTimeRangeExpression_returns (now : Time) (token : gostring) :
  parseTimeRangeExpression now token <> OutOfFuel.
Proof.
  unfold parseTimeRangeExpression. destruct (_ || _); [done|].
  unfold go_slice. destruct (_ || _); [done|]. cbn [obind].
  destruct (Split _ _) as [|p0 [|p1 [|p2 ps]]]; try done.
  pose proof (parseTimeValue_returns now (TrimSpace p0)) as H0.
  pose proof (parseTimeValue_returns now (TrimSpace p1)) as H1.
  destruct (parseTimeValue now (TrimSpace p0)); try done.
  destruct (parseTimeValue now (TrimSpace p1)); done.
Qed.

(** How far the scanner moves. *)
Lemma skipWhitespace_moves (p : AdvancedQueryParser) :
  input (skipWhitespace p) = input p /\ (pos p <= pos (skipWhitespace p))%nat.
Proof. unfold skipWhitespace. simpl. split; [done|lia]. Qed.

Lemma matchKeyword_moves (p p' : AdvancedQueryParser) (kw : gostring) (b : bool) :
  matchKeyword p kw = (b, p') ->
  input p' = input p /\ (pos p <= pos p')%nat /\
  (b = true -> (pos p + length kw <= pos p' <= length (input p))%nat).
Proof.
  unfold matchKeyword. destruct (skipWhitespace_moves p) as [Hi Hp].
  set (q := skipWhitespace p) in *. clearbody q. rewrite <- Hi. clear Hi.
  intros Hm. destruct (Nat.ltb_spec (length (input q)) (pos q + length kw)).
  - simplify_eq. split_and!; done.
  - repeat case_match; simplify_eq; simpl; split_and!; try done; lia.
Qed.

Lemma parseToken_moves (p p' : AdvancedQueryParser) (tok : gostring) :
  parseToken p = (tok, p') ->
  input p' = input p /\ (pos p <= pos p')%nat /\ (tok <> [] -> (pos p < pos p')%nat).
Proof.
  unfold parseToken. destruct (skipWhitespace_moves p) as [Hi Hp].
  assert (Hs : forall a b : nat, slice (input (skipWhitespace p)) a b <> [] -> (a < b)%nat).
  { intros a b Hne. destruct (decide (a < b)%nat); [done|]. exfalso. apply Hne.
    unfold slice. by replace (b - a)%nat with 0%nat by lia. }
  intros Ht. repeat case_match; simplify_eq; simpl; split_and!; try done; try lia.
  all: intros Hne; apply Hs in Hne; lia.
Qed.

Lemma fuel_enough (now : Time) (n : nat) :
  forall p : AdvancedQueryParser,
    ((6 * left_ p + 7 <= n)%nat -> fine (input p) (pos p) true (parseExpression n now p)) /\
    (forall lhs, (6 * left_ p + 1 <= n)%nat ->
       fine (input p) (pos p) false (parseExpression_loop n now lhs p)) /\
    ((6 * left_ p + 6 <= n)%nat -> fine (input p) (pos p) true (parseAndExpression n now p)) /\
    (forall lhs, (6 * left_ p + 5 <= n)%nat ->
       fine (input p) (pos p) false (parseAndExpression_loop n now lhs p)) /\
    ((6 * left_ p + 4 <= n)%nat -> fine (input p) (pos p) true (parseUnaryExpression n now p)) /\
    ((6 * left_ p + 3 <= n)%nat -> fine (input p) (pos p) true (parsePrimaryExpression n now p)).
Proof.
  induction n as [|m IH]; intros p; [split_and!; intros; lia|].
  unfold left_ in *. split_and!.
  - intros Hn. cbn [parseExpression].
    destruct (IH p) as (_ & _ & HA & _). specialize (HA ltac:(lia)).
    destruct HA as [HA1 HA2].
    destruct (parseAndExpression m now p) as [[lhs p1]| | |]; try done.
    destruct (HA2 lhs p1 eq_refl) as [Hi Hp]. cbn [obind].
    destruct (IH p1) as (_ & HL & _). specialize (HL lhs ltac:(rewrite Hi; lia)).
    destruct HL as [HL1 HL2]. split; [done|]. intros e p' He.
    destruct (HL2 e p' He) as [Hi' Hp']. split; [congruence|]. simpl in *. lia.
  - intros lhs Hn. cbn [parseExpression_loop].
    destruct (Nat.ltb_spec (pos p) (length (input p))) as [Hlt|Hge].
    2: { split; [done|]. intros e p' [= <- <-]. by split. }
    destruct (skipWhitespace_moves p) as [Hsi Hsp].
    destruct (matchKeyword (skipWhitespace p) (lit "OR")) as [b p2] eqn:Hk.
    destruct (matchKeyword_moves _ _ _ _ Hk) as (Hi2 & Hp2 & Hb).
    destruct b; cbn [negb].
    2: { split; [done|]. intros e p' [= <- <-]. split; [congruence|]. simpl. lia. }
    specialize (Hb eq_refl). simpl in Hb.
    destruct (IH p2) as (_ & _ & HA & _).
    specialize (HA ltac:(rewrite Hi2, Hsi; lia)). destruct HA as [HA1 HA2].
    destruct (parseAndExpression m now p2) as [[rhs p3]| | |]; try done.
    destruct (HA2 rhs p3 eq_refl) as [Hi3 Hp3]. cbn [obind].
    destruct (IH p3) as (_ & HL & _).
    specialize (HL (OrExpression lhs rhs) ltac:(rewrite Hi3, Hi2, Hsi; simpl in *; lia)).
    destruct HL as [HL1 HL2]. split; [done|]. intros e p' He.
    destruct (HL2 e p' He) as [Hi' Hp']. split; [congruence|]. simpl in *. lia.
  - intros Hn. cbn [parseAndExpression].
    destruct (IH p) as (_ & _ & _ & _ & HU & _). specialize (HU ltac:(lia)).
    destruct HU as [HU1 HU2].
    destruct (parseUnaryExpression m now p) as [[lhs p1]| | |]; try done.
    destruct (HU2 lhs p1 eq_refl) as [Hi Hp]. cbn [obind].
    destruct (IH p1) as (_ & _ & _ & HL & _).
    specialize (HL lhs ltac:(rewrite Hi; simpl in *; lia)).
    destruct HL as [HL1 HL2]. split; [done|]. intros e p' He.
    destruct (HL2 e p' He) as [Hi' Hp']. split; [congruence|]. simpl in *. lia.
  - intros lhs Hn. cbn [parseAndExpression_loop].
    destruct (Nat.ltb_spec (pos p) (length (input p))) as [Hlt|Hge].
    2: { split; [done|]. intros e p' [= <- <-]. by split. }
    destruct (skipWhitespace_moves p) as [Hsi Hsp].
    destruct (matchKeyword (skipWhitespace p) (lit "AND")) as [b p2] eqn:Hk.
    destruct (matchKeyword_moves _ _ _ _ Hk) as (Hi2 & Hp2 & _).
    destruct (negb b && negb (lookaheadForExpression p2)).
    { split; [done|]. intros e p' [= <- <-]. split; [congruence|]. simpl. lia. }
    destruct (IH p2) as (_ & _ & _ & _ & HU & _).
    specialize (HU ltac:(rewrite Hi2, Hsi; lia)). destruct HU as [HU1 HU2].
    destruct (parseUnaryExpression m now p2) as [[rhs p3]| | |]; try done.
    destruct (HU2 rhs p3 eq_refl) as [Hi3 Hp3]. cbn [obind].
    destruct (IH p3) as (_ & _ & _ & HL & _).
    specialize (HL (AndExpression lhs rhs) ltac:(rewrite Hi3, Hi2, Hsi; simpl in *; lia)).
    destruct HL as [HL1 HL2]. split; [done|]. intros e p' He.
    destruct (HL2 e p' He) as [Hi' Hp']. split; [congruence|]. simpl in *. lia.
  - intros Hn. cbn [parseUnaryExpression].
    destruct (skipWhitespace_moves p) as [Hsi Hsp].
    destruct (matchKeyword (skipWhitespace p) (lit "NOT")) as [b p2] eqn:Hk.
    destruct (matchKeyword_moves _ _ _ _ Hk) as (Hi2 & Hp2 & Hb).
    destruct b.
    + specialize (Hb eq_refl). simpl in Hb.
      destruct (IH p2) as (_ & _ & _ & _ & HU & _).
      specialize (HU ltac:(rewrite Hi2, Hsi; lia)). destruct HU as [HU1 HU2].
      destruct (parseUnaryExpression m now p2) as [[x p3]| | |]; try done.
      destruct (HU2 x p3 eq_refl) as [Hi3 Hp3]. cbn [obind].
      split; [done|]. intros e p' [= <- <-]. split; [congruence|]. simpl in *. lia.
    + destruct (IH p2) as (_ & _ & _ & _ & _ & HP).
      specialize (HP ltac:(rewrite Hi2, Hsi; lia)). destruct HP as [HP1 HP2].
      split; [done|]. intros e p' He. destruct (HP2 e p' He) as [Hi' Hp'].
      split; [congruence|]. simpl in *. lia.
  - intros Hn. cbn [parsePrimaryExpression].
    destruct (skipWhitespace_moves p) as [Hsi Hsp].
    set (p1 := skipWhitespace p) in *. clearbody p1.
    destruct (input p1 !! pos p1) as [ch|] eqn:Hch; [|done].
    apply lookup_lt_Some in Hch. rewrite Hsi in Hch.
    destruct (decide (ch = "("%char)) as [->|_].
    + destruct (IH (setPos p1 (S (pos p1)))) as (HE & _).
      specialize (HE ltac:(simpl; rewrite Hsi; lia)). destruct HE as [HE1 HE2].
      simpl in HE2.
      destruct (parseExpression m now (setPos p1 (S (pos p1)))) as [[x p3]| | |]; try done.
      destruct (HE2 x p3 eq_refl) as [Hi3 Hp3]. cbn [obind]. cbv zeta.
      destruct (skipWhitespace_moves p3) as [Hsi3 Hsp3].
      destruct (input (skipWhitespace p3) !! pos (skipWhitespace p3)) as [ch'|]; [|done].
      destruct (decide (ch' = ")"%char)); [|done].
      split; [done|]. intros e0 p' [= <- <-]. simpl. split; [congruence|]. lia.
    + destruct (parseToken p1) as [tok p2] eqn:Ht.
      destruct (parseToken_moves _ _ _ Ht) as (Hi2 & Hp2 & Hne).
      unfold str_eqb. case_bool_decide as Htok; [done|]. specialize (Hne Htok).
      assert (Hfin : forall e, fine (input p) (pos p) true (Ok (e, p2))).
      { intros e. split; [done|]. intros e' p' [= <- <-]. split; [congruence|]. simpl. lia. }
      destruct (Contains tok (lit ":")).
      { pose proof (parseFieldExpression_returns tok).
        destruct (parseFieldExpression tok); try done. apply Hfin. }
      destruct (HasPrefix tok (lit "time:[")).
      { pose proof (parseTimeRangeExpression_returns now tok).
        destruct (parseTimeRangeExpression now tok); try done. apply Hfin. }
      pose proof (parseTextExpression_returns tok).
      destruct (parseTextExpression tok); try done. apply Hfin.
Qed.

(** The parser entry point never runs out of fuel: it returns a tree, an
    error, or panics where the Go code does. *)
Theorem ParseAdvancedQuery_returns (f : FilterEngine) (now : Time) (query : gostring) :
  ParseAdvancedQuery f now query <> OutOfFuel.
Proof.
  unfold ParseAdvancedQuery. cbv zeta.
  destruct (fuel_enough now (parseFuel (TrimSpace query)) (mkAQP (TrimSpace query) 0))
    as (HE & _).
  destruct HE as [HE1 _]; [unfold parseFuel, left_; simpl; lia|].
  simpl in *. destruct (parseExpression _ _ _) as [[e p]| | |]; done.
Qed.

(** So installing an advanced filter returns (a new engine, or the old
    one with an error) or panics where the Go code does. *)
Corollary SetAdvancedFilter_returns (f : FilterEngine) (now : Time) (query : gostring) :
  SetAdvancedFilter f now query <> OutOfFuel.
Proof.
  unfold SetAdvancedFilter. destruct (str_eqb query []); [done|].
  pose proof (ParseAdvancedQuery_returns f now query).
  by destruct (ParseAdvancedQuery f now query).
Qed.

(** C7.  A query whose compilation fails is not always answered with an
    error value.  The query that is one double quote is an unterminated
    string; [parseToken] returns it as a token, and since the token is
    both prefix and suffix of itself [parseTextExpression] slices it as
    [Text[1:0]]: [SetAdvancedFilter] panics on it, whatever the engine
    holds, where an error value was to be returned. *)
Theorem lone_quote_panics (f : FilterEngine) (now : Time) :
  SetAdvancedFilter f now [quote] = Panic.
Proof.
  unfold SetAdvancedFilter, ParseAdvancedQuery.
  rewrite TrimSpace_graphic.
  - reflexivity.
  - intros c [= <-]. by vm_compute.
  - intros c [= <-]. by vm_compute.
Qed.

End Fuel.

Section PanicExamples.
#[local] Existing Instance SmallRuntime.runtime.

(** The same through the search box: the input [boom AND] followed by a
    double quote. *)
Lemma applySearch_lone_quote_panics :
  applySearch (Examples.with_search (Examples.model0 3) (lit "boom AND " ++ [quote])) = Panic.
Proof. reflexivity. Qed.

(** An invalid time bound is no error either.  A token that starts with
    [time:[] holds a colon and is read as a field term, whatever stands
    between the brackets; the query is installed and replaces the filter
    that was in force. *)
Lemma invalid_time_bound_installed :
  let f := Examples.installed "level:ERROR" in
  exists f',
    SetAdvancedFilter f Examples.wall0 (lit "time:[bogus TO 11:00:00]") = Ok (f', None) /\
    advancedExpression f' =
      Some (FieldExpr (mkFieldExpression (lit "time") (lit ":") (lit "[bogus TO 11:00:00]") None)) /\
    Match f Examples.lineS2 = true /\ Match f' Examples.lineS2 = false.
Proof.
  intros f. eexists. split; [reflexivity|]. split; [reflexivity|].
  split; vm_compute; reflexivity.
Qed.

End PanicExamples.

(** * Further properties *)

(** ** The circular buffer in any state *)

Section CircularBufferMoreFacts.
Context `{GoRuntime}.

Lemma slot_spec cb (i : Z) :
  cb_wf cb -> 0 <= i < cb_size cb ->
  slot cb i = Ok (mjoin (contents cb !! Z.to_nat i)).
Proof.
  intros Hwf Hi. pose proof (Get_spec cb i Hwf) as Hg.
  unfold Get in Hg. unfold slot.
  destruct (Z.ltb_spec i 0); [lia|]. destruct (Z.leb_spec (cb_size cb) i); [lia|].
  exact Hg.
Qed.

Lemma contents_lookup_Some cb (i : nat) :
  (i < Z.to_nat (cb_size cb))%nat ->
  exists x, contents cb !! i = Some x.
Proof. intros Hi. apply lookup_lt_is_Some. by rewrite contents_length. Qed.

Lemma GetRange_loop_spec cb (n : nat) : forall (start : Z) (result : list (option LogLine)),
  cb_wf cb -> 0 <= start -> start + Z.of_nat n <= cb_size cb ->
  for_range n start 1
    (fun i result => let* x := slot cb i in Ok (result ++ [x])) result =
  Ok (result ++ take n (drop (Z.to_nat start) (contents cb))).
Proof.
  induction n as [|n IH]; intros start result Hwf Hs He; cbn [for_range].
  - by rewrite take_0, app_nil_r.
  - rewrite slot_spec by (try done; lia). cbn [obind].
    rewrite IH by (try done; lia).
    destruct (contents_lookup_Some cb (Z.to_nat start) ltac:(lia)) as [x Hx].
    rewrite Hx. change (mjoin (Some x)) with x.
    rewrite (drop_S _ _ _ Hx). cbn [take].
    replace (Z.to_nat (start + 1)) with (S (Z.to_nat start)) by lia.
    by rewrite <- app_assoc.
Qed.

(** X1.  On a well-formed buffer [GetRange start end] never panics.  It
    returns the lines at the positions [start], ..., [min end size - 1],
    oldest first, and the empty slice when [start] is not a position of
    the buffer or [end <= start]. *)
Theorem GetRange_spec cb (start end_ : Z) :
  cb_wf cb ->
  GetRange cb start end_ =
    Ok (if (start <? 0) || (cb_size cb <=? start) || (end_ <=? start) then []
        else take (Z.to_nat (Z.min end_ (cb_size cb) - start))
                  (drop (Z.to_nat start) (contents cb))).
Proof.
  intros Hwf. unfold GetRange.
  destruct (Z.ltb_spec start 0); [done|].
  destruct (Z.leb_spec (cb_size cb) start); [done|].
  destruct (Z.leb_spec end_ start); [done|]. cbn [orb].
  destruct (Z.ltb_spec (cb_size cb) end_).
  - rewrite GetRange_loop_spec by (try done; lia). cbn [app].
    by replace (Z.min end_ (cb_size cb)) with (cb_size cb) by lia.
  - rewrite GetRange_loop_spec by (try done; lia). cbn [app].
    by replace (Z.min end_ (cb_size cb)) with end_ by lia.
Qed.

(** X2.  On a well-formed buffer [GetLast n] never panics and returns
    the [n] most recent lines, oldest first: all lines when [n] exceeds
    the size, none when [n <= 0]. *)
Theorem GetLast_spec cb (n : Z) :
  cb_wf cb ->
  GetLast cb n = Ok (if n <=? 0 then [] else lastn (Z.to_nat n) (contents cb)).
Proof.
  intros Hwf. unfold GetLast. pose proof (contents_length cb) as Hlen.
  pose proof (wf_size cb Hwf) as Hs.
  destruct (Z.leb_spec n 0); [done|]. cbn [orb].
  destruct (Z.eqb_spec (cb_size cb) 0) as [Hz|Hnz].
  { f_equal. unfold lastn. rewrite drop_ge; [done|]. lia. }
  rewrite GetRange_spec by done.
  destruct (Z.ltb_spec (cb_size cb) n).
  - replace (cb_size cb - cb_size cb) with 0 by lia.
    destruct (Z.ltb_spec 0 0); [lia|]. destruct (Z.leb_spec (cb_size cb) 0); [lia|].
    cbn [orb]. f_equal. rewrite Z.min_id, Z.sub_0_r.
    change (Z.to_nat 0) with 0%nat. rewrite drop_0.
    rewrite take_ge by lia. rewrite lastn_all; [done|lia].
  - destruct (Z.ltb_spec (cb_size cb - n) 0); [lia|].
    destruct (Z.leb_spec (cb_size cb) (cb_size cb - n)); [lia|].
    cbn [orb]. f_equal. rewrite Z.min_id. unfold lastn.
    rewrite take_ge by (rewrite length_drop; lia). f_equal. lia.
Qed.

Lemma ForEach_loop_spec {St : Type} cb (fn : option LogLine -> St -> outcome (St * bool))
    (k : nat) : forall (i : Z) (s : St),
  cb_wf cb -> 0 <= i -> i + Z.of_nat k <= cb_size cb ->
  ForEach_loop cb k i fn s = visit fn (take k (drop (Z.to_nat i) (contents cb))) s.
Proof.
  induction k as [|k IH]; intros i s Hwf Hi Hk; cbn [ForEach_loop].
  - by rewrite take_0.
  - rewrite slot_spec by (try done; lia). cbn [obind].
    destruct (contents_lookup_Some cb (Z.to_nat i) ltac:(lia)) as [x Hx].
    rewrite Hx. change (mjoin (Some x)) with x.
    rewrite (drop_S _ _ _ Hx). cbn [take visit].
    destruct (fn x s) as [[s' go_on]| | |]; cbn [obind]; try done.
    destruct go_on; cbn [negb]; [|done].
    rewrite IH by (try done; lia).
    by replace (Z.to_nat (i + 1)) with (S (Z.to_nat i)) by lia.
Qed.

(** X3.  On a well-formed buffer [ForEach] calls its callback on the
    stored lines, oldest first, and stops after the first call that
    returns false (or panics). *)
Theorem ForEach_spec {St : Type} cb (fn : option LogLine -> St -> outcome (St * bool)) (s : St) :
  cb_wf cb -> ForEach cb fn s = visit fn (contents cb) s.
Proof.
  intros Hwf. unfold ForEach. pose proof (wf_size cb Hwf).
  rewrite ForEach_loop_spec by (try done; lia).
  change (Z.to_nat 0) with 0%nat. rewrite drop_0, take_ge; [done|].
  rewrite contents_length. lia.
Qed.

(** X4.  [Add] on a well-formed buffer in any state never panics.  While
    the buffer is not full the line is appended; once it is full the
    oldest line is dropped and the others keep their order. *)
Theorem Add_any_state cb line :
  cb_wf cb ->
  exists cb', Add cb line = Ok cb' /\ cb_wf cb' /\
    cb_capacity cb' = cb_capacity cb /\
    Size cb' = Z.min (Size cb + 1) (cb_capacity cb) /\
    contents cb' =
      if Size cb <? cb_capacity cb then contents cb ++ [Some line]
      else drop 1 (contents cb) ++ [Some line].
Proof.
  intros Hwf. destruct (Add_spec cb line Hwf) as (cb' & Ha & Hwf' & Hcap & Hc).
  exists cb'. split; [done|]. split; [done|]. split; [done|].
  pose proof (wf_size cb Hwf) as Hs. pose proof (wf_cap cb Hwf) as Hcp.
  pose proof (contents_length cb) as Hlen.
  assert (Hc' : contents cb' =
    if Size cb <? cb_capacity cb then contents cb ++ [Some line]
    else drop 1 (contents cb) ++ [Some line]).
  { rewrite Hc. unfold Size. destruct (Z.ltb_spec (cb_size cb) (cb_capacity cb)).
    - apply lastn_all. rewrite length_app. simpl. lia.
    - unfold lastn. rewrite length_app. simpl.
      replace (length (contents cb) + 1 - Z.to_nat (cb_capacity cb))%nat with 1%nat by lia.
      rewrite drop_app_le by lia. done. }
  split; [|done].
  apply (f_equal length) in Hc'. rewrite contents_length in Hc'. unfold Size in *.
  pose proof (wf_size cb' Hwf').
  destruct (Z.ltb_spec (cb_size cb) (cb_capacity cb));
    rewrite length_app, ?length_drop in Hc'; simpl in Hc'; lia.
Qed.

(** X5.  [Clear] empties a well-formed buffer and keeps its capacity:
    every [Get] then returns nil, and lines added afterwards are stored
    as in a new buffer. *)
Theorem Clear_resets cb :
  cb_wf cb ->
  Size (Clear cb) = 0 /\
  cb_capacity (Clear cb) = cb_capacity cb /\
  (forall i, Get (Clear cb) i = Ok None) /\
  (forall lines, exists cb',
     AddAll (Clear cb) lines = Ok cb' /\ cb_wf cb' /\
     contents cb' = lastn (Z.to_nat (cb_capacity cb)) (Some <$> lines)).
Proof.
  intros Hwf. destruct (Clear_wf cb Hwf) as (Hcw & Hcc & Hce).
  split; [done|]. split; [done|]. split.
  - intros i. unfold Get. cbn [Clear cb_size].
    destruct (Z.ltb_spec i 0); [done|]. by destruct (Z.leb_spec 0 i); [|lia].
  - intros lines. destruct (AddAll_spec lines (Clear cb) Hcw) as (cb' & Ha & Hwf' & _ & Hc).
    exists cb'. split; [done|]. split; [done|]. by rewrite Hc, Hce, Hcc.
Qed.

(** X6.  A capacity that is not positive makes the buffer unusable: the
    constructor panics for a negative capacity, and with capacity 0 it
    returns a buffer on which every [Add] panics. *)
Theorem nonpositive_capacity_panics (c : Z) :
  c <= 0 ->
  if c <? 0 then NewCircularBuffer c = Panic
  else exists cb, NewCircularBuffer c = Ok cb /\ forall line, Add cb line = Panic.
Proof.
  intros Hc. unfold NewCircularBuffer. destruct (Z.ltb_spec c 0); [done|].
  assert (c = 0) as -> by lia. eexists. split; [reflexivity|]. done.
Qed.

End CircularBufferMoreFacts.

Section CircularBufferMoreExamples.
#[local] Existing Instance SmallRuntime.runtime.

Lemma wrapped_wf : cb_wf MoreExamples.wrapped.
Proof. constructor; cbn; try lia; reflexivity. Defined.

Lemma GetRange_spec_witness :
  cb_wf MoreExamples.wrapped /\
  GetRange MoreExamples.wrapped 0 5 =
    Ok [Some (Examples.textLine 2 "b"); Some (Examples.textLine 3 "c")].
Proof.
  split; [exact wrapped_wf|].
  rewrite (GetRange_spec MoreExamples.wrapped 0 5 wrapped_wf). reflexivity.
Defined.

Lemma GetLast_spec_witness :
  cb_wf MoreExamples.wrapped /\
  GetLast MoreExamples.wrapped 1 = Ok [Some (Examples.textLine 3 "c")].
Proof.
  split; [exact wrapped_wf|].
  rewrite (GetLast_spec MoreExamples.wrapped 1 wrapped_wf). reflexivity.
Defined.

(** Counting the lines up to and including the first one from line
    number 3 on. *)
Lemma ForEach_spec_witness :
  cb_wf MoreExamples.wrapped /\
  ForEach MoreExamples.wrapped
    (fun x n => Ok (n + 1, match x with Some l => LineNum l <? 3 | None => true end)) 0 =
  Ok 2.
Proof.
  split; [exact wrapped_wf|].
  rewrite (ForEach_spec MoreExamples.wrapped _ 0 wrapped_wf). reflexivity.
Defined.

Lemma Add_any_state_witness :
  cb_wf MoreExamples.wrapped /\
  exists cb', Add MoreExamples.wrapped (Examples.textLine 4 "d") = Ok cb' /\
    contents cb' = [Some (Examples.textLine 3 "c"); Some (Examples.textLine 4 "d")].
Proof.
  split; [exact wrapped_wf|].
  destruct (Add_any_state MoreExamples.wrapped (Examples.textLine 4 "d") wrapped_wf)
    as (cb' & Ha & _ & _ & _ & Hc).
  exists cb'. split; [exact Ha|]. rewrite Hc. reflexivity.
Defined.

Lemma Clear_resets_witness :
  cb_wf MoreExamples.wrapped /\
  Size (Clear MoreExamples.wrapped) = 0 /\
  forall i, Get (Clear MoreExamples.wrapped) i = Ok None.
Proof.
  split; [exact wrapped_wf|].
  destruct (Clear_resets MoreExamples.wrapped wrapped_wf) as (Hs & _ & Hg & _).
  split; [exact Hs|exact Hg].
Defined.

Lemma nonpositive_capacity_panics_witness :
  0 <= 0 /\
  exists cb, NewCircularBuffer 0 = Ok cb /\ forall line, Add cb line = Panic.
Proof.
  split; [lia|]. exact (nonpositive_capacity_panics 0 ltac:(lia)).
Defined.

End CircularBufferMoreExamples.

(** ** What the advanced query parser produces *)

Section StringFacts.

Lemma HasPrefix_true (t p : gostring) :
  HasPrefix t p = true <-> exists r, t = p ++ r.
Proof.
  revert t. induction p as [|c p IH]; intros t.
  - split; [by exists t|by destruct t].
  - destruct t as [|d t]; simpl; [split; [done|by intros (r & ?)]|].
    destruct (decide (c = d)) as [->|Hne].
    + rewrite IH. split; intros (r & Hr); exists r; [by rewrite Hr|by injection Hr].
    + split; [done|]. intros (r & Hr). by injection Hr as <- _.
Qed.

Lemma HasPrefix_app_prefix (t p q : gostring) :
  HasPrefix t (p ++ q) = true -> HasPrefix t p = true.
Proof.
  rewrite !HasPrefix_true. intros (r & ->). exists (q ++ r). by rewrite app_assoc.
Qed.

Lemma Index_Some (s sub : gostring) (i : nat) :
  Index s sub = Some i ->
  (i <= length s)%nat /\ HasPrefix (drop i s) sub = true /\
  forall j, (j < i)%nat -> HasPrefix (drop j s) sub = false.
Proof.
  revert i. induction s as [|c s IH]; intros i; cbn [Index].
  - destruct (HasPrefix [] sub) eqn:E; [|done]. intros [= <-].
    split; [done|]. split; [done|]. intros j Hj. lia.
  - destruct (HasPrefix (c :: s) sub) eqn:E.
    + intros [= <-]. split; [simpl; lia|]. split; [done|]. intros j Hj. lia.
    + destruct (Index s sub) as [k|] eqn:Ek; [|done]. cbn. intros [= <-].
      destruct (IH k eq_refl) as (Hk & Hp & Hmin).
      split; [simpl; lia|]. split; [done|].
      intros [|j] Hj; [done|]. cbn [drop]. apply Hmin. lia.
Qed.

Lemma Index_None (s sub : gostring) (j : nat) :
  Index s sub = None -> (j <= length s)%nat -> HasPrefix (drop j s) sub = false.
Proof.
  revert j. induction s as [|c s IH]; intros j; cbn [Index].
  - destruct (HasPrefix [] sub) eqn:E; [done|]. intros _ Hj. by destruct j.
  - destruct (HasPrefix (c :: s) sub) eqn:E; [done|].
    destruct (Index s sub) as [k|] eqn:Ek; [done|]. intros _ Hj.
    destruct j as [|j]; [done|]. cbn [drop]. apply IH; [done|]. simpl in Hj. lia.
Qed.

Lemma Index_split (s sub : gostring) (i : nat) :
  Index s sub = Some i -> s = take i s ++ sub ++ drop (i + length sub) s.
Proof.
  intros Hi. destruct (Index_Some s sub i Hi) as (_ & Hp & _).
  apply HasPrefix_true in Hp as (r & Hr).
  rewrite <- (take_drop i s) at 1. f_equal. rewrite Hr. f_equal.
  rewrite <- drop_drop, Hr. by rewrite drop_app_length.
Qed.

Lemma Index_prefix_found (s p q : gostring) (i : nat) :
  Index s (p ++ q) = Some i -> exists j, Index s p = Some j.
Proof.
  intros Hi. destruct (Index_Some _ _ _ Hi) as (Hl & Hp & _).
  apply HasPrefix_app_prefix in Hp.
  destruct (Index s p) as [j|] eqn:E; [by exists j|].
  by rewrite (Index_None s p i E Hl) in Hp.
Qed.

Lemma Contains_true (s sub : gostring) :
  Contains s sub = true <-> exists a b, s = a ++ sub ++ b.
Proof.
  unfold Contains. split.
  - destruct (Index s sub) as [i|] eqn:E; [|done]. intros _.
    eexists _, _. by apply Index_split.
  - intros (a & b & ->). destruct (Index (a ++ sub ++ b) sub) eqn:E; [done|].
    pose proof (Index_None _ _ (length a) E) as Hn.
    rewrite drop_app_length in Hn.
    assert (HasPrefix (sub ++ b) sub = true) as Hp by (apply HasPrefix_true; by exists b).
    rewrite Hn in Hp; [done|]. rewrite length_app. lia.
Qed.

End StringFacts.

Section ParsedTerms.
Context `{GoRuntime}.

Lemma findOperator_spec (ops : list gostring) (token field op value : gostring) :
  findOperator ops token = (field, op, value) ->
  (field = [] /\ op = [] /\ value = [] /\ forall o, o ∈ ops -> Index token o = None) \/
  (exists pre post i,
     ops = pre ++ op :: post /\ (forall o, o ∈ pre -> Index token o = None) /\
     Index token op = Some i /\ field = take i token /\
     value = drop (i + length op) token).
Proof.
  induction ops as [|o ops IH]; cbn [findOperator].
  - intros [= <- <- <-]. left. split_and!; try done. intros o Ho. by apply elem_of_nil in Ho.
  - destruct (Index token o) as [i|] eqn:E.
    + intros [= <- <- <-]. right. exists [], ops, i. split_and!; try done.
      intros o' Ho. by apply elem_of_nil in Ho.
    + intros Hf. destruct (IH Hf) as [(-> & -> & -> & Hn)|(pre & post & i & -> & Hn & Hi & -> & ->)].
      * left. split_and!; try done. intros o' [->|Ho]%elem_of_cons; auto.
      * right. exists (o :: pre), post, i. split_and!; try done.
        intros o' [->|Ho]%elem_of_cons; auto.
Qed.

(** X7.  A field term is cut at the first operator of the list
    [:!=], [:~], [:>], [:<], [:>=], [:<=], [:] that occurs in the token.
    The term prints back to the token, its field is not empty, and the
    operator is never [:>=] or [:<=]: wherever one of these occurs, [:>]
    or [:<] occurs too and comes first in the list. *)
Theorem parsed_operator_never_ge_le (token : gostring) (fe : FieldExpression) :
  parseFieldExpression token = Ok fe ->
  token = fe_Field fe ++ fe_Operator fe ++ fe_Value fe /\
  fe_Field fe <> [] /\
  fe_Operator fe ∈ [lit ":!="; lit ":~"; lit ":>"; lit ":<"; lit ":"].
Proof.
  unfold parseFieldExpression.
  destruct (findOperator operators token) as [[field op] value] eqn:Ef.
  unfold str_eqb at 1 2. case_bool_decide as Hfield; [done|].
  case_bool_decide as Hop; [done|]. cbn [orb].
  intros Hres.
  assert (Hfe : fe_Field fe = field /\ fe_Operator fe = op /\ fe_Value fe = value).
  { destruct (_ || _) in Hres.
    - destruct (regexp_Compile value); by simplify_eq.
    - by simplify_eq. }
  destruct Hfe as (-> & -> & ->). clear Hres.
  apply findOperator_spec in Ef as [(_ & ? & _)|(pre & post & i & Hops & Hn & Hi & Hf & Hv)];
    [done|].
  split; [rewrite Hf, Hv; by apply Index_split|]. split; [done|].
  unfold operators in Hops.
  destruct pre as [|o0 [|o1 [|o2 [|o3 [|o4 [|o5 [|o6 pre]]]]]]]; simplify_eq/=.
  - set_solver.
  - set_solver.
  - set_solver.
  - set_solver.
  - exfalso. destruct (Index_prefix_found token (lit ":>") (lit "=") i Hi) as [j Hj].
    rewrite Hn in Hj; [done|set_solver].
  - exfalso. destruct (Index_prefix_found token (lit ":<") (lit "=") i Hi) as [j Hj].
    rewrite Hn in Hj; [done|set_solver].
  - set_solver.
  - by destruct pre.
Qed.

Lemma HasPrefix_head_absent (s o : gostring) (c : ascii) :
  c ∉ s -> HasPrefix s (c :: o) = false.
Proof.
  destruct s as [|d s]; [done|]. intros Hn. simpl.
  destruct (decide (c = d)) as [->|]; [|done]. exfalso. apply Hn. by left.
Qed.

Lemma Index_head_absent (s o : gostring) (c : ascii) :
  c ∉ s -> Index s (c :: o) = None.
Proof.
  induction s as [|d s IH]; intros Hn; cbn [Index].
  - done.
  - rewrite HasPrefix_head_absent by done. rewrite IH; [done|].
    intros Hin. apply Hn. by right.
Qed.

Lemma Index_first_occurrence (f r o : gostring) (c : ascii) :
  c ∉ f ->
  Index (f ++ c :: r) (c :: o) =
    if HasPrefix r o then Some (length f)
    else (fun i => (length f + 1 + i)%nat) <$> Index r (c :: o).
Proof.
  induction f as [|d f IH]; intros Hn.
  - cbn [app length Index HasPrefix]. destruct (decide (c = c)); [|done].
    destruct (HasPrefix r o); [done|]. by destruct (Index r (c :: o)).
  - cbn [app Index]. simpl HasPrefix.
    destruct (decide (c = d)) as [->|_]; [exfalso; apply Hn; by left|].
    rewrite IH by (intros Hin; apply Hn; by right).
    destruct (HasPrefix r o); [done|]. by destruct (Index r (c :: o)).
Qed.

(** X8.  So a comparison written with [>=] is not read as such: for a
    field name and a value without colon, the token [field:>=value] is
    the field [field], the operator [:>] and the value [=value], and it
    is evaluated by comparing the field of the line with [=value]. *)
Theorem ge_read_as_gt (field value : gostring) (fe : FieldExpression)
    (line : LogLine) (f : FilterEngine) :
  field <> [] -> colon ∉ field -> colon ∉ value ->
  parseFieldExpression (field ++ lit ":>=" ++ value) = Ok fe ->
  fe_Field fe = field /\ fe_Operator fe = lit ":>" /\
  fe_Value fe = lit "=" ++ value /\
  Evaluate (FieldExpr fe) line f =
    matchComparison (extractFieldValue f line field) (lit "=" ++ value) (lit ":>").
Proof.
  intros Hne Hf Hv. unfold parseFieldExpression, operators. cbn [findOperator].
  change (field ++ lit ":>=" ++ value) with (field ++ colon :: (lit ">=" ++ value)).
  assert (Hrest : colon ∉ lit ">=" ++ value).
  { intros [Hin|Hin]%elem_of_app; [|done].
    by repeat (apply elem_of_cons in Hin as [?|Hin]; [done|]; try apply elem_of_nil in Hin). }
  change (lit ":!=") with (colon :: lit "!=").
  rewrite (Index_first_occurrence field _ (lit "!=") colon Hf).
  change (HasPrefix (lit ">=" ++ value) (lit "!=")) with false. cbv iota.
  rewrite (Index_head_absent _ (lit "!=") colon Hrest). cbn [fmap option_fmap option_map].
  change (lit ":~") with (colon :: lit "~").
  rewrite (Index_first_occurrence field _ (lit "~") colon Hf).
  change (HasPrefix (lit ">=" ++ value) (lit "~")) with false. cbv iota.
  rewrite (Index_head_absent _ (lit "~") colon Hrest). cbn [fmap option_fmap option_map].
  change (lit ":>") with (colon :: lit ">").
  rewrite (Index_first_occurrence field _ (lit ">") colon Hf).
  change (HasPrefix (lit ">=" ++ value) (lit ">")) with true. cbv iota.
  rewrite take_app_length.
  replace (drop (length field + length (colon :: lit ">")) (field ++ colon :: lit ">=" ++ value))
    with (lit "=" ++ value).
  2: { rewrite drop_app_ge by lia.
       by replace (length field + length (colon :: lit ">") - length field)%nat with 2%nat by (simpl; lia). }
  unfold str_eqb at 1 2. rewrite bool_decide_eq_false_2 by done.
  rewrite bool_decide_eq_false_2 by done. cbn [orb].
  intros Hres.
  assert (Hfe : fe_Field fe = field /\ fe_Operator fe = colon :: lit ">" /\
                fe_Value fe = lit "=" ++ value).
  { destruct (_ || _) in Hres.
    - destruct (regexp_Compile (lit "=" ++ value)); simplify_eq; done.
    - simplify_eq. done. }
  destruct Hfe as (Hf1 & Hf2 & Hf3). split_and!; try done.
  cbn [Evaluate]. unfold FieldExpression_Evaluate, matchFieldExpression.
  rewrite Hf1, Hf2, Hf3. reflexivity.
Qed.

Lemma HasPrefix_time_Contains (token : gostring) :
  HasPrefix token (lit "time:[") = true -> Contains token (lit ":") = true.
Proof.
  intros (r & ->)%HasPrefix_true. apply Contains_true.
  by exists (lit "time"), (lit "[" ++ r).
Qed.

Lemma no_time_range_fuel (now : Time) (n : nat) :
  forall p : AdvancedQueryParser,
    (forall e p', parseExpression n now p = Ok (e, p') -> has_time_range e = false) /\
    (forall lhs e p', has_time_range lhs = false ->
       parseExpression_loop n now lhs p = Ok (e, p') -> has_time_range e = false) /\
    (forall e p', parseAndExpression n now p = Ok (e, p') -> has_time_range e = false) /\
    (forall lhs e p', has_time_range lhs = false ->
       parseAndExpression_loop n now lhs p = Ok (e, p') -> has_time_range e = false) /\
    (forall e p', parseUnaryExpression n now p = Ok (e, p') -> has_time_range e = false) /\
    (forall e p', parsePrimaryExpression n now p = Ok (e, p') -> has_time_range e = false).
Proof.
  induction n as [|m IH]; intros p; [split_and!; intros; done|].
  split_and!.
  - intros e p'. cbn [parseExpression].
    destruct (parseAndExpression m now p) as [[lhs p1]| | |] eqn:E1; try done.
    cbn [obind]. destruct (IH p) as (_ & _ & HA & _). destruct (IH p1) as (_ & HL & _).
    apply HL. by apply (HA lhs p1).
  - intros lhs e p' Hl. cbn [parseExpression_loop].
    destruct (_ <? _)%nat; [|by intros [= <- <-]].
    destruct (matchKeyword (skipWhitespace p) (lit "OR")) as [b p2].
    destruct b; cbn [negb]; [|by intros [= <- <-]].
    destruct (parseAndExpression m now p2) as [[rhs p3]| | |] eqn:E1; try done.
    cbn [obind]. destruct (IH p2) as (_ & _ & HA & _). destruct (IH p3) as (_ & HL & _).
    apply HL. cbn [has_time_range]. by rewrite Hl, (HA rhs p3).
  - intros e p'. cbn [parseAndExpression].
    destruct (parseUnaryExpression m now p) as [[lhs p1]| | |] eqn:E1; try done.
    cbn [obind]. destruct (IH p) as (_ & _ & _ & _ & HU & _).
    destruct (IH p1) as (_ & _ & _ & HL & _).
    apply HL. by apply (HU lhs p1).
  - intros lhs e p' Hl. cbn [parseAndExpression_loop].
    destruct (_ <? _)%nat; [|by intros [= <- <-]].
    destruct (matchKeyword (skipWhitespace p) (lit "AND")) as [b p2].
    destruct (negb b && negb (lookaheadForExpression p2)); [by intros [= <- <-]|].
    destruct (parseUnaryExpression m now p2) as [[rhs p3]| | |] eqn:E1; try done.
    cbn [obind]. destruct (IH p2) as (_ & _ & _ & _ & HU & _).
    destruct (IH p3) as (_ & _ & _ & HL & _).
    apply HL. cbn [has_time_range]. by rewrite Hl, (HU rhs p3).
  - intros e p'. cbn [parseUnaryExpression].
    destruct (matchKeyword (skipWhitespace p) (lit "NOT")) as [b p2].
    destruct b.
    + destruct (parseUnaryExpression m now p2) as [[x p3]| | |] eqn:E1; try done.
      cbn [obind]. intros [= <- <-]. cbn [has_time_range].
      destruct (IH p2) as (_ & _ & _ & _ & HU & _). by apply (HU x p3).
    + destruct (IH p2) as (_ & _ & _ & _ & _ & HP). apply HP.
  - intros e p'. cbn [parsePrimaryExpression].
    destruct (input (skipWhitespace p) !! pos (skipWhitespace p)) as [ch|]; [|done].
    destruct (decide (ch = "("%char)).
    + destruct (parseExpression m now _) as [[x p3]| | |] eqn:E1; try done.
      cbn [obind]. cbv zeta.
      destruct (input (skipWhitespace p3) !! pos (skipWhitespace p3)) as [ch'|]; [|done].
      destruct (decide (ch' = ")"%char)); [|done]. intros [= <- <-].
      destruct (IH (setPos (skipWhitespace p) (S (pos (skipWhitespace p))))) as (HE & _).
      by apply (HE x p3).
    + destruct (parseToken (skipWhitespace p)) as [tok p2].
      destruct (str_eqb tok []); [done|].
      destruct (Contains tok (lit ":")) eqn:Ec.
      { destruct (parseFieldExpression tok); try done. cbn [obind]. by intros [= <- <-]. }
      destruct (HasPrefix tok (lit "time:[")) eqn:Et.
      { apply HasPrefix_time_Contains in Et. congruence. }
      destruct (parseTextExpression tok); try done. cbn [obind]. by intros [= <- <-].
Qed.

(** X9.  No query is ever parsed into a tree with a time range in it.
    A token that starts with [time:[] holds a colon, and
    [parsePrimaryExpression] hands every token with a colon to
    [parseFieldExpression] before it looks for that prefix. *)
Theorem parser_never_time_range (f : FilterEngine) (now : Time)
    (query : gostring) (e : QueryExpression) :
  ParseAdvancedQuery f now query = Ok e -> has_time_range e = false.
Proof.
  unfold ParseAdvancedQuery. cbv zeta.
  destruct (parseExpression _ now _) as [[e' p']| | |] eqn:E; try done.
  cbn [obind]. intros [= <-].
  match type of E with
  | parseExpression ?n _ ?p = _ => destruct (no_time_range_fuel now n p) as (HE & _)
  end.
  by apply (HE e' p').
Qed.

End ParsedTerms.

Section ParsedTermsExamples.
#[local] Existing Instance SmallRuntime.runtime.

Lemma parsed_operator_never_ge_le_witness :
  parseFieldExpression (lit "status:>=500") = Ok MoreExamples.statusGe /\
  (lit "status:>=500" =
     fe_Field MoreExamples.statusGe ++ fe_Operator MoreExamples.statusGe ++
     fe_Value MoreExamples.statusGe /\
   fe_Field MoreExamples.statusGe <> [] /\
   fe_Operator MoreExamples.statusGe ∈ [lit ":!="; lit ":~"; lit ":>"; lit ":<"; lit ":"]).
Proof.
  split; [reflexivity|].
  apply (parsed_operator_never_ge_le (lit "status:>=500") MoreExamples.statusGe).
  reflexivity.
Defined.

Lemma ge_read_as_gt_witness :
  parseFieldExpression (lit "status" ++ lit ":>=" ++ lit "500") = Ok MoreExamples.statusGe /\
  (fe_Field MoreExamples.statusGe = lit "status" /\
   fe_Operator MoreExamples.statusGe = lit ":>" /\
   fe_Value MoreExamples.statusGe = lit "=" ++ lit "500" /\
   Evaluate (FieldExpr MoreExamples.statusGe) Examples.lineS2 Examples.engine0 =
     matchComparison (extractFieldValue Examples.engine0 Examples.lineS2 (lit "status"))
       (lit "=" ++ lit "500") (lit ":>")).
Proof.
  split; [reflexivity|].
  apply (ge_read_as_gt (lit "status") (lit "500") MoreExamples.statusGe
           Examples.lineS2 Examples.engine0).
  - discriminate.
  - by apply (bool_decide_unpack _).
  - by apply (bool_decide_unpack _).
  - reflexivity.
Defined.

Lemma parser_never_time_range_witness :
  ParseAdvancedQuery Examples.engine0 Examples.wall0 (lit "time:[10:00:00 TO 11:00:00]") =
    Ok (FieldExpr (mkFieldExpression (lit "time") (lit ":") (lit "[10:00:00 TO 11:00:00]") None)) /\
  has_time_range
    (FieldExpr (mkFieldExpression (lit "time") (lit ":") (lit "[10:00:00 TO 11:00:00]") None)) = false.
Proof.
  split; [reflexivity|].
  apply (parser_never_time_range Examples.engine0 Examples.wall0
           (lit "time:[10:00:00 TO 11:00:00]")).
  reflexivity.
Defined.

End ParsedTermsExamples.

(** ** How the advanced query parser groups terms *)

Section Grouping.
Context `{GoRuntime}.

Lemma ParseAdvancedQuery_graphic (f : FilterEngine) (now : Time) (inp : gostring) :
  (forall c, head inp = Some c -> 33 <= byte_val c <= 126) ->
  (forall c, last inp = Some c -> 33 <= byte_val c <= 126) ->
  ParseAdvancedQuery f now inp =
    let* (e, _) := parseExpression (parseFuel inp) now (mkAQP inp 0) in Ok e.
Proof. intros Hh Hl. unfold ParseAdvancedQuery. by rewrite TrimSpace_graphic. Qed.

Lemma head_printed_app (e : QueryExpression) (rest : gostring) (c : ascii) :
  printable e -> head (QueryString e ++ rest) = Some c -> 33 <= byte_val c <= 126.
Proof.
  intros Hp Hh. apply (printable_first e c Hp).
  destruct (printed_head e Hp) as (c0 & s0 & Hq & _). by rewrite Hq in Hh |- *.
Qed.

Lemma last_app_printed (e : QueryExpression) (pre : gostring) (c : ascii) :
  printable e -> last (pre ++ QueryString e) = Some c -> 33 <= byte_val c <= 126.
Proof.
  intros Hp Hl. apply (printable_last e c Hp).
  destruct (printed_head e Hp) as (c0 & s0 & Hq & _).
  rewrite last_app in Hl. destruct (last (QueryString e)) eqn:E; [done|].
  rewrite Hq in E. by rewrite last_cons in E; destruct (last s0).
Qed.

Lemma lit_ascii (s : string) :
  forallb (fun c => byte_val c <? 128) (lit s) = true -> Forall is_ascii (lit s).
Proof.
  intros Hf. apply Forall_forall. intros c Hc.
  rewrite forallb_forall in Hf. apply Z.ltb_lt, Hf. by apply list_elem_of_In.
Qed.

(** X10.  [AND] binds tighter than [OR], whichever comes first: for
    sub-expressions [a], [b], [c] in printed form, [a OR b AND c] is
    parsed as [a OR (b AND c)] and [a AND b OR c] as [(a AND b) OR c]. *)
Theorem and_binds_tighter (f : FilterEngine) (now : Time) (a b c : QueryExpression) :
  printable a -> printable b -> printable c ->
  ParseAdvancedQuery f now
    (QueryString a ++ lit " OR " ++ QueryString b ++ lit " AND " ++ QueryString c) =
    Ok (OrExpression a (AndExpression b c)) /\
  ParseAdvancedQuery f now
    (QueryString a ++ lit " AND " ++ QueryString b ++ lit " OR " ++ QueryString c) =
    Ok (OrExpression (AndExpression a b) c).
Proof.
  intros Ha Hb Hc. pose proof (need_le a). pose proof (need_le b). pose proof (need_le c).
  split.
  - set (inp := QueryString a ++ lit " OR " ++ QueryString b ++ lit " AND " ++ QueryString c).
    assert (Hasc : Forall is_ascii inp).
    { unfold inp. rewrite !Forall_app.
      split_and!; try (by apply printable_ascii); by apply lit_ascii. }
    assert (Hlen : (length (QueryString a) + length (QueryString b) +
                    length (QueryString c) <= length inp)%nat).
    { unfold inp. rewrite !length_app. lia. }
    rewrite ParseAdvancedQuery_graphic.
    2: { intros ch. by apply head_printed_app. }
    2: { intros ch. unfold inp. rewrite !app_assoc. by apply last_app_printed. }
    unfold parseFuel. set (n := (6 * length inp + 3)%nat).
    replace (6 * length inp + 8)%nat with (S (S (S (S (S n))))) by lia.
    cbn [parseExpression parseAndExpression].
    destruct (parseUnary_printed now inp Hasc a Ha (S (S (S n))) 0
                (lit " OR " ++ QueryString b ++ lit " AND " ++ QueryString c))
      as (j1 & -> & Hj1); [lia|done|by left|].
    cbn [obind]. rewrite (and_loop_or now inp Hasc _ j1 _ a Hj1). cbn [obind].
    pose proof (drop_cons_eq _ _ _ _ Hj1) as Hj1'.
    rewrite (or_loop_or now inp Hasc _ (S j1) _ a Hj1'). cbn [parseAndExpression].
    pose proof (drop_app_eq inp (S j1) (lit "OR") _ Hj1') as Hj1''.
    rewrite (parseUnary_skip now inp _ _ _ Hj1'').
    destruct (parseUnary_printed now inp Hasc b Hb (S (S n)) (S (S j1 + length (lit "OR")))
                (lit " AND " ++ QueryString c))
      as (j2 & -> & Hj2); [lia|exact (drop_cons_eq _ _ _ _ Hj1'')|by left|].
    cbn [obind]. rewrite (and_loop_and now inp Hasc _ j2 _ b Hj2).
    destruct (parseUnary_printed now inp Hasc c Hc (S n) (j2 + 5)%nat [])
      as (j3 & -> & Hj3); [lia| |done|].
    { rewrite app_nil_r. exact (drop_app_eq inp j2 (lit " AND ") _ Hj2). }
    cbn [obind]. rewrite (and_loop_end now inp _ j3 _ Hj3). cbn [obind].
    by rewrite (or_loop_end now inp _ j3 _ Hj3).
  - set (inp := QueryString a ++ lit " AND " ++ QueryString b ++ lit " OR " ++ QueryString c).
    assert (Hasc : Forall is_ascii inp).
    { unfold inp. rewrite !Forall_app.
      split_and!; try (by apply printable_ascii); by apply lit_ascii. }
    assert (Hlen : (length (QueryString a) + length (QueryString b) +
                    length (QueryString c) <= length inp)%nat).
    { unfold inp. rewrite !length_app. lia. }
    rewrite ParseAdvancedQuery_graphic.
    2: { intros ch. by apply head_printed_app. }
    2: { intros ch. unfold inp. rewrite !app_assoc. by apply last_app_printed. }
    unfold parseFuel. set (n := (6 * length inp + 3)%nat).
    replace (6 * length inp + 8)%nat with (S (S (S (S (S n))))) by lia.
    cbn [parseExpression parseAndExpression].
    destruct (parseUnary_printed now inp Hasc a Ha (S (S (S n))) 0
                (lit " AND " ++ QueryString b ++ lit " OR " ++ QueryString c))
      as (j1 & -> & Hj1); [lia|done|by left|].
    cbn [obind]. rewrite (and_loop_and now inp Hasc _ j1 _ a Hj1).
    destruct (parseUnary_printed now inp Hasc b Hb (S (S n)) (j1 + 5)%nat
                (lit " OR " ++ QueryString c))
      as (j2 & -> & Hj2); [lia|exact (drop_app_eq inp j1 (lit " AND ") _ Hj1)|by left|].
    cbn [obind]. rewrite (and_loop_or now inp Hasc _ j2 _ _ Hj2). cbn [obind].
    pose proof (drop_cons_eq _ _ _ _ Hj2) as Hj2'.
    rewrite (or_loop_or now inp Hasc _ (S j2) _ _ Hj2'). cbn [parseAndExpression].
    pose proof (drop_app_eq inp (S j2) (lit "OR") _ Hj2') as Hj2''.
    rewrite (parseUnary_skip now inp _ _ _ Hj2'').
    destruct (parseUnary_printed now inp Hasc c Hc (S (S n)) (S (S j2 + length (lit "OR"))) [])
      as (j3 & -> & Hj3); [lia| |done|].
    { rewrite app_nil_r. exact (drop_cons_eq _ _ _ _ Hj2''). }
    cbn [obind]. rewrite (and_loop_end now inp _ j3 _ Hj3). cbn [obind].
    by rewrite (or_loop_end now inp _ j3 _ Hj3).
Qed.

Lemma upperLetter_spec (k : ascii) :
  upperLetter k = true ->
  ascii_upper k = k /\ isBlank k = false /\ k <> " "%char /\ k <> ")"%char.
Proof.
  unfold upperLetter, ascii_upper, isBlank. intros [Hl Hu]%andb_true_iff.
  apply Z.leb_le in Hl, Hu.
  destruct (Z.leb_spec 97 (byte_val k)); [lia|]. cbn [andb].
  split; [done|].
  assert (Hne : forall d : ascii, byte_val d < 65 -> k <> d) by (intros d Hd ->; lia).
  rewrite !bool_decide_eq_false_2 by (apply Hne; by vm_compute).
  split_and!; [done|apply Hne; by vm_compute|apply Hne; by vm_compute].
Qed.

(** A token that does not start with the keyword is not taken for it. *)
Lemma matchKeyword_no_keyword (inp tok rest kw : gostring) (i : nat) (c : ascii) (s : gostring) :
  Forall is_ascii inp ->
  drop i inp = tok ++ rest ->
  tok = c :: s -> isBlank c = false ->
  follow_ok rest ->
  kw <> [] -> Forall (fun k => upperLetter k = true) kw ->
  startsWithKeyword kw tok = false ->
  matchKeyword (mkAQP inp i) kw = (false, mkAQP inp i).
Proof.
  intros Ha Hd Htok Hc Hf Hkw Hup Hn.
  assert (Hd' : drop i inp = c :: (s ++ rest)) by (by rewrite Hd, Htok).
  rewrite (matchKeyword_at inp (s ++ rest) kw i c Ha Hd' Hc).
  change (c :: s ++ rest) with ((c :: s) ++ rest). rewrite <- Htok.
  destruct (Nat.ltb_spec (length (tok ++ rest)) (length kw)) as [|Hlen]; [done|].
  destruct (str_eqb (map ascii_upper (take (length kw) (tok ++ rest))) kw) eqn:Heq; [|done].
  unfold str_eqb in Heq. apply bool_decide_eq_true in Heq.
  destruct (decide (length kw <= length tok)%nat) as [Hle|Hgt].
  - rewrite take_app_le in Heq by done.
    unfold startsWithKeyword, str_eqb in Hn. rewrite bool_decide_eq_true_2 in Hn by done.
    cbn [andb] in Hn.
    destruct (tok !! length kw) as [ch|] eqn:Ech; [|done].
    rewrite (lookup_app_l_Some _ _ _ _ Ech). apply negb_false_iff in Hn. by rewrite Hn.
  - exfalso. rewrite length_app in Hlen.
    destruct rest as [|r0 rest]; [simpl in Hlen; lia|].
    assert (Hk : kw !! length tok = Some (ascii_upper r0)).
    { pose proof (f_equal (fun l : gostring => l !! length tok) Heq) as Hk. cbn beta in Hk.
      rewrite <- Hk. change (map ascii_upper) with (fmap (M:=list) ascii_upper).
      unfold gostring in *. rewrite list_lookup_fmap, lookup_take_lt by lia.
      by rewrite lookup_app_r, Nat.sub_diag by lia. }
    assert (Hu : upperLetter (ascii_upper r0) = true).
    { rewrite Forall_forall in Hup. apply Hup. by eapply list_elem_of_lookup_2. }
    destruct Hf as [->| ->]; done.
Qed.

Lemma keyword_AND_upper : Forall (fun k => upperLetter k = true) (lit "AND").
Proof. by repeat constructor. Qed.

Lemma keyword_OR_upper : Forall (fun k => upperLetter k = true) (lit "OR").
Proof. by repeat constructor. Qed.

Lemma and_loop_unfold (now : Time) (fuel : nat) (lhs : QueryExpression)
    (p : AdvancedQueryParser) :
  parseAndExpression_loop (S fuel) now lhs p =
    if (pos p <? length (input p))%nat then
      let p := skipWhitespace p in
      let '(isExplicitAnd, p) := matchKeyword p (lit "AND") in
      if negb isExplicitAnd && negb (lookaheadForExpression p) then Ok (lhs, p)
      else
        let* (rhs, p) := parseUnaryExpression fuel now p in
        parseAndExpression_loop fuel now (AndExpression lhs rhs) p
    else Ok (lhs, p).
Proof. reflexivity. Qed.

Lemma or_loop_unfold (now : Time) (fuel : nat) (lhs : QueryExpression)
    (p : AdvancedQueryParser) :
  parseExpression_loop (S fuel) now lhs p =
    if (pos p <? length (input p))%nat then
      let p := skipWhitespace p in
      let '(isOr, p) := matchKeyword p (lit "OR") in
      if negb isOr then Ok (lhs, p)
      else
        let* (rhs, p) := parseAndExpression fuel now p in
        parseExpression_loop fuel now (OrExpression lhs rhs) p
    else Ok (lhs, p).
Proof. reflexivity. Qed.

(** X11.  Two terms side by side are joined by an implicit [AND] when
    the second one is a field term (its token holds a colon) that does
    not start with the keyword [AND]. *)
Theorem implicit_and (f : FilterEngine) (now : Time) (a : QueryExpression)
    (fe : FieldExpression) :
  printable a -> printable (FieldExpr fe) ->
  startsWithKeyword (lit "AND") (QueryString (FieldExpr fe)) = false ->
  ParseAdvancedQuery f now (QueryString a ++ lit " " ++ QueryString (FieldExpr fe)) =
    Ok (AndExpression a (FieldExpr fe)).
Proof.
  intros Ha Hb Hkw. pose proof (need_le a). pose proof (need_le (FieldExpr fe)).
  set (tok := QueryString (FieldExpr fe)) in *.
  set (inp := QueryString a ++ lit " " ++ tok).
  assert (Hasc : Forall is_ascii inp).
  { unfold inp. rewrite !Forall_app.
    split_and!; try (by apply printable_ascii); by apply lit_ascii. }
  assert (Hlen : (length (QueryString a) + length tok <= length inp)%nat).
  { unfold inp. rewrite !length_app. lia. }
  rewrite ParseAdvancedQuery_graphic.
  2: { intros ch. by apply head_printed_app. }
  2: { intros ch. unfold inp. rewrite !app_assoc. by apply (last_app_printed (FieldExpr fe)). }
  unfold parseFuel. set (n := (6 * length inp + 3)%nat).
  replace (6 * length inp + 8)%nat with (S (S (S (S (S n))))) by lia.
  cbn [parseExpression parseAndExpression].
  destruct (parseUnary_printed now inp Hasc a Ha (S (S (S n))) 0 (lit " " ++ tok))
    as (j1 & -> & Hj1); [lia|done|by left|].
  cbn [obind]. rewrite and_loop_unfold. cbn [input pos].
  destruct Hb as (Hr & Hcol & Hparse).
  destruct (readable_head tok Hr) as (c0 & s0 & Htok & Hc0 & _ & _).
  assert (Hj1' : drop j1 inp = " "%char :: c0 :: s0) by (by rewrite Hj1, Htok).
  rewrite (pos_lt _ _ _ _ Hj1'), (skipWhitespace_one inp _ j1 _ Hj1' Hc0).
  assert (Hj2 : drop (S j1) inp = tok ++ []).
  { rewrite app_nil_r, Htok. exact (drop_cons_eq _ _ _ _ Hj1'). }
  rewrite (matchKeyword_no_keyword inp tok [] (lit "AND") (S j1) c0 s0); try done.
  2: { apply keyword_AND_upper. }
  unfold lookaheadForExpression. rewrite (readable_token inp tok [] (S j1) Hr Hj2 I).
  fold tok in Hcol. rewrite Hcol. unfold str_eqb. rewrite bool_decide_eq_false_2 by (by rewrite Htok).
  cbn [negb andb orb].
  destruct (parseUnary_printed now inp Hasc (FieldExpr fe) (conj Hr (conj Hcol Hparse))
              (S (S n)) (S j1) []) as (j3 & -> & Hj3); [lia|exact Hj2|done|].
  cbn [obind]. rewrite (and_loop_end now inp _ j3 _ Hj3). cbn [obind].
  by rewrite (or_loop_end now inp _ j3 _ Hj3).
Qed.

(** X12.  Input that does not continue the expression is dropped without
    an error: a bare word after a complete expression (it is not joined
    by an implicit [AND]), and a closing parenthesis that closes nothing,
    with everything behind it. *)
Theorem trailing_input_ignored (f : FilterEngine) (now : Time) (a : QueryExpression)
    (w junk : gostring) :
  printable a ->
  bareWord w ->
  Forall is_ascii junk ->
  (forall c, last (")"%char :: junk) = Some c -> 33 <= byte_val c <= 126) ->
  ParseAdvancedQuery f now (QueryString a ++ lit " " ++ w) = Ok a /\
  ParseAdvancedQuery f now (QueryString a ++ ")"%char :: junk) = Ok a.
Proof.
  intros Ha (Hne & Hg & Hcol & Hq & Ht & Hand & Hor) Hjunk Hlast.
  pose proof (need_le a). split.
  - set (inp := QueryString a ++ lit " " ++ w).
    assert (Hw : Forall is_ascii w).
    { eapply Forall_impl; [exact Hg|]. intros c Hc.
      by destruct (graphicByte_spec c Hc) as (? & ? & ? & ? & ?). }
    assert (Hasc : Forall is_ascii inp).
    { unfold inp. rewrite !Forall_app.
      split_and!; [by apply printable_ascii|by apply lit_ascii|done]. }
    assert (Hlen : (length (QueryString a) <= length inp)%nat).
    { unfold inp. rewrite !length_app. lia. }
    destruct w as [|c0 s0]; [done|].
    apply Forall_cons in Hg as [Hg0 Hgs].
    destruct (graphicByte_spec c0 Hg0) as (_ & Htb0 & Hc0 & _ & _).
    rewrite ParseAdvancedQuery_graphic.
    2: { intros ch. by apply head_printed_app. }
    2: { intros ch Hl. unfold inp in Hl. rewrite !app_assoc, last_app in Hl.
         destruct (last (c0 :: s0)) as [x|] eqn:El; [|by rewrite last_cons in El; destruct (last s0)].
         injection Hl as <-. apply last_Some in El as (l' & El).
         assert (Hx : graphicByte x = true).
         { assert (Hall : Forall (fun c => graphicByte c = true) (c0 :: s0)) by (by constructor).
           rewrite El in Hall. apply Forall_app in Hall as [_ Hall].
           by apply Forall_cons in Hall as [? _]. }
         by destruct (graphicByte_spec x Hx) as (? & _). }
    unfold parseFuel. set (n := (6 * length inp + 3)%nat).
    replace (6 * length inp + 8)%nat with (S (S (S (S (S n))))) by lia.
    cbn [parseExpression parseAndExpression].
    destruct (parseUnary_printed now inp Hasc a Ha (S (S (S n))) 0 (lit " " ++ c0 :: s0))
      as (j1 & -> & Hj1); [lia|done|by left|].
    cbn [obind]. rewrite and_loop_unfold. cbn [input pos].
    assert (Hj1' : drop j1 inp = " "%char :: c0 :: s0) by done.
    rewrite (pos_lt _ _ _ _ Hj1'), (skipWhitespace_one inp _ j1 _ Hj1' Hc0).
    assert (Hj2 : drop (S j1) inp = (c0 :: s0) ++ []).
    { rewrite app_nil_r. exact (drop_cons_eq _ _ _ _ Hj1'). }
    rewrite (matchKeyword_no_keyword inp (c0 :: s0) [] (lit "AND") (S j1) c0 s0); try done.
    2: { apply keyword_AND_upper. }
    assert (Htime : HasPrefix (c0 :: s0) (lit "time:[") = false).
    { destruct (HasPrefix (c0 :: s0) (lit "time:[")) eqn:E; [|done].
      apply HasPrefix_time_Contains in E. congruence. }
    unfold lookaheadForExpression.
    assert (Htb : Forall (fun c => tokenByte c = true) (c0 :: s0)).
    { constructor; [done|]. eapply Forall_impl; [exact Hgs|]. intros c Hc.
      by destruct (graphicByte_spec c Hc) as (? & ? & ? & ? & ?). }
    assert (Hnq : head (c0 :: s0) <> Some quote).
    { intros [= ->].
      assert (HasPrefix (quote :: s0) [quote] = true); [|congruence].
      cbn. destruct (decide (quote = quote)); [by destruct s0|done]. }
    assert (Htime' : HasPrefix ((c0 :: s0) ++ []) (lit "time:[") = false)
      by (by rewrite app_nil_r).
    rewrite (parseToken_regular inp (c0 :: s0) [] (S j1) Hj2 Hne Htb Hnq Htime' I).
    rewrite Hcol, Htime, Ht, Hq. cbn [negb andb orb]. rewrite andb_false_r.
    cbn [negb obind].
    rewrite or_loop_unfold. cbn [input pos].
    assert (Hj2' : drop (S j1) inp = c0 :: s0) by (by rewrite Hj2, app_nil_r).
    rewrite (pos_lt _ _ _ _ Hj2'), (skipWhitespace_id inp _ (S j1) _ Hj2' Hc0).
    rewrite (matchKeyword_no_keyword inp (c0 :: s0) [] (lit "OR") (S j1) c0 s0); try done.
    apply keyword_OR_upper.
  - set (inp := QueryString a ++ ")"%char :: junk).
    assert (Hasc : Forall is_ascii inp).
    { unfold inp. rewrite Forall_app. split; [by apply printable_ascii|].
      constructor; [by vm_compute|done]. }
    assert (Hlen : (length (QueryString a) <= length inp)%nat).
    { unfold inp. rewrite !length_app. lia. }
    rewrite ParseAdvancedQuery_graphic.
    2: { intros ch. by apply head_printed_app. }
    2: { intros ch Hl. unfold inp in Hl. rewrite last_app in Hl.
         destruct (last (")"%char :: junk)) as [x|] eqn:El;
           [|by rewrite last_cons in El; destruct (last junk)].
         injection Hl as <-. by apply Hlast. }
    unfold parseFuel. set (n := (6 * length inp + 3)%nat).
    replace (6 * length inp + 8)%nat with (S (S (S (S (S n))))) by lia.
    cbn [parseExpression parseAndExpression].
    destruct (parseUnary_printed now inp Hasc a Ha (S (S (S n))) 0 (")"%char :: junk))
      as (j1 & -> & Hj1); [lia|done|by right|].
    cbn [obind]. rewrite (and_loop_close now inp Hasc _ j1 _ _ Hj1). cbn [obind].
    by rewrite (or_loop_close now inp Hasc _ j1 _ _ Hj1).
Qed.

End Grouping.

Section GroupingExamples.
#[local] Existing Instance SmallRuntime.runtime.
Import MoreExamples.

Lemma levelError_printable : printable levelError.
Proof.
  repeat split; try (vm_compute; reflexivity).
  left. split_and!; [discriminate|repeat constructor|discriminate|reflexivity].
Defined.

Lemma status500_printable : printable status500.
Proof.
  repeat split; try (vm_compute; reflexivity).
  left. split_and!; [discriminate|repeat constructor|discriminate|reflexivity].
Defined.

Lemma sourceApp_printable : printable sourceApp.
Proof.
  repeat split; try (vm_compute; reflexivity).
  left. split_and!; [discriminate|repeat constructor|discriminate|reflexivity].
Defined.

Lemma boom_bareWord : bareWord (lit "boom").
Proof.
  split_and!; [discriminate|repeat constructor|reflexivity..].
Defined.

Lemma and_binds_tighter_witness :
  ParseAdvancedQuery Examples.engine0 Examples.wall0
    (QueryString levelError ++ lit " OR " ++ QueryString status500 ++ lit " AND " ++
     QueryString sourceApp) =
    Ok (OrExpression levelError (AndExpression status500 sourceApp)) /\
  ParseAdvancedQuery Examples.engine0 Examples.wall0
    (QueryString levelError ++ lit " AND " ++ QueryString status500 ++ lit " OR " ++
     QueryString sourceApp) =
    Ok (OrExpression (AndExpression levelError status500) sourceApp).
Proof.
  apply (and_binds_tighter Examples.engine0 Examples.wall0 levelError status500 sourceApp).
  - exact levelError_printable.
  - exact status500_printable.
  - exact sourceApp_printable.
Defined.

Lemma implicit_and_witness :
  ParseAdvancedQuery Examples.engine0 Examples.wall0 (lit "level:ERROR status:500") =
    Ok (AndExpression levelError status500).
Proof.
  apply (implicit_and Examples.engine0 Examples.wall0 levelError
           (mkFieldExpression (lit "status") (lit ":") (lit "500") None)).
  - exact levelError_printable.
  - exact status500_printable.
  - reflexivity.
Defined.

Lemma trailing_input_ignored_witness :
  ParseAdvancedQuery Examples.engine0 Examples.wall0 (lit "level:ERROR boom") = Ok levelError /\
  ParseAdvancedQuery Examples.engine0 Examples.wall0 (lit "level:ERROR) OR status:500") =
    Ok levelError.
Proof.
  apply (trailing_input_ignored Examples.engine0 Examples.wall0 levelError
           (lit "boom") (lit " OR status:500")).
  - exact levelError_printable.
  - exact boom_bareWord.
  - repeat constructor.
  - intros c [= <-]. by vm_compute.
Defined.

End GroupingExamples.

(** ** The parser step: what it leaves alone *)

Section ParserMore.
Context `{GoRuntime}.

Lemma same_origin_refl (line : LogLine) : same_origin line line.
Proof. by repeat split. Qed.

Lemma setParsedFields_origin (p : LogParser) (line : LogLine) parsed :
  same_origin (setParsedFields p line parsed) line.
Proof.
  unfold setParsedFields.
  destruct (extractTimestampFromParsed p parsed) as [ts [|]];
    destruct (extractLevelFromParsed p parsed) as [lv [|]]; by repeat split.
Qed.

Lemma parseUnstructured_origin (p : LogParser) (line : LogLine) :
  same_origin (parseUnstructured p line) line.
Proof.
  unfold parseUnstructured.
  destruct (IsZero (Timestamp line));
    [destruct (negb (IsZero (extractTimestamp p (Raw line))))|]; simpl;
    (destruct (str_eqb (Level line) []);
     [destruct (negb (str_eqb (extractLevel p (Raw line)) []))|]); by repeat split.
Qed.

(** X13.  The parser step writes the fields Parsed, Timestamp and Level
    only: identifier, source, raw text, tokens, offset and line number
    of a record are the same after [ParseLogLine] as before. *)
Theorem ParseLogLine_frame (p : LogParser) (line : LogLine) :
  same_origin (ParseLogLine p line) line.
Proof.
  unfold ParseLogLine.
  destruct (str_eqb (Raw line) []); [apply same_origin_refl|].
  destruct (tryParseJSON_cases p line) as [[Hj _]|(parsed & Hj & _)]; rewrite Hj.
  - destruct (tryParseYAML_cases p line) as [[Hy _]|(parsed & Hy & _)]; rewrite Hy.
    + apply parseUnstructured_origin.
    + apply setParsedFields_origin.
  - apply setParsedFields_origin.
Qed.

Lemma createLevelMapping_canonical (k level : gostring) :
  createLevelMapping !! k = Some level -> level ∈ canonicalLevels.
Proof.
  unfold createLevelMapping. intros Hk%elem_of_list_to_map_2.
  unfold canonicalLevels.
  repeat (apply elem_of_cons in Hk as [Hk|Hk]; [injection Hk as _ <-; set_solver|]).
  by apply elem_of_nil in Hk.
Qed.

Lemma extractLevelFromParsed_loop_canonical parsed fields level :
  extractLevelFromParsed_loop NewLogParser parsed fields = (level, true) ->
  level ∈ canonicalLevels.
Proof.
  induction fields as [|field rest IH]; cbn [extractLevelFromParsed_loop]; [done|].
  destruct (parsed !! field) as [[]|]; try exact IH.
  destruct (levelMapping NewLogParser !! _) as [lv|] eqn:E; [|exact IH].
  intros [= <-]. by apply createLevelMapping_canonical in E.
Qed.

Lemma extractLevel_loop_canonical patterns text :
  extractLevel_loop NewLogParser patterns text = [] \/
  extractLevel_loop NewLogParser patterns text ∈ canonicalLevels.
Proof.
  induction patterns as [|pattern rest IH]; cbn [extractLevel_loop]; [by left|].
  destruct (FindString pattern text); [|exact IH].
  destruct (levelMapping NewLogParser !! _) as [lv|] eqn:E; [|exact IH].
  right. by apply createLevelMapping_canonical in E.
Qed.

Lemma setParsedFields_level (line : LogLine) parsed :
  Level (setParsedFields NewLogParser line parsed) = Level line \/
  Level (setParsedFields NewLogParser line parsed) ∈ canonicalLevels.
Proof.
  unfold setParsedFields.
  destruct (extractTimestampFromParsed NewLogParser parsed) as [ts [|]];
    (destruct (extractLevelFromParsed NewLogParser parsed) as [lv [|]] eqn:E;
     [right; by apply extractLevelFromParsed_loop_canonical in E|by left]).
Qed.

(** X14.  With the parser that [New] builds, the level of a record after
    the parser step is the level it had before or one of the six names
    TRACE, DEBUG, INFO, WARN, ERROR, FATAL: the spellings WARNING and
    PANIC found in a line are stored as WARN and FATAL. *)
Theorem ParseLogLine_level_canonical (line : LogLine) :
  Level (ParseLogLine NewLogParser line) = Level line \/
  Level (ParseLogLine NewLogParser line) ∈ canonicalLevels.
Proof.
  unfold ParseLogLine.
  destruct (str_eqb (Raw line) []); [by left|].
  destruct (tryParseJSON_cases NewLogParser line) as [[Hj _]|(parsed & Hj & _)]; rewrite Hj.
  - destruct (tryParseYAML_cases NewLogParser line) as [[Hy _]|(parsed & Hy & _)]; rewrite Hy.
    + unfold parseUnstructured.
      set (line1 := if IsZero (Timestamp line) then _ else _).
      assert (Hl : Level line1 = Level line /\ Raw line1 = Raw line).
      { unfold line1. destruct (IsZero (Timestamp line)); [|done].
        by destruct (negb (IsZero (extractTimestamp NewLogParser (Raw line)))). }
      destruct Hl as [Hl Hr].
      destruct (str_eqb (Level line1) []); [|by left].
      destruct (negb (str_eqb (extractLevel NewLogParser (Raw line1)) [])) eqn:E; [|by left].
      right. cbn [Level set_Level].
      destruct (extractLevel_loop_canonical (levelPatterns NewLogParser) (Raw line1))
        as [Hnil|Hc]; [|exact Hc].
      unfold extractLevel in E. rewrite Hnil in E. by vm_compute in E.
    + apply setParsedFields_level.
  - apply setParsedFields_level.
Qed.

(** X15.  A record that neither structured recogniser accepts keeps its
    Parsed field, keeps a timestamp that is not the zero time and keeps a
    level that is not empty.  The tailer stamps every record with the
    wall clock, so for such a record a timestamp written in the text of
    the line is never extracted. *)
Theorem unstructured_keeps_stamp (p : LogParser) (line : LogLine) :
  fst (tryParseJSON p line) = false ->
  fst (tryParseYAML p line) = false ->
  Parsed (ParseLogLine p line) = Parsed line /\
  (IsZero (Timestamp line) = false -> Timestamp (ParseLogLine p line) = Timestamp line) /\
  (Level line <> [] -> Level (ParseLogLine p line) = Level line).
Proof.
  intros Hj Hy. unfold ParseLogLine.
  destruct (str_eqb (Raw line) []); [done|].
  destruct (tryParseJSON_cases p line) as [[Ej _]|(parsed & Ej & _)];
    [|by rewrite Ej in Hj].
  rewrite Ej.
  destruct (tryParseYAML_cases p line) as [[Ey _]|(parsed & Ey & _)];
    [|by rewrite Ey in Hy].
  rewrite Ey. unfold parseUnstructured. split_and!.
  - destruct (IsZero (Timestamp line));
      [destruct (negb (IsZero (extractTimestamp p (Raw line))))|]; simpl;
      (destruct (str_eqb (Level line) []);
       [destruct (negb (str_eqb (extractLevel p (Raw line)) []))|]); reflexivity.
  - intros ->.
    destruct (str_eqb (Level line) []);
      [destruct (negb (str_eqb (extractLevel p (Raw line)) []))|]; reflexivity.
  - intros Hl.
    assert (El : forall l' : LogLine, Level l' = Level line -> str_eqb (Level l') [] = false).
    { intros l' ->. unfold str_eqb. by rewrite bool_decide_eq_false_2. }
    destruct (IsZero (Timestamp line));
      [destruct (negb (IsZero (extractTimestamp p (Raw line))))|]; by rewrite El.
Qed.

End ParserMore.

Section ParserMoreExamples.
#[local] Existing Instance SmallRuntime.runtime.

Lemma unstructured_keeps_stamp_witness :
  fst (tryParseJSON NewLogParser MoreExamples.stampedLine) = false /\
  fst (tryParseYAML NewLogParser MoreExamples.stampedLine) = false /\
  IsZero (Timestamp MoreExamples.stampedLine) = false /\
  Parsed (ParseLogLine NewLogParser MoreExamples.stampedLine) = Parsed MoreExamples.stampedLine /\
  Timestamp (ParseLogLine NewLogParser MoreExamples.stampedLine) = Examples.wall0.
Proof.
  destruct (unstructured_keeps_stamp NewLogParser MoreExamples.stampedLine)
    as (Hp & Ht & _); [reflexivity|reflexivity|].
  split_and!; [reflexivity|reflexivity|reflexivity|exact Hp|exact (Ht eq_refl)].
Defined.

End ParserMoreExamples.

(** ** The simple filter *)

Section SimpleFilterMore.
Context `{GoRuntime}.

Lemma Contains_colon_false (s : gostring) : colon ∉ s -> Contains s (lit ":") = false.
Proof.
  intros Hn. destruct (Contains s (lit ":")) eqn:E; [|done].
  change (lit ":") with [colon] in E. by apply Contains_single in E.
Qed.

(** X16.  A query without colon that is not a regular expression is one
    keyword, spaces included: once [SetFilter] has installed it, a record
    matches exactly when its raw text contains the whole query, compared
    byte by byte if the filter is case-sensitive and after lower-casing
    both sides if it is not. *)
Theorem keyword_filter_substring (f : FilterEngine) (q : gostring) (cs : bool) :
  advancedExpression f = None -> q <> [] -> colon ∉ q ->
  exists f',
    SetFilter f (mkFilterOptions q false cs [] [] None) = Ok (f', None) /\
    HasFilter f' = true /\
    forall line,
      Match f' line =
        if cs then Contains (Raw line) q else Contains (ToLower (Raw line)) (ToLower q).
Proof.
  intros Hadv Hq Hc. unfold SetFilter, compileQuery. cbn [fo_Query fo_IsRegex
    fo_CaseSensitive fo_LogLevels fo_Sources fo_TimeRange foldl].
  unfold str_eqb at 1. rewrite bool_decide_eq_false_2 by done. cbn [negb].
  unfold parseMainQuery. rewrite (Contains_colon_false q Hc). cbn [cq_IsRegex].
  eexists. split; [reflexivity|].
  assert (Hk : keywordOf (mkCompiledQuery false cs None [] [] OpAND None ∅ ∅) q <> [])
    by (by apply keywordOf_nonempty).
  split.
  - unfold HasFilter. cbn [advancedExpression compiledQuery]. rewrite Hadv.
    cbn [setKeywordQuery cq_KeywordQuery cq_IsRegex cq_CaseSensitive cq_Pattern].
    unfold str_eqb. by rewrite bool_decide_eq_false_2.
  - intros line. unfold Match. cbn [advancedExpression compiledQuery]. rewrite Hadv.
    unfold matchLine.
    cbn [setKeywordQuery cq_TimeRange cq_LogLevels cq_Sources cq_KeywordQuery
         cq_CaseSensitive cq_IsRegex cq_Pattern cq_FieldQueries cq_BooleanOp].
    unfold map_nonempty. rewrite map_size_empty.
    change (0 <? Z.of_nat 0) with false. cbn [andb length].
    unfold str_eqb. rewrite bool_decide_eq_false_2 by done. cbn [negb].
    rewrite andb_true_r. unfold keywordOf. cbn [cq_CaseSensitive]. by destruct cs.
Qed.

Lemma parseFieldQuery_operator (part : gostring) (query : CompiledQuery) (fq : FieldQuery) :
  parseFieldQuery part query = Ok fq -> reachableOperator (fq_Operator fq) = true.
Proof.
  unfold parseFieldQuery. destruct (Index part (lit ":")) as [i|]; [|done].
  set (value := TrimSpace (drop (i + 1) part)).
  set (field := TrimSpace (take i part)).
  destruct (HasPrefix value (lit "!")); cbn [fq_Operator fq_Value fq_Field orb].
  { destruct (_ && _); [|by intros [= <-]].
    destruct (compileWithFlags _ _); try done. by intros [= <-]. }
  destruct (HasPrefix value (lit "~")); cbn [fq_Operator fq_Value fq_Field orb].
  { destruct (compileWithFlags _ _); try done. by intros [= <-]. }
  destruct (HasPrefix value (lit ">")); cbn [fq_Operator fq_Value fq_Field orb].
  { destruct (_ && _); [|by intros [= <-]].
    destruct (compileWithFlags _ _); try done. by intros [= <-]. }
  destruct (HasPrefix value (lit "<")); cbn [fq_Operator fq_Value fq_Field orb].
  { destruct (_ && _); [|by intros [= <-]].
    destruct (compileWithFlags _ _); try done. by intros [= <-]. }
  destruct (Contains value (lit "*") || Contains value (lit "?"));
    cbn [fq_Operator fq_Value fq_Field orb].
  { destruct (_ && _); [|by intros [= <-]].
    destruct (compileWithFlags _ _); try done. by intros [= <-]. }
  destruct (_ && _); [|by intros [= <-]].
  destruct (compileWithFlags _ _); try done. by intros [= <-].
Qed.

Lemma parseFieldQueries_loop_operators (parts : list gostring) :
  forall query query',
    Forall (fun fq => reachableOperator (fq_Operator fq) = true) (cq_FieldQueries query) ->
    parseFieldQueries_loop parts query = Ok query' ->
    Forall (fun fq => reachableOperator (fq_Operator fq) = true) (cq_FieldQueries query').
Proof.
  induction parts as [|part parts IH]; intros query query' Hq E.
  - by injection E as <-.
  - cbn [parseFieldQueries_loop] in E.
    destruct (negb (Contains part (lit ":"))).
    + destruct (str_eqb (cq_KeywordQuery query) []); by apply IH in E.
    + destruct (parseFieldQuery part query) as [fq| | |] eqn:Ef; try done. cbn [obind] in E.
      apply IH in E; [done|]. cbn [appendFieldQuery cq_FieldQueries].
      apply Forall_app. split; [done|]. constructor; [|done].
      by apply parseFieldQuery_operator in Ef.
Qed.

(** X17.  No compiled simple filter holds a field query with the
    operator [OpGreaterEqual] or [OpLessEqual]: [parseFieldQuery] looks
    at the first byte of the value only, so [field:>=v] becomes
    [OpGreater] with the value [=v], and the branches of the comparison
    functions for the two operators are never taken. *)
Theorem compiled_filter_no_ge_le (options : FilterOptions) (query : CompiledQuery) :
  compileQuery options = Ok query ->
  Forall (fun fq => reachableOperator (fq_Operator fq) = true) (cq_FieldQueries query).
Proof.
  unfold compileQuery.
  destruct (negb (str_eqb (fo_Query options) [])); [|by intros [= <-]].
  unfold parseMainQuery.
  destruct (Contains (fo_Query options) (lit ":")).
  - unfold parseFieldQueries. apply parseFieldQueries_loop_operators. by constructor.
  - cbn [cq_IsRegex cq_CaseSensitive]. destruct (fo_IsRegex options).
    + destruct (compileWithFlags _ _); try done. by intros [= <-].
    + by intros [= <-].
Qed.

Lemma foldl_insert_lookup (g : gostring -> gostring) (ls : list gostring) (k : gostring) :
  forall m : gmap gostring bool,
    foldl (fun m l => <[g l := true]> m) m ls !! k =
      if bool_decide (k ∈ map g ls) then Some true else m !! k.
Proof.
  induction ls as [|l ls IH]; intros m; cbn [foldl map].
  - rewrite bool_decide_eq_false_2; [done|]. by intros ?%elem_of_nil.
  - rewrite IH. case_bool_decide as Hin.
    + rewrite bool_decide_eq_true_2; [done|]. by right.
    + destruct (decide (k = g l)) as [->|Hne].
      * rewrite bool_decide_eq_true_2 by left. by rewrite lookup_insert_eq.
      * rewrite bool_decide_eq_false_2.
        -- by rewrite lookup_insert_ne.
        -- by intros [?|?]%elem_of_cons.
Qed.

Lemma foldl_insert_nonempty (g : gostring -> gostring) (ls : list gostring) :
  map_nonempty (foldl (fun m l => <[g l := true]> m) ∅ ls) =
    match ls with [] => false | _ :: _ => true end.
Proof.
  unfold map_nonempty. destruct ls as [|l ls]; cbn [foldl].
  - by rewrite map_size_empty.
  - apply Z.ltb_lt.
    assert (Hne : foldl (fun m l => <[g l := true]> m) (<[g l := true]> ∅) ls <>
                  (∅ : gmap gostring bool)).
    { intros He. apply (f_equal (fun m : gmap gostring bool => m !! g l)) in He.
      rewrite foldl_insert_lookup, lookup_empty, lookup_insert_eq in He.
      by destruct (bool_decide _). }
    apply map_size_non_empty_iff in Hne. lia.
Qed.

(** X18.  With an empty query the simple filter is the conjunction of
    its three axes.  A record passes the time range if it has no
    timestamp or lies within the bounds (both inclusive); it passes the
    levels if it has a level whose upper-case form is among the
    upper-cased wanted levels; it passes the sources if its source is
    one of the wanted ones, compared exactly.  An axis that is not given
    lets every record pass. *)
Theorem axes_filter (f : FilterEngine) (isRegex cs : bool)
    (levels sources : list gostring) (tr : option TimeRange) :
  advancedExpression f = None ->
  exists f',
    SetFilter f (mkFilterOptions [] isRegex cs levels sources tr) = Ok (f', None) /\
    forall line,
      Match f' line =
        inTimeRange tr line && levelWanted levels line && sourceWanted sources line.
Proof.
  intros Hadv. unfold SetFilter, compileQuery.
  cbn [fo_Query fo_IsRegex fo_CaseSensitive fo_LogLevels fo_Sources fo_TimeRange].
  unfold str_eqb at 1. rewrite bool_decide_eq_true_2 by done. cbn [negb].
  eexists. split; [reflexivity|]. intros line.
  unfold Match. cbn [advancedExpression compiledQuery]. rewrite Hadv.
  unfold matchLine.
  cbn [cq_TimeRange cq_LogLevels cq_Sources cq_KeywordQuery cq_CaseSensitive
       cq_IsRegex cq_Pattern cq_FieldQueries].
  rewrite !foldl_insert_nonempty. unfold map_flag. rewrite !foldl_insert_lookup.
  rewrite !lookup_empty.
  change (str_eqb [] []) with true.
  change (0 <? Z.of_nat (length (@nil FieldQuery))) with false. cbn [negb andb].
  unfold inTimeRange, levelWanted, sourceWanted.
  rewrite List.map_id.
  destruct tr as [tr|];
    [destruct (IsZero (Timestamp line));
     destruct (Before (Timestamp line) (tr_Start tr) || After (Timestamp line) (tr_End tr))|];
    cbn [negb andb orb];
    try done;
    (destruct levels as [|l0 levels]; cbn [andb];
     [|destruct (str_eqb (Level line) []); cbn [negb andb orb]; [done|];
       destruct (bool_decide (ToUpper (Level line) ∈ map ToUpper (l0 :: levels)));
       cbn [default negb andb]; [|done]]);
    (destruct sources as [|s0 sources]; cbn [andb]; [done|];
     by destruct (bool_decide (Source line ∈ s0 :: sources))).
Qed.

(** X19.  An engine without filter matches no record, an engine with an
    empty filter matches every record, and [HasFilter] answers false for
    both: after [Clear] the compiled query is nil and [Match] returns
    false; after [SetFilter] with no query, levels, sources or time range
    the compiled query is present and empty, and [Match] returns true. *)
Theorem empty_filter_vs_clear (f : FilterEngine) (isRegex cs : bool) :
  advancedExpression f = None ->
  exists f',
    SetFilter f (mkFilterOptions [] isRegex cs [] [] None) = Ok (f', None) /\
    HasFilter f' = false /\ HasFilter (EngineClear f) = false /\
    forall line, Match f' line = true /\ Match (EngineClear f) line = false.
Proof.
  intros Hadv. unfold SetFilter, compileQuery.
  cbn [fo_Query fo_IsRegex fo_CaseSensitive fo_LogLevels fo_Sources fo_TimeRange foldl].
  unfold str_eqb at 1. rewrite bool_decide_eq_true_2 by done. cbn [negb].
  eexists. split; [reflexivity|]. split_and!.
  - unfold HasFilter. cbn [advancedExpression compiledQuery]. rewrite Hadv.
    cbn [cq_KeywordQuery cq_Pattern cq_FieldQueries cq_LogLevels cq_Sources cq_TimeRange].
    unfold map_nonempty. rewrite map_size_empty. reflexivity.
  - reflexivity.
  - intros line. split; [|reflexivity].
    unfold Match. cbn [advancedExpression compiledQuery]. rewrite Hadv.
    unfold matchLine.
    cbn [cq_TimeRange cq_LogLevels cq_Sources cq_KeywordQuery cq_CaseSensitive
         cq_IsRegex cq_Pattern cq_FieldQueries].
    unfold map_nonempty. rewrite map_size_empty. reflexivity.
Qed.

End SimpleFilterMore.

Section SimpleFilterMoreExamples.
#[local] Existing Instance SmallRuntime.runtime.

Lemma keyword_filter_substring_witness :
  exists f',
    SetFilter Examples.engine0 (mkFilterOptions (lit "disk full") false false [] [] None) =
      Ok (f', None) /\
    HasFilter f' = true /\
    forall line, Match f' line = Contains (ToLower (Raw line)) (ToLower (lit "disk full")).
Proof.
  apply (keyword_filter_substring Examples.engine0 (lit "disk full") false).
  - reflexivity.
  - discriminate.
  - by apply (bool_decide_unpack _).
Defined.

Lemma compiled_filter_no_ge_le_witness :
  compileQuery (Examples.simpleOptions "status:>=500" false) = Ok MoreExamples.compiledGe /\
  Forall (fun fq => reachableOperator (fq_Operator fq) = true)
    (cq_FieldQueries MoreExamples.compiledGe).
Proof.
  split; [reflexivity|].
  apply (compiled_filter_no_ge_le (Examples.simpleOptions "status:>=500" false)).
  reflexivity.
Defined.

Lemma axes_filter_witness :
  exists f',
    SetFilter Examples.engine0 (mkFilterOptions [] false false [lit "error"] [] None) =
      Ok (f', None) /\
    forall line,
      Match f' line =
        inTimeRange None line && levelWanted [lit "error"] line && sourceWanted [] line.
Proof.
  apply (axes_filter Examples.engine0 false false [lit "error"] [] None).
  reflexivity.
Defined.

Lemma empty_filter_vs_clear_witness :
  exists f',
    SetFilter Examples.engine0 (mkFilterOptions [] false false [] [] None) = Ok (f', None) /\
    HasFilter f' = false /\ HasFilter (EngineClear Examples.engine0) = false /\
    forall line, Match f' line = true /\ Match (EngineClear Examples.engine0) line = false.
Proof.
  apply (empty_filter_vs_clear Examples.engine0 false false).
  reflexivity.
Defined.

End SimpleFilterMoreExamples.

(** ** The coordinator: batches, clearing the filter, scrolling *)

Section Coordinator.
Context `{GoRuntime}.

Lemma same_view_refl (m : Model) : same_view m m.
Proof. by repeat split. Qed.

Lemma same_view_trans (m1 m2 m3 : Model) :
  same_view m1 m2 -> same_view m2 m3 -> same_view m1 m3.
Proof. unfold same_view. intros ? ?. split_and!; destruct_and!; congruence. Qed.

Lemma processLines_view (ls : list LogLine) : forall (m : Model) (k : Z) m' k',
  processLines ls (m, k) = Ok (m', k') ->
  allLogsPane m' = allLogsPane m /\ filteredPane m' = filteredPane m /\
  activePane m' = activePane m /\ isPaused m' = isPaused m /\
  m_parser m' = m_parser m /\ clockReads m' = clockReads m /\ clock m' = clock m.
Proof.
  induction ls as [|l ls IH]; intros m k m' k' E.
  - by injection E as <- <-.
  - cbn [processLines] in E.
    destruct (processLine l (m, k)) as [[m1 k1]| | |] eqn:E1; try done. cbn [obind] in E.
    apply IH in E. unfold processLine in E1.
    destruct (Add (allLinesBuffer m) l) as [a| | |]; try done. cbn [obind] in E1.
    destruct (_ && _) in E1.
    + destruct (Add _ l) as [fb| | |]; try done. cbn [obind] in E1.
      injection E1 as <- <-. exact E.
    + injection E1 as <- <-. exact E.
Qed.

(** [processBatch] empties the pending batch into the stores. *)
Lemma processBatch_flush (m : Model) :
  model_wf m ->
  exists m',
    processBatch m = Ok m' /\ model_wf m' /\ same_view m m' /\
    pendingLines (simpleBatcher m') = [] /\
    contents (allLinesBuffer m') = afterFlush m [] /\
    contents (filteredBuffer m') = afterFlushFiltered m [].
Proof.
  intros Hwf. destruct (processBatch_spec m Hwf) as (m' & E & Hfl & Hwf').
  exists m'. split; [exact E|]. split; [exact Hwf'|].
  destruct Hwf as [Ha Hf Hcap Hemp]. revert E. unfold processBatch.
  unfold afterFlush, afterFlushFiltered. rewrite !app_nil_r.
  destruct (Z.of_nat (length (pendingLines (simpleBatcher m))) =? 0) eqn:E0.
  { intros [= <-].
    assert (Hnil : pendingLines (simpleBatcher m) = []).
    { destruct (pendingLines (simpleBatcher m)); [done|]. simpl in E0. lia. }
    rewrite Hnil. simpl. rewrite !app_nil_r, !lastn_contents by done.
    split; [apply same_view_refl|done]. }
  cbn [time_Now].
  set (m0 := set_clockReads m (S (clockReads m))).
  destruct (processLines_spec (pendingLines (simpleBatcher m)) m0 0 Ha Hf)
    as (m1 & k1 & E1 & Hfl1 & Ha1 & Hca1 & Hc1 & Hf1 & Hcf1 & Hcc1).
  rewrite E1. cbn [obind].
  destruct (processLines_view _ _ _ _ _ E1) as (V1 & V2 & V3 & V4 & V5 & _).
  destruct (batchSize (simpleBatcher m) <=? _); intros [= <-]; simpl;
    (split; [unfold same_view; simpl; split_and!; done|split; [done|split; done]]).
Qed.

(** [AddLine] appends the line to what the stores will hold once the
    pending batch has been processed. *)
Lemma AddLine_flush (m : Model) (line : LogLine) :
  model_wf m ->
  exists m',
    AddLine m line = Ok m' /\ model_wf m' /\ same_view m m' /\
    afterFlush m' [] = afterFlush m [line] /\
    afterFlushFiltered m' [] = afterFlushFiltered m [line].
Proof.
  intros Hwf. unfold AddLine. cbn [time_Now].
  match goal with
  | |- context [ if ?c then processBatch ?m1 else _ ] =>
      assert (Hwf1 : model_wf m1) by (destruct Hwf; constructor; done);
      assert (Hv1 : same_view m m1) by (by repeat split);
      assert (Hfl1 : afterFlush m1 [] = afterFlush m [line])
        by (unfold afterFlush; simpl; by rewrite app_nil_r);
      assert (Hff1 : afterFlushFiltered m1 [] = afterFlushFiltered m [line])
        by (unfold afterFlushFiltered; simpl; by rewrite app_nil_r);
      destruct c
  end.
  - destruct (processBatch_flush _ Hwf1) as (m' & -> & Hwf' & Hv & Hp & Hc & Hcf).
    exists m'. split; [done|]. split; [done|]. split; [by eapply same_view_trans|].
    rewrite <- Hfl1, <- Hff1, <- Hc, <- Hcf.
    unfold afterFlush, afterFlushFiltered. rewrite Hp. simpl. rewrite !app_nil_r.
    destruct Hwf'. by rewrite !lastn_contents.
  - eexists. split; [reflexivity|]. done.
Qed.

(** X20.  A line that arrives while the stream is not paused is parsed
    and handed to the batcher, and the batcher neither loses nor
    reorders lines: once the pending batch is forced, the main store
    holds what it held before, then the lines that were pending, then
    the new line as the parser left it (the oldest lines give way when
    the capacity is exceeded), and the filtered store has received those
    of these lines that the filter in force matches. *)
Theorem new_line_reaches_store (m : Model) (event : TailerEvent) (line : LogLine) :
  model_wf m -> isPaused m = false ->
  ev_Type event = EventNewLine -> ev_Line event = Some line ->
  exists m1 m2,
    handleTailerEvent m event = Ok (m1, Some (ParseLogLine (m_parser m) line)) /\
    ForceBatch m1 = Ok m2 /\
    pendingLines (simpleBatcher m2) = [] /\
    contents (allLinesBuffer m2) = afterFlush m [ParseLogLine (m_parser m) line] /\
    contents (filteredBuffer m2) = afterFlushFiltered m [ParseLogLine (m_parser m) line].
Proof.
  intros Hwf Hp Ht Hl. unfold handleTailerEvent. rewrite Ht, Hl, Hp. cbn [negb].
  unfold addLogLine.
  set (parsed := ParseLogLine (m_parser m) line).
  destruct (AddLine_flush m parsed Hwf) as (m0 & -> & Hwf0 & Hv0 & Hfl0 & Hff0).
  cbn [obind time_Now].
  match goal with
  | |- context [ if ?c then Ok (?ma, _) else Ok (?mb, _) ] =>
      assert (Ha : model_wf ma /\ afterFlush ma [] = afterFlush m0 [] /\
                   afterFlushFiltered ma [] = afterFlushFiltered m0 [])
        by (split; [destruct Hwf0; constructor; done|done]);
      assert (Hb : model_wf mb /\ afterFlush mb [] = afterFlush m0 [] /\
                   afterFlushFiltered mb [] = afterFlushFiltered m0 [])
        by (split; [destruct Hwf0; constructor; done|done]);
      destruct c
  end; cbn [obind].
  - destruct Ha as (Hw & Hf1 & Hf2).
    destruct (processBatch_flush _ Hw) as (m2 & E2 & _ & _ & Hp2 & Hc2 & Hcf2).
    eexists _, m2. split; [reflexivity|]. split; [exact E2|]. split; [done|].
    by rewrite Hc2, Hcf2, Hf1, Hf2, Hfl0, Hff0.
  - destruct Hb as (Hw & Hf1 & Hf2).
    destruct (processBatch_flush _ Hw) as (m2 & E2 & _ & _ & Hp2 & Hc2 & Hcf2).
    eexists _, m2. split; [reflexivity|]. split; [exact E2|]. split; [done|].
    by rewrite Hc2, Hcf2, Hf1, Hf2, Hfl0, Hff0.
Qed.

(** X21.  [clearFilter] leaves no filter and an empty filtered store,
    and loses no line: the engine has no filter and matches nothing, the
    lines that were pending are in the main store but not in the
    filtered store, the batch is empty and the status line says that the
    filter was cleared. *)
Theorem clearFilter_effect (m : Model) :
  model_wf m ->
  exists m',
    clearFilter m = Ok m' /\
    HasFilter (m_filter m') = false /\
    (forall line, Match (m_filter m') line = false) /\
    contents (filteredBuffer m') = [] /\
    contents (allLinesBuffer m') = afterFlush m [] /\
    pendingLines (simpleBatcher m') = [] /\
    statusMessage m' = StatusFilterCleared.
Proof.
  intros [Ha Hf Hcap Hemp]. unfold clearFilter.
  destruct (Clear_wf _ Hf) as (Hcw & Hcc & Hce).
  match goal with
  | |- context [ ForceBatch ?m1 ] =>
      assert (Hwf1 : model_wf m1) by (constructor; simpl; try done; congruence);
      set (mc := m1) in *
  end.
  unfold ForceBatch.
  destruct (processBatch_flush mc Hwf1) as (m' & -> & Hwf' & Hv & Hp & Hc & Hcf).
  cbn [obind]. eexists. split; [reflexivity|].
  destruct Hv as (_ & _ & _ & _ & _ & Hfl & _ & _).
  cbn [setStatusMessage time_Now set_status set_clockReads m_filter filteredBuffer
       allLinesBuffer simpleBatcher statusMessage].
  rewrite Hfl. split_and!; try done.
  rewrite Hcf. unfold afterFlushFiltered. subst mc. cbn [filteredBuffer set_filtered
    set_filter m_filter simpleBatcher].
  rewrite Hce. rewrite filter_none by done. reflexivity.
Qed.

Lemma autoScrollPane_le (pane : LogPane) (isAll : bool) (buffer : CircularBuffer) :
  scrollY (autoScrollPane pane isAll buffer) <= scrollY pane.
Proof.
  unfold autoScrollPane. destruct (_ && _); [|lia].
  match goal with |- context [ if ?c <=? _ then _ else _ ] => destruct (Z.leb_spec c (scrollY pane)) end;
    simpl; lia.
Qed.

(** X22.  New lines never move a pane towards the end of its store:
    whatever event the coordinator handles, the scroll offset of either
    pane afterwards is at most what it was before.
    [autoScrollToBottom], the only writer of the offsets on this path,
    assigns the last full-page offset only when the offset is already at
    or beyond it. *)
Theorem new_lines_never_scroll_forward (m m' : Model) (event : TailerEvent)
    (line : option LogLine) :
  model_wf m ->
  handleTailerEvent m event = Ok (m', line) ->
  scrollY (allLogsPane m') <= scrollY (allLogsPane m) /\
  scrollY (filteredPane m') <= scrollY (filteredPane m).
Proof.
  intros Hwf. unfold handleTailerEvent.
  destruct (ev_Type event).
  - destruct (ev_Line event) as [l|]; [|intros [= <- _]; lia].
    destruct (negb (isPaused m)); [|intros [= <- _]; lia].
    unfold addLogLine.
    destruct (AddLine_flush m (ParseLogLine (m_parser m) l) Hwf)
      as (m0 & -> & _ & (V1 & V2 & _) & _).
    cbn [obind time_Now].
    match goal with |- context [ if ?c then _ else _ ] => destruct c end;
      cbn [obind]; intros [= <- _]; simpl; rewrite <- ?V1, <- ?V2.
    + split; apply autoScrollPane_le.
    + lia.
  - intros [= <- _]. simpl. lia.
  - intros [= <- _]. simpl. lia.
  - intros [= <- _]. lia.
Qed.

Lemma getContentHeight_pos (pane : LogPane) (isAll : bool) : 1 <= getContentHeight pane isAll.
Proof.
  unfold getContentHeight. destruct isAll;
    match goal with |- context [ if ?c <? 1 then _ else _ ] => destruct (Z.ltb_spec c 1) end; lia.
Qed.

Lemma getContentHeight_scroll (pane : LogPane) (y c : Z) (u isAll : bool) :
  getContentHeight (set_scroll pane y c u) isAll = getContentHeight pane isAll.
Proof. reflexivity. Qed.

(** X23.  The scrolling keys keep the offset of the active pane in
    range: if it lies between 0 and the last full-page offset, it still
    does after [scrollDown], [scrollUp], [pageDown], [pageUp], [goToTop]
    or [goToBottom]; the other pane, the stores and the choice of the
    active pane are not touched. *)
Theorem scroll_keeps_range (key : ScrollKey) (m : Model) :
  scroll_in_range m ->
  scroll_in_range (scroll key m) /\
  getOtherPane (scroll key m) = getOtherPane m /\
  activePane (scroll key m) = activePane m /\
  allLinesBuffer (scroll key m) = allLinesBuffer m /\
  filteredBuffer (scroll key m) = filteredBuffer m.
Proof.
  unfold scroll_in_range, maxScrollOf, getOtherPane, getActivePane, getActiveBuffer, isAllLogs.
  intros Hr.
  pose proof (getContentHeight_pos (allLogsPane m) true) as Hh1.
  pose proof (getContentHeight_pos (filteredPane m) false) as Hh2.
  destruct key; unfold scroll, scrollDown, scrollUp, pageDown, pageUp, goToTop, goToBottom,
    setActivePane, getActivePane, getActiveBuffer, isAllLogs;
    destruct (activePane m) eqn:Ea; cbn [activePane set_panes allLogsPane filteredPane];
    repeat match goal with
    | |- context [ if ?a =? ?b then _ else _ ] => destruct (Z.eqb_spec a b)
    | |- context [ if ?a <? ?b then _ else _ ] => destruct (Z.ltb_spec a b)
    end;
    cbn [activePane set_panes allLogsPane filteredPane allLinesBuffer filteredBuffer
         set_scroll scrollY];
    rewrite ?Ea; cbn [activePane set_panes allLogsPane filteredPane allLinesBuffer
                      filteredBuffer set_scroll scrollY];
    rewrite ?getContentHeight_scroll;
    (split; [|done]);
    repeat match goal with
    | H : context [ if ?a <? ?b then _ else _ ] |- _ => destruct (Z.ltb_spec a b)
    end; lia.
Qed.

(** X24.  [scrollToLine] brings the requested line into view: for an
    index within the active store, afterwards offset plus cursor is the
    index, the cursor lies on the page, and the offset is in range. *)
Theorem scrollToLine_shows_line (m : Model) (lineIndex : Z) :
  0 <= lineIndex < Size (getActiveBuffer m) ->
  let m' := scrollToLine m lineIndex in
  scrollY (getActivePane m') + cursorY (getActivePane m') = lineIndex /\
  0 <= cursorY (getActivePane m') < getContentHeight (getActivePane m') (isAllLogs m') /\
  scroll_in_range m'.
Proof.
  unfold scroll_in_range, maxScrollOf, scrollToLine, getActivePane, getActiveBuffer, isAllLogs,
    setActivePane.
  intros Hi.
  pose proof (getContentHeight_pos (allLogsPane m) true) as Hh1.
  pose proof (getContentHeight_pos (filteredPane m) false) as Hh2.
  destruct (activePane m) eqn:Ea.
  - destruct (Z.eqb_spec (Size (allLinesBuffer m)) 0); [lia|].
    destruct (Z.ltb_spec lineIndex 0); [lia|].
    destruct (Z.leb_spec (Size (allLinesBuffer m)) lineIndex); [lia|]. cbn [orb].
    set (h := getContentHeight (allLogsPane m) true) in *.
    rewrite (Z.quot_div_nonneg h 2) by lia.
    repeat match goal with
    | |- context [ if ?a <? ?b then _ else _ ] => destruct (Z.ltb_spec a b)
    end;
    cbn [activePane set_panes allLogsPane filteredPane allLinesBuffer filteredBuffer
         set_scroll scrollY cursorY];
    rewrite ?Ea; cbn [activePane set_panes allLogsPane filteredPane allLinesBuffer
         filteredBuffer set_scroll scrollY cursorY];
    rewrite ?getContentHeight_scroll; fold h;
    pose proof (Z.div_lt_upper_bound h 2 h ltac:(lia) ltac:(lia));
    pose proof (Z.div_pos h 2 ltac:(lia) ltac:(lia));
    repeat match goal with
    | H : context [ if ?a <? ?b then _ else _ ] |- _ => destruct (Z.ltb_spec a b)
    end; lia.
  - destruct (Z.eqb_spec (Size (filteredBuffer m)) 0); [lia|].
    destruct (Z.ltb_spec lineIndex 0); [lia|].
    destruct (Z.leb_spec (Size (filteredBuffer m)) lineIndex); [lia|]. cbn [orb].
    set (h := getContentHeight (filteredPane m) false) in *.
    rewrite (Z.quot_div_nonneg h 2) by lia.
    repeat match goal with
    | |- context [ if ?a <? ?b then _ else _ ] => destruct (Z.ltb_spec a b)
    end;
    cbn [activePane set_panes allLogsPane filteredPane allLinesBuffer filteredBuffer
         set_scroll scrollY cursorY];
    rewrite ?Ea; cbn [activePane set_panes allLogsPane filteredPane allLinesBuffer
         filteredBuffer set_scroll scrollY cursorY];
    rewrite ?getContentHeight_scroll; fold h;
    pose proof (Z.div_lt_upper_bound h 2 h ltac:(lia) ltac:(lia));
    pose proof (Z.div_pos h 2 ltac:(lia) ltac:(lia));
    repeat match goal with
    | H : context [ if ?a <? ?b then _ else _ ] |- _ => destruct (Z.ltb_spec a b)
    end; lia.
Qed.

End Coordinator.

Section CoordinatorExamples.
#[local] Existing Instance SmallRuntime.runtime.

Lemma modelS1_wf : model_wf Examples.modelS1.
Proof.
  constructor; [constructor|constructor| |].
  12: { intros Hx. apply (f_equal length) in Hx. vm_compute in Hx. discriminate Hx. }
  all: try (vm_compute; reflexivity).
  all: try (vm_compute; split; [discriminate|reflexivity]).
  all: vm_compute; split; discriminate.
Defined.

Lemma new_line_reaches_store_witness :
  exists m1 m2,
    handleTailerEvent Examples.modelS1 (Examples.newLineEvent MoreExamples.stampedLine) =
      Ok (m1, Some (ParseLogLine (m_parser Examples.modelS1) MoreExamples.stampedLine)) /\
    ForceBatch m1 = Ok m2 /\
    pendingLines (simpleBatcher m2) = [] /\
    contents (allLinesBuffer m2) =
      afterFlush Examples.modelS1
        [ParseLogLine (m_parser Examples.modelS1) MoreExamples.stampedLine] /\
    contents (filteredBuffer m2) =
      afterFlushFiltered Examples.modelS1
        [ParseLogLine (m_parser Examples.modelS1) MoreExamples.stampedLine].
Proof.
  apply (new_line_reaches_store Examples.modelS1
           (Examples.newLineEvent MoreExamples.stampedLine) MoreExamples.stampedLine).
  - exact modelS1_wf.
  - reflexivity.
  - reflexivity.
  - reflexivity.
Defined.

Lemma clearFilter_effect_witness :
  exists m',
    clearFilter Examples.modelS1 = Ok m' /\
    HasFilter (m_filter m') = false /\
    (forall line, Match (m_filter m') line = false) /\
    contents (filteredBuffer m') = [] /\
    contents (allLinesBuffer m') = afterFlush Examples.modelS1 [] /\
    pendingLines (simpleBatcher m') = [] /\
    statusMessage m' = StatusFilterCleared.
Proof.
  apply (clearFilter_effect Examples.modelS1). exact modelS1_wf.
Defined.

Lemma outcome_ok_default {A : Type} (r : outcome A) (d : A) :
  match r with Ok _ => true | _ => false end = true ->
  r = Ok (match r with Ok a => a | _ => d end).
Proof. destruct r; done. Qed.

Lemma new_lines_never_scroll_forward_witness :
  handleTailerEvent Examples.modelS1 (Examples.newLineEvent MoreExamples.stampedLine) =
    Ok MoreExamples.afterEvent /\
  scrollY (allLogsPane (fst MoreExamples.afterEvent)) <= scrollY (allLogsPane Examples.modelS1) /\
  scrollY (filteredPane (fst MoreExamples.afterEvent)) <= scrollY (filteredPane Examples.modelS1).
Proof.
  assert (He : handleTailerEvent Examples.modelS1
                 (Examples.newLineEvent MoreExamples.stampedLine) =
               Ok (fst MoreExamples.afterEvent, snd MoreExamples.afterEvent)).
  { rewrite <- surjective_pairing.
    apply (outcome_ok_default _ (Examples.modelS1, None)). vm_compute. reflexivity. }
  split; [by rewrite <- surjective_pairing in He|].
  apply (new_lines_never_scroll_forward Examples.modelS1 (fst MoreExamples.afterEvent)
           (Examples.newLineEvent MoreExamples.stampedLine) (snd MoreExamples.afterEvent)).
  - exact modelS1_wf.
  - exact He.
Defined.

Lemma scroll_keeps_range_witness :
  scroll_in_range (Examples.afterSearch Examples.modelS1) /\
  scroll_in_range (scroll KeyDown (Examples.afterSearch Examples.modelS1)) /\
  getOtherPane (scroll KeyDown (Examples.afterSearch Examples.modelS1)) = getOtherPane (Examples.afterSearch Examples.modelS1) /\
  activePane (scroll KeyDown (Examples.afterSearch Examples.modelS1)) = activePane (Examples.afterSearch Examples.modelS1) /\
  allLinesBuffer (scroll KeyDown (Examples.afterSearch Examples.modelS1)) =
    allLinesBuffer (Examples.afterSearch Examples.modelS1) /\
  filteredBuffer (scroll KeyDown (Examples.afterSearch Examples.modelS1)) =
    filteredBuffer (Examples.afterSearch Examples.modelS1).
Proof.
  assert (Hr : scroll_in_range (Examples.afterSearch Examples.modelS1)).
  { unfold scroll_in_range. vm_compute. split; discriminate. }
  split; [exact Hr|].
  apply (scroll_keeps_range KeyDown (Examples.afterSearch Examples.modelS1)). exact Hr.
Defined.

Lemma scrollToLine_shows_line_witness :
  let m' := scrollToLine (Examples.afterSearch Examples.modelS1) 1 in
  scrollY (getActivePane m') + cursorY (getActivePane m') = 1 /\
  0 <= cursorY (getActivePane m') < getContentHeight (getActivePane m') (isAllLogs m') /\
  scroll_in_range m'.
Proof.
  apply (scrollToLine_shows_line (Examples.afterSearch Examples.modelS1) 1).
  vm_compute. split; [discriminate|reflexivity].
Defined.

End CoordinatorExamples.

(** ** Export: escaping and the time range *)

Section ExportFacts.
Context `{GoRuntime}.

Lemma Index_single_cons (d c : ascii) (s : gostring) :
  Index (d :: s) [c] = if decide (c = d) then Some 0%nat else S <$> Index s [c].
Proof.
  cbn [Index HasPrefix]. destruct (decide (c = d)); [by destruct s|done].
Qed.

Lemma Index_single_None (s : gostring) (c : ascii) : Index s [c] = None -> c ∉ s.
Proof.
  induction s as [|d s IH]; [intros _ ?%elem_of_nil; done|].
  rewrite Index_single_cons. destruct (decide (c = d)); [done|].
  destruct (Index s [c]); [done|]. intros _ [?|?]%elem_of_cons; [done|]. by apply IH.
Qed.

Lemma Index_single_Some (s : gostring) (c : ascii) (i : nat) :
  Index s [c] = Some i -> s = take i s ++ c :: drop (i + 1) s /\ c ∉ take i s.
Proof.
  revert i. induction s as [|d s IH]; intros i; [done|].
  rewrite Index_single_cons. destruct (decide (c = d)) as [->|Hne].
  - intros [= <-]. simpl. rewrite drop_0. split; [done|]. by intros ?%elem_of_nil.
  - destruct (Index s [c]) as [j|] eqn:E; [|done]. intros [= <-].
    destruct (IH j eq_refl) as [Hs Hn]. simpl. split; [by rewrite <- Hs|].
    intros [?|?]%elem_of_cons; done.
Qed.

(** Replacing one byte is a substitution byte by byte. *)
Lemma flat_map_absent (c : ascii) (new s : gostring) :
  c ∉ s -> flat_map (fun d => if decide (d = c) then new else [d]) s = s.
Proof.
  induction s as [|d s IH]; [done|]. intros Hn. cbn [flat_map].
  destruct (decide (d = c)) as [->|_]; [exfalso; apply Hn; left|].
  simpl. f_equal. apply IH. intros Hin. apply Hn. by right.
Qed.

Lemma ReplaceAll_aux_single (c : ascii) (new : gostring) (fuel : nat) :
  forall s : gostring, (length s < fuel)%nat ->
    ReplaceAll_aux fuel s [c] new = flat_map (fun d => if decide (d = c) then new else [d]) s.
Proof.
  induction fuel as [|fuel IH]; intros s Hlen; [lia|].
  cbn [ReplaceAll_aux]. destruct (Index s [c]) as [i|] eqn:E.
  - destruct (Index_single_Some s c i E) as [Hs Hn].
    assert (Hi : (i < length s)%nat).
    { apply (f_equal length) in Hs. rewrite length_app, length_take in Hs. simpl in Hs. lia. }
    rewrite IH by (rewrite length_drop; simpl; lia).
    rewrite Hs at 3. rewrite flat_map_app. cbn [flat_map length].
    rewrite (flat_map_absent c new (take i s) Hn).
    destruct (decide (c = c)); [|done]. done.
  - symmetry. apply flat_map_absent. by apply Index_single_None.
Qed.

Lemma ReplaceAll_single (s : gostring) (c : ascii) (new : gostring) :
  ReplaceAll s [c] new = flat_map (fun d => if decide (d = c) then new else [d]) s.
Proof. unfold ReplaceAll. apply ReplaceAll_aux_single. lia. Qed.

Lemma flat_map_flat_map {A B C : Type} (f : A -> list B) (g : B -> list C) (l : list A) :
  flat_map g (flat_map f l) = flat_map (fun x => flat_map g (f x)) l.
Proof.
  induction l as [|x l IH]; [done|]. cbn [flat_map]. by rewrite flat_map_app, IH.
Qed.

Lemma flat_map_pointwise {A B : Type} (f g : A -> list B) (l : list A) :
  (forall x, f x = g x) -> flat_map f l = flat_map g l.
Proof. intros Hfg. induction l as [|x l IH]; [done|]. cbn [flat_map]. by rewrite Hfg, IH. Qed.

Lemma escapeHTML_flat_map (s : gostring) : escapeHTML s = flat_map htmlEntity s.
Proof.
  unfold escapeHTML. cbv zeta.
  change (lit "&") with ["&"%char]. change (lit "<") with ["<"%char].
  change (lit ">") with [">"%char].
  rewrite !ReplaceAll_single, !flat_map_flat_map.
  apply flat_map_pointwise. intros c. unfold htmlEntity.
  destruct (decide (c = "&"%char)) as [->|H1]; [by vm_compute|].
  cbn [flat_map app]. destruct (decide (c = "<"%char)) as [->|H2]; [by vm_compute|].
  cbn [flat_map app]. destruct (decide (c = ">"%char)) as [->|H3]; [by vm_compute|].
  cbn [flat_map app]. destruct (decide (c = quote)) as [->|H4]; [by vm_compute|].
  cbn [flat_map app]. destruct (decide (c = apostrophe)) as [->|H5]; [by vm_compute|].
  done.
Qed.

Lemma htmlEntity_cases (c : ascii) :
  (c = "&"%char /\ htmlEntity c = lit "&amp;") \/
  (c = "<"%char /\ htmlEntity c = lit "&lt;") \/
  (c = ">"%char /\ htmlEntity c = lit "&gt;") \/
  (c = quote /\ htmlEntity c = lit "&quot;") \/
  (c = apostrophe /\ htmlEntity c = lit "&#39;") \/
  (c <> "&"%char /\ htmlEntity c = [c] /\
   c ∉ ["<"%char; ">"%char; quote; apostrophe]).
Proof.
  unfold htmlEntity.
  destruct (decide (c = "&"%char)) as [->|H1]; [by left|].
  destruct (decide (c = "<"%char)) as [->|H2]; [by right; left|].
  destruct (decide (c = ">"%char)) as [->|H3]; [by right; right; left|].
  destruct (decide (c = quote)) as [->|H4]; [by right; right; right; left|].
  destruct (decide (c = apostrophe)) as [->|H5]; [by right; right; right; right; left|].
  right; right; right; right; right. split; [done|]. split; [done|].
  rewrite !elem_of_cons, elem_of_nil. tauto.
Qed.

Lemma htmlEntity_injective (s : gostring) :
  forall t, flat_map htmlEntity s = flat_map htmlEntity t -> s = t.
Proof.
  induction s as [|c s IH]; intros [|d t]; cbn [flat_map].
  - done.
  - destruct (htmlEntity_cases d) as [[_ ->]|[[_ ->]|[[_ ->]|[[_ ->]|[[_ ->]|(_ & -> & _)]]]]];
      discriminate.
  - destruct (htmlEntity_cases c) as [[_ ->]|[[_ ->]|[[_ ->]|[[_ ->]|[[_ ->]|(_ & -> & _)]]]]];
      discriminate.
  - destruct (htmlEntity_cases c) as [[-> ->]|[[-> ->]|[[-> ->]|[[-> ->]|[[-> ->]|(Hc & -> & _)]]]]];
      destruct (htmlEntity_cases d) as [[-> ->]|[[-> ->]|[[-> ->]|[[-> ->]|[[-> ->]|(Hd & -> & _)]]]]];
      cbn [lit list_ascii_of_string app]; intros E; simplify_eq/=;
      try (f_equal; by apply IH); done.
Qed.

(** X25.  [escapeHTML] is a faithful escape.  Although it is written as
    five successive replacements, it acts byte by byte (the ampersand is
    replaced first, so the ampersands of the entities it inserts are not
    escaped again); its result holds none of the bytes [<], [>], double
    quote and apostrophe; and two different texts never get the same
    escaped form. *)
Theorem escapeHTML_faithful (s : gostring) :
  escapeHTML s = flat_map htmlEntity s /\
  Forall (fun c => c ∉ ["<"%char; ">"%char; quote; apostrophe]) (escapeHTML s) /\
  forall t, escapeHTML s = escapeHTML t -> s = t.
Proof.
  split; [apply escapeHTML_flat_map|]. split.
  - rewrite escapeHTML_flat_map. induction s as [|c s IH]; [constructor|].
    cbn [flat_map]. apply Forall_app. split; [|exact IH].
    destruct (htmlEntity_cases c) as [[_ ->]|[[_ ->]|[[_ ->]|[[_ ->]|[[_ ->]|(_ & -> & Hn)]]]]];
      try (repeat constructor; by apply (bool_decide_unpack _)).
    by constructor.
  - intros t. rewrite !escapeHTML_flat_map. apply htmlEntity_injective.
Qed.

Lemma double_quotes_injective (s : gostring) :
  forall t,
    flat_map (fun d => if decide (d = quote) then [quote; quote] else [d]) s =
    flat_map (fun d => if decide (d = quote) then [quote; quote] else [d]) t -> s = t.
Proof.
  induction s as [|c s IH]; intros [|d t]; cbn [flat_map].
  - done.
  - by destruct (decide (d = quote)).
  - by destruct (decide (c = quote)).
  - destruct (decide (c = quote)) as [->|Hc], (decide (d = quote)) as [->|Hd];
      intros E; simplify_eq/=; try done; f_equal; by apply IH.
Qed.

Lemma ContainsAny_elem (s chars : gostring) (c : ascii) :
  c ∈ s -> c ∈ chars -> ContainsAny s chars = true.
Proof.
  intros Hs Hc. unfold ContainsAny. apply existsb_exists. exists c.
  split; [by apply list_elem_of_In|]. by apply bool_decide_eq_true.
Qed.

(** X26.  [escapeCSV] keeps cells apart: a text without comma, double
    quote, line feed and carriage return is written as it is; any other
    text is written between double quotes with its double quotes
    doubled; and two different texts never get the same cell. *)
Theorem escapeCSV_injective (s : gostring) :
  (ContainsAny s [","%char; quote; newline; carriageReturn] = false -> escapeCSV s = s) /\
  (ContainsAny s [","%char; quote; newline; carriageReturn] = true ->
   escapeCSV s =
     [quote] ++ flat_map (fun d => if decide (d = quote) then [quote; quote] else [d]) s ++
     [quote]) /\
  forall t, escapeCSV s = escapeCSV t -> s = t.
Proof.
  unfold escapeCSV. split; [by intros ->|]. split.
  { intros ->. cbv zeta. by rewrite ReplaceAll_single. }
  intros t. cbv zeta. rewrite !ReplaceAll_single.
  destruct (ContainsAny s _) eqn:Es, (ContainsAny t _) eqn:Et.
  - intros E. injection E as E. apply app_inv_tail in E. by apply double_quotes_injective.
  - intros <-. rewrite (ContainsAny_elem _ _ quote) in Et; [done|by left|].
    by apply (bool_decide_unpack _).
  - intros ->. rewrite (ContainsAny_elem _ _ quote) in Es; [done|by left|].
    by apply (bool_decide_unpack _).
  - done.
Qed.

Lemma filterByTimeRange_loop_spec (tr : TimeRange) (ls : list LogLine) :
  forall acc,
    filterByTimeRange_loop (Some <$> ls) tr acc =
      Ok (acc ++ List.filter (exportedIn tr) ls).
Proof.
  induction ls as [|l ls IH]; intros acc; cbn [fmap list_fmap filterByTimeRange_loop List.filter].
  - by rewrite app_nil_r.
  - unfold exportedIn at 1. destruct (IsZero (Timestamp l)); cbn [negb andb]; [apply IH|].
    destruct (After _ _ && Before _ _); [|apply IH].
    rewrite IH, <- app_assoc. done.
Qed.

Lemma filterByTimeRange_loop_nil (tr : TimeRange) (lines : list (option LogLine)) :
  forall acc, None ∈ lines -> filterByTimeRange_loop lines tr acc = Panic.
Proof.
  induction lines as [|[l|] lines IH]; intros acc Hin; cbn [filterByTimeRange_loop].
  - by apply elem_of_nil in Hin.
  - apply elem_of_cons in Hin as [?|Hin]; [done|].
    destruct (IsZero _); [by apply IH|]. destruct (_ && _); by apply IH.
  - done.
Qed.

(** X27.  The time range of an export is narrower than the time range
    of a filter.  [filterByTimeRange] keeps, in order, the records whose
    timestamp is not the zero time and lies strictly between the two
    bounds, and panics on a nil entry.  Every record it keeps passes the
    time axis of the simple filter for the same range; a record without
    timestamp, or stamped exactly with a bound of a range whose start is
    not after its end, passes that axis and is left out of the export. *)
Theorem export_range_narrower (tr : TimeRange) (ls : list LogLine)
    (lines : list (option LogLine)) :
  filterByTimeRange (Some <$> ls) tr = Ok (List.filter (exportedIn tr) ls) /\
  (None ∈ lines -> filterByTimeRange lines tr = Panic) /\
  (forall l, exportedIn tr l = true -> inTimeRange (Some tr) l = true) /\
  (forall l, tr_Start tr <= tr_End tr ->
     Timestamp l = zeroTime \/ Timestamp l = tr_Start tr \/ Timestamp l = tr_End tr ->
     inTimeRange (Some tr) l = true /\ exportedIn tr l = false).
Proof.
  split; [apply (filterByTimeRange_loop_spec tr ls [])|].
  split; [apply filterByTimeRange_loop_nil|].
  unfold exportedIn, inTimeRange, IsZero, After, Before, zeroTime. split.
  - intros l. destruct (Z.eqb_spec (Timestamp l) 0); [done|]. cbn [negb andb orb].
    intros [H1 H2]%andb_true_iff. apply Z.ltb_lt in H1, H2.
    apply negb_true_iff, orb_false_iff. split; apply Z.ltb_ge; lia.
  - intros l Hle Hl.
    destruct (Z.eqb_spec (Timestamp l) 0) as [E0|E0]; [done|]. cbn [negb andb orb].
    destruct Hl as [Hl|[Hl|Hl]]; [done| |]; rewrite Hl.
    + rewrite Z.ltb_irrefl. cbn [andb orb]. split; [|done].
      apply negb_true_iff, Z.ltb_ge. lia.
    + rewrite Z.ltb_irrefl, andb_false_r, orb_false_r. split; [|done].
      apply negb_true_iff, Z.ltb_ge. lia.
Qed.

End ExportFacts.

Section ExportExamples.
#[local] Existing Instance SmallRuntime.runtime.

Lemma escapeHTML_faithful_witness :
  escapeHTML (lit "<a href='x'>T&C</a>") = flat_map htmlEntity (lit "<a href='x'>T&C</a>") /\
  Forall (fun c => c ∉ ["<"%char; ">"%char; quote; apostrophe])
    (escapeHTML (lit "<a href='x'>T&C</a>")) /\
  forall t, escapeHTML (lit "<a href='x'>T&C</a>") = escapeHTML t ->
            lit "<a href='x'>T&C</a>" = t.
Proof. apply (escapeHTML_faithful (lit "<a href='x'>T&C</a>")). Defined.

Lemma escapeCSV_injective_witness :
  escapeCSV (lit "a,b") = [quote] ++ lit "a,b" ++ [quote] /\
  forall t, escapeCSV (lit "a,b") = escapeCSV t -> lit "a,b" = t.
Proof.
  destruct (escapeCSV_injective (lit "a,b")) as (_ & Hq & Hinj).
  split; [exact (Hq eq_refl)|exact Hinj].
Defined.

Lemma export_range_narrower_witness :
  let tr := mkTimeRange Examples.wall0 (Examples.wall0 + Hour) in
  filterByTimeRange [Some MoreExamples.stampedLine] tr = Ok [] /\
  inTimeRange (Some tr) MoreExamples.stampedLine = true /\
  exportedIn tr MoreExamples.stampedLine = false.
Proof.
  intros tr.
  destruct (export_range_narrower tr [MoreExamples.stampedLine] []) as (Hf & _ & _ & Hb).
  split; [exact Hf|].
  apply (Hb MoreExamples.stampedLine).
  - vm_compute. discriminate.
  - right. left. reflexivity.
Defined.

End ExportExamples.

(** ** Tokens that overlap *)

Section Tokens.
Context `{GoRuntime}.

Lemma apart_snoc (acc : list Token) (t : Token) :
  apart (acc ++ [t]) <-> apart acc /\ Forall (fun e => overlaps t e = false) acc.
Proof.
  induction acc as [|e acc IH]; cbn [app apart].
  - split; [intros _; split; [done|constructor]|intros _; split; [constructor|done]].
  - rewrite Forall_app, Forall_singleton, IH, Forall_cons. tauto.
Qed.

Lemma apart_lookup (l : list Token) :
  apart l ->
  forall (i j : nat) (e t : Token),
    (i < j)%nat -> l !! i = Some e -> l !! j = Some t -> overlaps t e = false.
Proof.
  induction l as [|x l IH]; intros Hap i j e t Hij Hi Hj; [done|].
  destruct Hap as [Hx Hap]. destruct j as [|j]; [lia|]. cbn in Hj.
  destruct i as [|i].
  - injection Hi as <-. rewrite Forall_forall in Hx. apply Hx.
    by eapply list_elem_of_lookup_2.
  - cbn in Hi. apply (IH Hap i j); [lia|done|done].
Qed.

Lemma existsb_overlaps_false (t : Token) (acc : list Token) :
  existsb (overlaps t) acc = false -> Forall (fun e => overlaps t e = false) acc.
Proof.
  induction acc as [|e acc IH]; [constructor|]. cbn [existsb].
  intros [? ?]%orb_false_iff. constructor; auto.
Qed.

Lemma removeOverlappingTokens_loop_spec (tokens : list Token) :
  forall acc,
    apart acc ->
    exists kept,
      removeOverlappingTokens_loop tokens acc = acc ++ kept /\
      sublist kept tokens /\
      apart (acc ++ kept) /\
      forall t, t ∈ tokens -> t ∈ acc ++ kept \/ exists e, e ∈ acc ++ kept /\ overlaps t e = true.
Proof.
  induction tokens as [|token rest IH]; intros acc Hap; cbn [removeOverlappingTokens_loop].
  - exists []. rewrite app_nil_r. split_and!; [done|done|done|].
    by intros t ?%elem_of_nil.
  - destruct (existsb (overlaps token) acc) eqn:E.
    + destruct (IH acc Hap) as (kept & -> & Hsub & Hap' & Hcov).
      exists kept. split_and!; [done|by apply sublist_cons|done|].
      intros t [->|Hin]%elem_of_cons; [|by apply Hcov].
      right. apply existsb_exists in E as (e & He & Ho). exists e.
      split; [|done]. apply elem_of_app. left. by apply list_elem_of_In.
    + assert (Hap1 : apart (acc ++ [token])).
      { apply apart_snoc. split; [done|]. by apply existsb_overlaps_false. }
      destruct (IH (acc ++ [token]) Hap1) as (kept & -> & Hsub & Hap' & Hcov).
      exists (token :: kept). rewrite <- app_assoc in *. cbn [app] in *.
      split_and!; [done|by apply sublist_skip|done|].
      intros t [->|Hin]%elem_of_cons; [|by apply Hcov].
      left. apply elem_of_app. right. left.
Qed.

Lemma overlaps_proper (t e : Token) :
  proper t -> proper e ->
  overlaps t e = false -> tok_End e <= tok_Start t \/ tok_End t <= tok_Start e.
Proof.
  unfold proper, overlaps. intros Ht He Ho.
  apply orb_false_iff in Ho as [Ho H3]. apply orb_false_iff in Ho as [H1 H2].
  apply andb_false_iff in H1, H2, H3.
  rewrite !Z.leb_gt, !Z.ltb_ge in *. lia.
Qed.

(** X28.  [removeOverlappingTokens] keeps a selection of the tokens in
    their order, beginning with the first one; no token it keeps
    overlaps a token kept before it, and every token it drops overlaps
    one it keeps.  For tokens that cover at least one byte, the ranges
    of any two kept tokens are disjoint. *)
Theorem removeOverlappingTokens_spec (tokens : list Token) :
  let kept := removeOverlappingTokens tokens in
  sublist kept tokens /\
  head kept = head tokens /\
  (forall (i j : nat) (e t : Token),
     (i < j)%nat -> kept !! i = Some e -> kept !! j = Some t -> overlaps t e = false) /\
  (forall t, t ∈ tokens -> t ∈ kept \/ exists e, e ∈ kept /\ overlaps t e = true) /\
  (Forall proper tokens ->
   forall (i j : nat) (e t : Token),
     (i < j)%nat -> kept !! i = Some e -> kept !! j = Some t ->
     tok_End e <= tok_Start t \/ tok_End t <= tok_Start e).
Proof.
  cbv zeta.
  assert (Hmain : sublist (removeOverlappingTokens tokens) tokens /\
                  head (removeOverlappingTokens tokens) = head tokens /\
                  apart (removeOverlappingTokens tokens) /\
                  (forall t, t ∈ tokens ->
                     t ∈ removeOverlappingTokens tokens \/
                     exists e, e ∈ removeOverlappingTokens tokens /\ overlaps t e = true)).
  { unfold removeOverlappingTokens.
    destruct (Z.leb_spec (Z.of_nat (length tokens)) 1) as [Hlen|Hlen].
    - split_and!; [done|done| |by left].
      destruct tokens as [|t [|t' tokens]]; [done| |simpl in Hlen; lia].
      split; [constructor|done].
    - destruct (removeOverlappingTokens_loop_spec tokens [] I)
        as (kept & E & Hsub & Hap & Hcov).
      rewrite E. cbn [app] in *. split_and!; [done| |done|done].
      destruct tokens as [|t tokens]; [simpl in Hlen; lia|].
      cbn [removeOverlappingTokens_loop existsb app] in E.
      destruct (removeOverlappingTokens_loop_spec tokens [t]) as (kept' & E' & _);
        [split; [constructor|done]|].
      rewrite E' in E. by rewrite <- E. }
  destruct Hmain as (Hsub & Hhead & Hap & Hcov).
  split_and!; [done|done|by apply apart_lookup|done|].
  intros Hp i j e t Hij Hi Hj.
  assert (Hk : Forall proper (removeOverlappingTokens tokens)).
  { rewrite Forall_forall in *. intros x Hx. apply Hp. by eapply elem_of_sublist. }
  rewrite Forall_forall in Hk.
  apply overlaps_proper.
  - apply Hk. by eapply list_elem_of_lookup_2.
  - apply Hk. by eapply list_elem_of_lookup_2.
  - by apply (apart_lookup _ Hap i j).
Qed.

End Tokens.

Section TokensExamples.
#[local] Existing Instance SmallRuntime.runtime.

Lemma removeOverlappingTokens_spec_witness :
  let tokens :=
    [ mkToken (lit "2024-01-15") (lit "timestamp") 0 10;
      mkToken (lit "2024") (lit "number") 0 4;
      mkToken (lit "ERROR") (lit "loglevel") 11 16 ] in
  removeOverlappingTokens tokens =
    [ mkToken (lit "2024-01-15") (lit "timestamp") 0 10;
      mkToken (lit "ERROR") (lit "loglevel") 11 16 ] /\
  forall (i j : nat) (e t : Token),
    (i < j)%nat ->
    removeOverlappingTokens tokens !! i = Some e ->
    removeOverlappingTokens tokens !! j = Some t ->
    tok_End e <= tok_Start t \/ tok_End t <= tok_Start e.
Proof.
  intros tokens. split; [reflexivity|].
  destruct (removeOverlappingTokens_spec tokens) as (_ & _ & _ & _ & Hd).
  apply Hd. repeat constructor.
Defined.

End TokensExamples.

(** ** Parentheses left open, and text terms *)

Section TextTerms.
Context `{GoRuntime}.

Lemma drop_nil_lookup (inp : gostring) (j : nat) : drop j inp = [] -> inp !! j = None.
Proof.
  intros Hd. apply lookup_ge_None. apply (f_equal length) in Hd.
  rewrite length_drop in Hd. simpl in Hd. lia.
Qed.

(** X29.  A parenthesis that is opened and not closed is an error, where
    a closing parenthesis too many is not: for a sub-expression [a] in
    printed form the query [(a] is rejected with the message
    [missing closing parenthesis], and [SetAdvancedFilter] returns that
    error, wrapped, and leaves the engine as it was. *)
Theorem open_parenthesis_rejected (f : FilterEngine) (now : Time) (a : QueryExpression) :
  printable a ->
  ParseAdvancedQuery f now (lit "(" ++ QueryString a) =
    Err (lit "missing closing parenthesis") /\
  SetAdvancedFilter f now (lit "(" ++ QueryString a) =
    Ok (f, Some (lit "failed to parse advanced query: missing closing parenthesis")).
Proof.
  intros Ha. pose proof (need_le a) as Hneed.
  set (inp := lit "(" ++ QueryString a).
  assert (Hasc : Forall is_ascii inp).
  { unfold inp. apply Forall_app. split; [by apply lit_ascii|by apply printable_ascii]. }
  assert (Hlen : length inp = S (length (QueryString a))) by done.
  assert (Hparse : ParseAdvancedQuery f now inp = Err (lit "missing closing parenthesis")).
  { rewrite ParseAdvancedQuery_graphic.
    2: { intros c [= <-]. by vm_compute. }
    2: { intros c. by apply (last_app_printed a (lit "(")). }
    unfold parseFuel. set (k := (6 * length inp + 1)%nat).
    replace (6 * length inp + 8)%nat with (S (S (S (S (S (S (S k))))))) by lia.
    cbn [parseExpression parseAndExpression].
    rewrite (unary_paren now inp Hasc (S (S (S k))) 0 (QueryString a)) by done.
    cbn [parseExpression parseAndExpression].
    destruct (parseUnary_printed now inp Hasc a Ha (S k) 1 []) as (j & -> & Hj);
      [lia|by rewrite app_nil_r|done|].
    cbn [obind]. rewrite (and_loop_end now inp _ j a Hj). cbn [obind].
    rewrite (or_loop_end now inp _ j a Hj). cbn [obind].
    rewrite (skipWhitespace_at inp [] j Hj). cbn [span input pos]. rewrite Nat.add_0_r.
    by rewrite (drop_nil_lookup inp j Hj). }
  split; [exact Hparse|].
  unfold SetAdvancedFilter. fold inp. rewrite Hparse.
  unfold str_eqb. rewrite bool_decide_eq_false_2 by done. reflexivity.
Qed.

(** A query that is one readable token without colon is a text term. *)
Lemma parse_single_token (f : FilterEngine) (now : Time) (tok : gostring) :
  readable tok -> colon ∉ tok ->
  ParseAdvancedQuery f now tok =
    let* te := parseTextExpression tok in Ok (TextExpr te).
Proof.
  intros Hr Hc.
  assert (Hasc : Forall is_ascii tok) by (by apply readable_ascii).
  rewrite ParseAdvancedQuery_graphic.
  2: { intros c Hh. destruct (readable_head tok Hr) as (c0 & s0 & -> & _ & _ & Hg).
       by injection Hh as <-. }
  2: { intros c. by apply readable_last. }
  unfold parseFuel. set (k := (6 * length tok + 3)%nat).
  replace (6 * length tok + 8)%nat with (S (S (S (S (S k))))) by lia.
  cbn [parseExpression parseAndExpression].
  rewrite (unary_leaf now tok Hasc (S k) 0 tok []) by (done || by rewrite app_nil_r).
  cbv zeta. rewrite (Contains_colon_false tok Hc).
  assert (Htime : HasPrefix tok (lit "time:[") = false).
  { destruct (HasPrefix tok (lit "time:[")) eqn:E; [|done].
    apply HasPrefix_time_Contains in E. by rewrite (Contains_colon_false tok Hc) in E. }
  rewrite Htime.
  destruct (parseTextExpression tok) as [te| | |]; try done. cbn [obind].
  assert (Hj : drop (0 + length tok) tok = []) by (cbn [Nat.add]; apply drop_all).
  rewrite (and_loop_end now tok _ _ _ Hj). cbn [obind].
  by rewrite (or_loop_end now tok _ _ _ Hj).
Qed.

Lemma parseTextExpression_word (w : gostring) :
  head w <> Some quote -> HasPrefix w (lit "~") = false ->
  parseTextExpression w = Ok (mkTextExpression w false false None).
Proof.
  intros Hq Ht. unfold parseTextExpression. rewrite Ht. cbn [obind te_Text].
  destruct (HasPrefix w [quote]) eqn:E; [|done]. by apply HasPrefix_single in E.
Qed.

Lemma parseTextExpression_quoted (text : gostring) :
  parseTextExpression (quote :: text ++ [quote]) = Ok (mkTextExpression text true false None).
Proof.
  unfold parseTextExpression.
  change (HasPrefix (quote :: text ++ [quote]) (lit "~")) with false.
  cbn [obind te_Text te_IsRegex te_Pattern].
  assert (Hp : HasPrefix (quote :: text ++ [quote]) [quote] = true)
    by (by apply HasPrefix_single).
  assert (Hs : HasSuffix (quote :: text ++ [quote]) [quote] = true).
  { unfold HasSuffix. apply HasPrefix_single.
    change (quote :: text ++ [quote]) with ((quote :: text) ++ [quote]).
    by rewrite reverse_app. }
  rewrite Hp, Hs. cbn [andb]. unfold go_slice.
  assert (Hl : length (quote :: text ++ [quote]) = S (S (length text))).
  { cbn [length]. rewrite length_app. simpl. lia. }
  rewrite Hl.
  destruct (Z.ltb_spec 1 0); [lia|].
  destruct (Z.ltb_spec (Z.of_nat (S (S (length text))) - 1) 1); [lia|].
  destruct (Z.ltb_spec (Z.of_nat (S (S (length text)))) (Z.of_nat (S (S (length text))) - 1));
    [lia|].
  cbn [orb obind]. unfold slice.
  replace (Z.to_nat (Z.of_nat (S (S (length text))) - 1) - Z.to_nat 1)%nat
    with (length text) by lia.
  change (Z.to_nat 1) with 1%nat. cbn [drop]. rewrite drop_0.
  by rewrite take_app_length.
Qed.

Lemma quoted_readable (text : gostring) :
  quote ∉ text -> Forall is_ascii text -> readable (quote :: text ++ [quote]).
Proof.
  intros Hq Ha. split.
  - unfold startsWithNot. cbn [take map]. unfold str_eqb.
    rewrite bool_decide_eq_false_2; [done|].
    intros E. apply (f_equal head) in E. by vm_compute in E.
  - right. by exists text.
Qed.

(** X30.  How a text term searches depends on its quotes.  A bare word
    (a readable token without colon, not starting with a double quote or
    a tilde) is a term that matches the records whose raw text contains
    the word when both are put in lower case; a text between double
    quotes is a term that matches the records whose raw text contains
    that very text, case included. *)
Theorem text_term_semantics (f : FilterEngine) (now : Time) (w text : gostring) :
  readable w -> head w <> Some quote -> HasPrefix w (lit "~") = false -> colon ∉ w ->
  quote ∉ text -> colon ∉ text -> Forall is_ascii text ->
  (exists e,
     ParseAdvancedQuery f now w = Ok e /\
     forall line, Evaluate e line f = Contains (ToLower (Raw line)) (ToLower w)) /\
  (exists e,
     ParseAdvancedQuery f now (quote :: text ++ [quote]) = Ok e /\
     forall line, Evaluate e line f = Contains (Raw line) text).
Proof.
  intros Hr Hq Ht Hc Hqt Hct Ha. split.
  - eexists. split.
    + rewrite (parse_single_token f now w Hr Hc), (parseTextExpression_word w Hq Ht).
      reflexivity.
    + reflexivity.
  - eexists. split.
    + rewrite (parse_single_token f now _ (quoted_readable text Hqt Ha)).
      * rewrite parseTextExpression_quoted. reflexivity.
      * intros [?|[?|?%list_elem_of_singleton]%elem_of_app]%elem_of_cons; done.
    + reflexivity.
Qed.

End TextTerms.

Section TextTermsExamples.
#[local] Existing Instance SmallRuntime.runtime.

Lemma open_parenthesis_rejected_witness :
  ParseAdvancedQuery Examples.engine0 Examples.wall0 (lit "(level:ERROR") =
    Err (lit "missing closing parenthesis") /\
  SetAdvancedFilter Examples.engine0 Examples.wall0 (lit "(level:ERROR") =
    Ok (Examples.engine0,
        Some (lit "failed to parse advanced query: missing closing parenthesis")).
Proof.
  apply (open_parenthesis_rejected Examples.engine0 Examples.wall0 MoreExamples.levelError).
  exact levelError_printable.
Defined.

Lemma boom_readable : readable (lit "boom").
Proof.
  split; [by vm_compute|].
  left. split_and!; [discriminate|repeat constructor|discriminate|reflexivity].
Defined.

Lemma text_term_semantics_witness :
  (exists e,
     ParseAdvancedQuery Examples.engine0 Examples.wall0 (lit "boom") = Ok e /\
     forall line,
       Evaluate e line Examples.engine0 = Contains (ToLower (Raw line)) (ToLower (lit "boom"))) /\
  (exists e,
     ParseAdvancedQuery Examples.engine0 Examples.wall0
       (quote :: lit "disk full" ++ [quote]) = Ok e /\
     forall line, Evaluate e line Examples.engine0 = Contains (Raw line) (lit "disk full")).
Proof.
  apply (text_term_semantics Examples.engine0 Examples.wall0 (lit "boom") (lit "disk full")).
  - exact boom_readable.
  - discriminate.
  - reflexivity.
  - by apply (bool_decide_unpack _).
  - by apply (bool_decide_unpack _).
  - by apply (bool_decide_unpack _).
  - repeat constructor.
Defined.

End TextTermsExamples.
